(** * BTW: the Claude injection strategy and the commands around it

    A shallow embedding of [src/core/injection/strategies/ClaudeStrategy.ts],
    of the [inject] command with its interactive mode, of the list of the
    terminal ([cli/utils/interactive.ts]) and of the [update] command, with
    the properties of the injection/ejection reconciliation engine stated
    over it.

    JavaScript strings are sequences of UTF-16 code units; they are modelled
    as lists of code-unit values, so that [indexOf], [substring], [trim] and
    the regular expression of the ownership marker can be written out the way
    the language defines them. *)

From Stdlib Require Import List NArith ZArith Arith Bool Lia Ascii.
From Stdlib Require String.
Import ListNotations String.StringSyntax.

(* ================================================================== *)
(** * JavaScript strings *)
(* ================================================================== *)

Module JS.

Definition char := N.
Definition jstring := list char.

(** A literal of the source, code unit by code unit. *)
Definition lit (s : String.string) : jstring :=
  map N_of_ascii (String.list_ascii_of_string s).

Definition DQUOTE : char := 34%N.
Definition BACKSLASH : char := 92%N.
Definition LF : char := 10%N.
Definition SPACE : char := 32%N.

Fixpoint eqb (a b : jstring) : bool :=
  match a, b with
  | [], [] => true
  | x :: a', y :: b' => N.eqb x y && eqb a' b'
  | _, _ => false
  end.

(** [s.startsWith(p)] *)
Fixpoint startsWith (p s : jstring) : bool :=
  match p, s with
  | [], _ => true
  | x :: p', y :: s' => N.eqb x y && startsWith p' s'
  | _ :: _, [] => false
  end.

(** [s.endsWith(p)] *)
Definition endsWith (p s : jstring) : bool :=
  (length p <=? length s) && eqb (skipn (length s - length p) s) p.

(** [s.indexOf(p)]; [None] stands for [-1]. *)
Fixpoint indexOf (p s : jstring) : option nat :=
  if startsWith p s then Some 0
  else match s with
       | [] => None
       | _ :: s' => option_map S (indexOf p s')
       end.

(** [s.indexOf(p, from)] *)
Definition indexOfFrom (p : jstring) (from : nat) (s : jstring) : option nat :=
  option_map (Nat.add from) (indexOf p (skipn from s)).

(** [s.includes(p)] *)
Definition includes (p s : jstring) : bool :=
  match indexOf p s with Some _ => true | None => false end.

(** [s.substring(a)] and [s.substring(0, b)] for in-range arguments. *)
Definition substringFrom (a : nat) (s : jstring) : jstring := skipn a s.
Definition substringTo (b : nat) (s : jstring) : jstring := firstn b s.

(** WhiteSpace and LineTerminator code units, the ones [trim] strips. *)
Definition isWhiteSpace (c : char) : bool :=
  existsb (N.eqb c)
    [9; 10; 11; 12; 13; 32; 160; 5760; 8232; 8233; 8239; 8287; 12288; 65279]%N
  || ((8192 <=? c) && (c <=? 8202))%N.

Fixpoint dropWhile (f : char -> bool) (s : jstring) : jstring :=
  match s with
  | [] => []
  | c :: s' => if f c then dropWhile f s' else s
  end.

Fixpoint takeWhile (f : char -> bool) (s : jstring) : jstring :=
  match s with
  | [] => []
  | c :: s' => if f c then c :: takeWhile f s' else []
  end.

Definition trimStart (s : jstring) : jstring := dropWhile isWhiteSpace s.
Definition trimEnd (s : jstring) : jstring := rev (dropWhile isWhiteSpace (rev s)).

(** [s.trim()] *)
Definition trim (s : jstring) : jstring := trimEnd (trimStart s).

(** Truthiness of a string: the empty string is falsy. *)
Definition truthy (s : jstring) : bool :=
  match s with [] => false | _ :: _ => true end.

(** [lines.join(sep)] *)
Fixpoint join (sep : jstring) (lines : list jstring) : jstring :=
  match lines with
  | [] => []
  | [l] => l
  | l :: rest => l ++ sep ++ join sep rest
  end.

(** [s.replace(/"/g, '\\"')] *)
Definition escapeQuotes (s : jstring) : jstring :=
  flat_map (fun c => if N.eqb c DQUOTE then [BACKSLASH; DQUOTE] else [c]) s.

(** The characters [.] does not match: the line terminators. *)
Definition isLineTerminator (c : char) : bool :=
  existsb (N.eqb c) [10; 13; 8232; 8233]%N.

End JS.
Import JS.

Open Scope string_scope.


(* ================================================================== *)
(** * Data model ([types/index.ts], as the strategy uses it) *)
(* ================================================================== *)

Inductive AITarget := claude | cursor | windsurf | copilot.

Definition AITarget_eqb (a b : AITarget) : bool :=
  match a, b with
  | claude, claude | cursor, cursor | windsurf, windsurf | copilot, copilot => true
  | _, _ => false
  end.

Record AgentDefinition := mkAgent {
  agent_id : jstring;
  agent_name : jstring;
  agent_description : jstring;
  systemPrompt : jstring;
  agent_model : option jstring
}.

Record Manifest := mkManifest {
  m_id : jstring;
  m_name : jstring;
  m_description : jstring;
  m_version : jstring;
  m_targets : list AITarget;
  m_agents : list AgentDefinition;
  m_author : option jstring;
  m_repository : option jstring
}.

(** [InjectOptions] and [EjectOptions]. The project root is fixed: the
    filesystem state below is the tree under [options.projectRoot]. An
    optional boolean that is left out is falsy, hence [false]. *)
Record InjectOptions := mkInjectOptions {
  backup : bool;
  force : bool;
  merge : bool
}.

Record EjectOptions := mkEjectOptions {
  workflowId : option jstring;
  clean : bool
}.

Record InjectionStatus := mkStatus {
  isInjected : bool;
  status_workflowId : option jstring;
  hasBackup : bool
}.

(** Truthiness of an optional string ([undefined] and [''] are falsy). *)
Definition truthyOpt (o : option jstring) : bool :=
  match o with Some s => truthy s | None => false end.

(* ================================================================== *)
(** * The filesystem capability *)
(* ================================================================== *)

(** Modelled from the spec: [infrastructure/fs/PathResolver.ts] is not part
    of the sources at hand. The paths
    [pathResolver.resolveAiToolPaths(projectRoot, 'claude')] and [path.join]
    produce in the strategy are, relative to the project root, the ones the
    header of the strategy and its tests name: [.claude], [.claude/agents],
    a file of [.claude/agents], another entry of [.claude], and
    [CLAUDE.md]. An agent id is taken to be a plain file name: [path.join]
    is not modelled on ids that hold a path separator. *)
Inductive path :=
| ClaudeDirP
| AgentsDirP
| AgentFileP (name : jstring)
| ClaudeEntryP (name : jstring)
| InstructionsP.

(** [`${p}${suffix}`] on a file of the agents directory. *)
Definition path_append (p : path) (suffix : jstring) : path :=
  match p with
  | AgentFileP n => AgentFileP (n ++ suffix)
  | ClaudeEntryP n => ClaudeEntryP (n ++ suffix)
  | _ => p
  end.

(** A directory entry: a readable file with its content, or an entry whose
    [readFile] fails (a subdirectory, a file without read permission). *)
Inductive node := File (content : jstring) | Unreadable.

(** A directory in listing order. *)
Definition dir := list (jstring * node).

Record claudeTree := mkClaudeTree {
  agentsDir : option dir;
  siblings : list jstring
}.

Record FS := mkFS {
  dotClaude : option claudeTree;
  claudeMd : option node
}.

Record FileInfo := mkFileInfo { fi_name : jstring; fi_path : path }.

Definition agents (fs : FS) : option dir :=
  match dotClaude fs with Some c => agentsDir c | None => None end.

Fixpoint lookup (n : jstring) (d : dir) : option node :=
  match d with
  | [] => None
  | (k, v) :: d' => if JS.eqb k n then Some v else lookup n d'
  end.

Definition unlink (n : jstring) (d : dir) : dir :=
  filter (fun e => negb (JS.eqb (fst e) n)) d.

(** Overwrite the entry in place, or add it at the end of the listing. *)
Fixpoint upsert (n : jstring) (v : node) (d : dir) : dir :=
  match d with
  | [] => [(n, v)]
  | (k, w) :: d' => if JS.eqb k n then (k, v) :: d' else (k, w) :: upsert n v d'
  end.

Definition set_agents (o : option dir) (fs : FS) : FS :=
  match dotClaude fs with
  | Some c => mkFS (Some (mkClaudeTree o (siblings c))) (claudeMd fs)
  | None =>
      match o with
      | Some d => mkFS (Some (mkClaudeTree (Some d) [])) (claudeMd fs)
      | None => fs
      end
  end.

(* ------------------------------------------------------------------ *)
(** ** Exceptions and the state-and-exception monad *)

Inductive ErrorCode := INJECTION_FAILED.

Inductive exn :=
| BTWError (code : ErrorCode) (message : jstring)
| IOError (message : jstring)
| PlainError (message : jstring).

Definition exn_message (e : exn) : jstring :=
  match e with BTWError _ m | IOError m | PlainError m => m end.

Inductive outcome (A : Type) :=
| Ok (a : A)
| Throw (e : exn).
Arguments Ok {A} a.
Arguments Throw {A} e.

Module Eff.

Definition M (S A : Type) := S -> outcome A * S.

Definition ret {S A} (a : A) : M S A := fun s => (Ok a, s).

Definition bind {S A B} (m : M S A) (k : A -> M S B) : M S B :=
  fun s => match m s with
           | (Ok a, s') => k a s'
           | (Throw e, s') => (Throw e, s')
           end.

Definition throw {S A} (e : exn) : M S A := fun s => (Throw e, s).

(** [try { m } catch (e) { h e }]: the effects of [m] up to the throw stay. *)
Definition tryCatch {S A} (m : M S A) (h : exn -> M S A) : M S A :=
  fun s => match m s with
           | (Ok a, s') => (Ok a, s')
           | (Throw e, s') => h e s'
           end.

Definition get {S} : M S S := fun s => (Ok s, s).
Definition modify {S} (f : S -> S) : M S unit := fun s => (Ok tt, f s).

(** [for (const x of xs) { body }] *)
Fixpoint forEach {S A} (xs : list A) (body : A -> M S unit) : M S unit :=
  match xs with
  | [] => ret tt
  | x :: xs' => bind (body x) (fun _ => forEach xs' body)
  end.

(** A loop that carries a local variable. *)
Fixpoint foldM {S A B} (body : B -> A -> M S B) (xs : list A) (acc : B) : M S B :=
  match xs with
  | [] => ret acc
  | x :: xs' => bind (body acc x) (fun acc' => foldM body xs' acc')
  end.

Definition when {S} (b : bool) (m : M S unit) : M S unit :=
  if b then m else ret tt.

End Eff.
Import Eff.

Declare Scope eff_scope.
Delimit Scope eff_scope with eff.
Notation "x <- m ;; k" := (bind m (fun x => k))
  (at level 61, m at next level, right associativity) : eff_scope.
Notation "m ;; k" := (bind m (fun _ => k))
  (at level 61, right associativity) : eff_scope.
Open Scope eff_scope.

(* ------------------------------------------------------------------ *)
(** ** [fileSystem] *)

Definition isSome {A} (o : option A) : bool :=
  match o with Some _ => true | None => false end.

Module fileSystem.

(** Modelled from the spec: [infrastructure/fs/FileSystem.ts] is not part of
    the sources at hand; the spec gives the capability as existence check,
    read, write, directory creation, removal (optionally recursive),
    directory listing and backup. *)
Definition exists_pure (p : path) (fs : FS) : bool :=
  match p with
  | ClaudeDirP => isSome (dotClaude fs)
  | AgentsDirP => isSome (agents fs)
  | AgentFileP n =>
      match agents fs with Some d => isSome (lookup n d) | None => false end
  | ClaudeEntryP n =>
      match dotClaude fs with
      | Some c => existsb (JS.eqb n) (siblings c)
      | None => false
      end
  | InstructionsP => isSome (claudeMd fs)
  end.

Definition exists_ (p : path) : M FS bool :=
  fun fs => (Ok (exists_pure p fs), fs).

(** Modelled from the spec: reading fails on a missing path, on a directory
    and on an unreadable file. *)
Definition readFile (p : path) : M FS jstring :=
  fun fs =>
    match p with
    | AgentFileP n =>
        match agents fs with
        | Some d =>
            match lookup n d with
            | Some (File c) => (Ok c, fs)
            | _ => (Throw (IOError (lit "cannot read file")), fs)
            end
        | None => (Throw (IOError (lit "cannot read file")), fs)
        end
    | InstructionsP =>
        match claudeMd fs with
        | Some (File c) => (Ok c, fs)
        | _ => (Throw (IOError (lit "cannot read file")), fs)
        end
    | _ => (Throw (IOError (lit "cannot read file")), fs)
    end.

(** Modelled from the spec: directory creation; creating a directory that
    exists changes nothing, missing parents are created. *)
Definition mkdir (p : path) : M FS unit :=
  fun fs =>
    match p with
    | ClaudeDirP =>
        match dotClaude fs with
        | Some _ => (Ok tt, fs)
        | None => (Ok tt, mkFS (Some (mkClaudeTree None [])) (claudeMd fs))
        end
    | AgentsDirP =>
        match agents fs with
        | Some _ => (Ok tt, fs)
        | None => (Ok tt, set_agents (Some []) fs)
        end
    | _ => (Throw (IOError (lit "cannot create directory")), fs)
    end.

(** Modelled from the spec: writing replaces the content of a file or adds
    the file; with [createDirs] the parent directories are created first;
    an entry that is no readable file cannot be overwritten. *)
Definition writeFile (p : path) (content : jstring) (createDirs : bool) : M FS unit :=
  fun fs =>
    match p with
    | AgentFileP n =>
        match agents fs with
        | Some d =>
            match lookup n d with
            | Some Unreadable => (Throw (IOError (lit "cannot write file")), fs)
            | _ => (Ok tt, set_agents (Some (upsert n (File content) d)) fs)
            end
        | None =>
            if createDirs
            then (Ok tt, set_agents (Some [(n, File content)]) fs)
            else (Throw (IOError (lit "cannot write file")), fs)
        end
    | InstructionsP =>
        match claudeMd fs with
        | Some Unreadable => (Throw (IOError (lit "cannot write file")), fs)
        | _ => (Ok tt, mkFS (dotClaude fs) (Some (File content)))
        end
    | _ => (Throw (IOError (lit "cannot write file")), fs)
    end.

(** Modelled from the spec: removal, of a whole directory when [recursive];
    removing what is not there changes nothing. *)
Definition remove (p : path) (recursive : bool) : M FS unit :=
  fun fs =>
    match p with
    | ClaudeDirP =>
        if recursive then (Ok tt, mkFS None (claudeMd fs))
        else (Throw (IOError (lit "is a directory")), fs)
    | AgentsDirP =>
        if recursive then (Ok tt, set_agents None fs)
        else (Throw (IOError (lit "is a directory")), fs)
    | AgentFileP n =>
        match agents fs with
        | Some d => (Ok tt, set_agents (Some (unlink n d)) fs)
        | None => (Ok tt, fs)
        end
    | ClaudeEntryP n =>
        match dotClaude fs with
        | Some c =>
            (Ok tt, mkFS (Some (mkClaudeTree (agentsDir c)
                                   (filter (fun k => negb (JS.eqb k n)) (siblings c))))
                         (claudeMd fs))
        | None => (Ok tt, fs)
        end
    | InstructionsP => (Ok tt, mkFS (dotClaude fs) None)
    end.

(** Modelled from the spec: the listing of a directory, in listing order;
    it fails when the directory does not exist. *)
Definition readdir (p : path) : M FS (list FileInfo) :=
  fun fs =>
    match p with
    | AgentsDirP =>
        match agents fs with
        | Some d => (Ok (map (fun e => mkFileInfo (fst e) (AgentFileP (fst e))) d), fs)
        | None => (Throw (IOError (lit "no such directory")), fs)
        end
    | ClaudeDirP =>
        match dotClaude fs with
        | Some c =>
            (Ok ((if isSome (agentsDir c)
                  then [mkFileInfo (lit "agents") AgentsDirP] else [])
                 ++ map (fun k => mkFileInfo k (ClaudeEntryP k)) (siblings c)), fs)
        | None => (Throw (IOError (lit "no such directory")), fs)
        end
    | _ => (Throw (IOError (lit "not a directory")), fs)
    end.

(** Modelled from the spec: the backup of a file is its copy at
    [<path>.btw-backup]; it fails when the file cannot be read. *)
Definition backup (p : path) : M FS path :=
  c <- readFile p ;;
  writeFile (path_append p (lit ".btw-backup")) c false ;;
  ret (path_append p (lit ".btw-backup")).

End fileSystem.

(* ================================================================== *)
(** * [ClaudeStrategy] *)
(* ================================================================== *)

Record InjectionResult := mkInjectionResult {
  res_target : AITarget;
  configPath : path;
  agentPaths : list path;
  agentCount : nat;
  backupCreated : bool;
  backupPath : option path
}.

Module ClaudeStrategy.

Definition BTW_START_MARKER : jstring := lit "<!-- BTW_START -->".
Definition BTW_END_MARKER : jstring := lit "<!-- BTW_END -->".
Definition BTW_VERSION : jstring := lit "1.0.0".

(** The paths of the target. [agentsPath] is a non-empty string for this
    target, so the tests [if (agentsPath)] of the source always pass and
    are left out. *)
Definition instructionsPath : path := InstructionsP.
Definition agentsPath : path := AgentsDirP.
Definition claudeDir : path := ClaudeDirP.

Definition notInjected : InjectionStatus := mkStatus false None false.

(** [content.match(/# workflow: (.+)/)]: the capture group of the leftmost
    match, [None] for [null]. The group is greedy and nothing follows it, so
    it runs to the end of the line. *)
Fixpoint matchWorkflow (content : jstring) : option jstring :=
  match content with
  | [] => None
  | _ :: rest =>
      if startsWith (lit "# workflow: ") content then
        match takeWhile (fun c => negb (isLineTerminator c)) (skipn 12 content) with
        | [] => matchWorkflow rest
        | capture => Some capture
        end
      else matchWorkflow rest
  end.

(** The file-name test the three scans share. *)
Definition skipped (name : jstring) : bool :=
  negb (endsWith (lit ".md") name) || endsWith (lit ".btw-backup") name.

(** [escapeYamlString] *)
Definition escapeYamlString (str : jstring) : jstring :=
  if includes (lit ":") str || includes (lit "#") str || includes [LF] str
     || startsWith (lit " ") str || endsWith (lit " ") str
  then [DQUOTE] ++ escapeQuotes str ++ [DQUOTE]
  else str.

(** [removeBtwContent] *)
Definition removeBtwContent (content : jstring) : jstring :=
  match indexOf BTW_START_MARKER content, indexOf BTW_END_MARKER content with
  | Some startIndex, Some endIndex =>
      if startIndex <? endIndex then
        let before := substringTo startIndex content in
        let after := substringFrom (endIndex + length BTW_END_MARKER) content in
        trim (before ++ after)
      else content
  | _, _ => content
  end.

(** The table of [generateAgentFile]; [modelMap[m] || m]. *)
Definition modelMap : list (jstring * jstring) :=
  [ (lit "claude-3-opus", lit "opus");
    (lit "claude-3-sonnet", lit "sonnet");
    (lit "claude-3-haiku", lit "haiku");
    (lit "claude-opus-4", lit "opus");
    (lit "claude-sonnet-4", lit "sonnet") ].

Fixpoint assoc (k : jstring) (t : list (jstring * jstring)) : option jstring :=
  match t with
  | [] => None
  | (k', v) :: t' => if JS.eqb k' k then Some v else assoc k t'
  end.

Definition mapModel (m : jstring) : jstring :=
  match assoc m modelMap with Some v => v | None => m end.

(** [generateAgentFile]; [now] is [new Date().toISOString()]. *)
Definition generateAgentFile (now : jstring) (agent : AgentDefinition)
    (workflowId : jstring) : jstring :=
  join [LF]
    ([ lit "---";
       lit "name: " ++ agent_id agent;
       lit "description: " ++ escapeYamlString (agent_description agent) ]
     ++ (if truthyOpt (agent_model agent)
         then match agent_model agent with
              | Some m => [lit "model: " ++ mapModel m]
              | None => []
              end
         else [])
     ++ [ lit "# BTW metadata";
          lit "# workflow: " ++ workflowId;
          lit "# injected: " ++ now;
          lit "---";
          [];
          systemPrompt agent ]).

(** Modelled from the spec: [createMarker] is a method of
    [BaseInjectionStrategy], which is not part of the sources at hand. The
    region opens with an ownership comment carrying the workflow id and an
    ISO-8601 timestamp; the test fixture and [eject] give its shape,
    [<!-- BTW:<id>:<timestamp> -->]. *)
Definition createMarker (now : jstring) (workflowId : jstring) : jstring :=
  lit "<!-- BTW:" ++ workflowId ++ lit ":" ++ now ++ lit " -->".

Definition optLine (label : jstring) (o : option jstring) : list jstring :=
  if truthyOpt o
  then match o with Some v => [label ++ v] | None => [] end
  else [].

(** [generateInstructions] *)
Definition generateInstructions (now : jstring) (manifest : Manifest) : jstring :=
  join [LF]
    ([ BTW_START_MARKER;
       createMarker now (m_id manifest);
       [];
       lit "# " ++ m_name manifest;
       [] ]
     ++ (if truthy (m_description manifest) then [m_description manifest; []] else [])
     ++ [ lit "## Workflow Information";
          [];
          lit "- **Workflow ID:** " ++ m_id manifest;
          lit "- **Version:** " ++ m_version manifest ]
     ++ optLine (lit "- **Author:** ") (m_author manifest)
     ++ optLine (lit "- **Repository:** ") (m_repository manifest)
     ++ [ [] ]
     ++ (if 0 <? length (m_agents manifest)
         then [ lit "## Available Agents";
                [];
                lit "This workflow provides the following specialized agents:";
                [] ]
              ++ map (fun agent =>
                        lit "- **" ++ agent_name agent ++ lit "** (`"
                        ++ agent_id agent ++ lit "`): " ++ agent_description agent)
                     (m_agents manifest)
              ++ [ [] ]
         else [])
     ++ [ lit "---";
          [];
          lit "*Injected by BTW v" ++ BTW_VERSION ++ lit " at " ++ now ++ lit "*";
          [];
          BTW_END_MARKER ]).

(** The separator put between the user's content and the region. *)
Definition SEPARATOR : jstring := [LF; LF] ++ lit "---" ++ [LF; LF].

(** The text [updateClaudeMd] writes in its two branches that keep the
    existing content: the content without its region, then the region. *)
Definition stripAndAppend (existingContent btwContent : jstring) : jstring :=
  let cleanedContent := removeBtwContent existingContent in
  if truthy (trim cleanedContent)
  then trim cleanedContent ++ SEPARATOR ++ btwContent
  else btwContent.

(** [updateClaudeMd] *)
Definition updateClaudeMd (now : jstring) (claudeMdPath : path)
    (manifest : Manifest) (options : InjectOptions) : M FS unit :=
  let btwContent := generateInstructions now manifest in
  exists_ <- fileSystem.exists_ claudeMdPath ;;
  if merge options && exists_ then
    existingContent <- fileSystem.readFile claudeMdPath ;;
    fileSystem.writeFile claudeMdPath (stripAndAppend existingContent btwContent) false
  else if exists_ && negb (force options) then
    existingContent <- fileSystem.readFile claudeMdPath ;;
    if includes BTW_START_MARKER existingContent then
      fileSystem.writeFile claudeMdPath (stripAndAppend existingContent btwContent) false
    else
      fileSystem.writeFile claudeMdPath
        (trim existingContent ++ SEPARATOR ++ btwContent) false
  else
    fileSystem.writeFile claudeMdPath btwContent false.

(** One round of the scan loops: skip by name, read, and keep the path when
    the content passes [test]; a file that cannot be read is skipped. *)
Definition scanFile (test : jstring -> bool) (acc : list path) (file : FileInfo)
  : M FS (list path) :=
  if skipped (fi_name file) then ret acc
  else tryCatch
         (content <- fileSystem.readFile (fi_path file) ;;
          if test content then ret (acc ++ [fi_path file]) else ret acc)
         (fun _ => ret acc).

Definition isBtwContent (content : jstring) : bool :=
  includes (lit "# BTW metadata") content || includes (lit "# workflow:") content.

Definition belongsTo (workflowId : jstring) (content : jstring) : bool :=
  match matchWorkflow content with
  | Some capture => JS.eqb (trim capture) workflowId
  | None => false
  end.

(** [findBtwAgents]: only [readdir] can reach the outer handler, and then
    nothing has been collected. *)
Definition findBtwAgents (agentsPath : path) : M FS (list path) :=
  tryCatch
    (files <- fileSystem.readdir agentsPath ;;
     foldM (scanFile isBtwContent) files [])
    (fun _ => ret []).

(** [findBtwAgentsForWorkflow] *)
Definition findBtwAgentsForWorkflow (agentsPath : path) (workflowId : jstring)
  : M FS (list path) :=
  tryCatch
    (files <- fileSystem.readdir agentsPath ;;
     foldM (scanFile (belongsTo workflowId)) files [])
    (fun _ => ret []).

(** [workflowIds.add(id)] on a [Set], which keeps insertion order. *)
Definition setAdd (id : jstring) (ids : list jstring) : list jstring :=
  if existsb (JS.eqb id) ids then ids else ids ++ [id].

(** [getAllWorkflowIdsFromAgents] *)
Definition getAllWorkflowIdsFromAgents (agentsPath : path) : M FS (list jstring) :=
  tryCatch
    (files <- fileSystem.readdir agentsPath ;;
     foldM (fun workflowIds file =>
              if skipped (fi_name file) then ret workflowIds
              else tryCatch
                     (content <- fileSystem.readFile (fi_path file) ;;
                      match matchWorkflow content with
                      | Some capture => ret (setAdd (trim capture) workflowIds)
                      | None => ret workflowIds
                      end)
                     (fun _ => ret workflowIds))
           files [])
    (fun _ => ret []).

(** [getWorkflowIdFromAgents] *)
Definition getWorkflowIdFromAgents (agentsPath : path) : M FS (option jstring) :=
  ids <- getAllWorkflowIdsFromAgents agentsPath ;;
  ret (match ids with id :: _ => Some id | [] => None end).

(** [isWorkflowInjected] *)
Definition isWorkflowInjected (workflowId : jstring) : M FS bool :=
  injectedIds <- getAllWorkflowIdsFromAgents agentsPath ;;
  ret (existsb (JS.eqb workflowId) injectedIds).

(** The handler both [inject] and [eject] end with: a [BTWError] passes,
    anything else is wrapped into one. *)
Definition rethrow {A} (prefix : jstring) (error : exn) : M FS A :=
  match error with
  | BTWError _ _ => throw error
  | _ => throw (BTWError INJECTION_FAILED (prefix ++ exn_message error))
  end.

(** [inject], step 1: create the [.claude] and [.claude/agents]
    directories. *)
Definition createDirectories : M FS unit :=
  fileSystem.mkdir claudeDir ;;
  fileSystem.mkdir agentsPath.

(** [inject], step 2: check if this specific workflow is already injected
    (unless forcing). *)
Definition checkNotInjected (manifest : Manifest) (options : InjectOptions)
  : M FS unit :=
  if negb (force options) then
    isAlreadyInjected <- isWorkflowInjected (m_id manifest) ;;
    if isAlreadyInjected
    then throw (BTWError INJECTION_FAILED
                  (lit "Workflow '" ++ m_id manifest
                   ++ lit "' is already injected. Use --force to re-inject."))
    else ret tt
  else ret tt.

(** [inject], step 3: back up the existing agents of this workflow if
    requested; a backup that fails is passed over. The answer is
    [backupCreated]. *)
Definition backupExistingAgents (manifest : Manifest) (options : InjectOptions)
  : M FS bool :=
  if backup options then
    existingAgents <- findBtwAgentsForWorkflow agentsPath (m_id manifest) ;;
    foldM (fun created agentFile =>
             tryCatch (fileSystem.backup agentFile ;; ret true)
                      (fun _ => ret created))
          existingAgents false
  else ret false.

(** [inject], step 4: remove the existing agents of this workflow only,
    if forcing. *)
Definition removeExistingAgents (manifest : Manifest) (options : InjectOptions)
  : M FS unit :=
  if force options then
    existingAgents <- findBtwAgentsForWorkflow agentsPath (m_id manifest) ;;
    forEach existingAgents (fun agentFile => fileSystem.remove agentFile false)
  else ret tt.

(** [inject], step 5: create the agent files. The answer is
    [agentFilePaths]. *)
Definition createAgentFiles (now : jstring) (manifest : Manifest)
  : M FS (list path) :=
  foldM (fun paths agent =>
           let agentContent := generateAgentFile now agent (m_id manifest) in
           let agentFilePath := AgentFileP (agent_id agent ++ lit ".md") in
           fileSystem.writeFile agentFilePath agentContent true ;;
           ret (paths ++ [agentFilePath]))
        (m_agents manifest) [].

(** [inject]; [now] is the clock reading of [new Date().toISOString()]. *)
Definition inject (now : jstring) (manifest : Manifest) (options : InjectOptions)
  : M FS InjectionResult :=
  tryCatch
    (createDirectories ;;
     checkNotInjected manifest options ;;
     backupCreated <- backupExistingAgents manifest options ;;
     removeExistingAgents manifest options ;;
     agentFilePaths <- createAgentFiles now manifest ;;
     (* 6. Create or update CLAUDE.md with workflow info *)
     updateClaudeMd now instructionsPath manifest options ;;
     (* 7. Return injection result *)
     ret (mkInjectionResult claude instructionsPath agentFilePaths
            (length (m_agents manifest)) backupCreated None))
    (rethrow (lit "Failed to inject workflow into Claude configuration: ")).

(** [eject], step 1: remove the BTW agent files (of the given workflow, or
    all), each with its backup, then the agents directory once it is empty. *)
Definition ejectOne (agentFile : path) : M FS unit :=
  fileSystem.remove agentFile false ;;
  (* Also remove backup if exists *)
  let backupFile := path_append agentFile (lit ".btw-backup") in
  hasBackupFile <- fileSystem.exists_ backupFile ;;
  when hasBackupFile (fileSystem.remove backupFile false).

Definition removeAgentsDirIfEmpty : M FS unit :=
  tryCatch
    (remainingFiles <- fileSystem.readdir agentsPath ;;
     when (length remainingFiles =? 0) (fileSystem.remove agentsPath true))
    (fun _ => ret tt).

Definition removeAgentFiles (options : EjectOptions) : M FS unit :=
  btwAgents <-
    (match workflowId options with
     | Some id =>
         if truthy id then findBtwAgentsForWorkflow agentsPath id
         else findBtwAgents agentsPath
     | None => findBtwAgents agentsPath
     end) ;;
  forEach btwAgents ejectOne ;;
  removeAgentsDirIfEmpty.

(** [shouldCleanClaudeMd]: only when ejecting all workflows or when the
    marker of the given workflow is in [CLAUDE.md]. *)
Definition shouldCleanClaudeMd (options : EjectOptions) (content : jstring) : bool :=
  match workflowId options with
  | Some id => negb (truthy id) || includes (lit "BTW:" ++ id ++ lit ":") content
  | None => true
  end.

(** [eject], step 2: clean the BTW content from [CLAUDE.md]. *)
Definition cleanClaudeMd (options : EjectOptions) : M FS unit :=
  instructionsExist <- fileSystem.exists_ instructionsPath ;;
  when instructionsExist
    (content <- fileSystem.readFile instructionsPath ;;
     when (shouldCleanClaudeMd options content)
       (let cleanedContent := removeBtwContent content in
        if truthy (trim cleanedContent)
        then fileSystem.writeFile instructionsPath (trim cleanedContent ++ [LF]) false
        else fileSystem.remove instructionsPath false)).

(** [eject], step 3: with [clean], remove [.claude] when it is empty. *)
Definition removeClaudeDirIfEmpty : M FS unit :=
  tryCatch
    (claudeContents <- fileSystem.readdir claudeDir ;;
     when (length claudeContents =? 0) (fileSystem.remove claudeDir true))
    (fun _ => ret tt).

(** [eject] *)
Definition eject (options : EjectOptions) : M FS unit :=
  tryCatch
    (removeAgentFiles options ;;
     cleanClaudeMd options ;;
     when (clean options) removeClaudeDirIfEmpty)
    (rethrow (lit "Failed to eject workflow from Claude configuration: ")).

(** The loop of [getStatus] that looks for a backup and breaks at the
    first one. *)
Fixpoint anyBackup (btwAgents : list path) : M FS bool :=
  match btwAgents with
  | [] => ret false
  | agentFile :: rest =>
      found <- fileSystem.exists_ (path_append agentFile (lit ".btw-backup")) ;;
      if found then ret true else anyBackup rest
  end.

(** [workflowId || undefined] *)
Definition orUndefined (o : option jstring) : option jstring :=
  if truthyOpt o then o else None.

(** [getStatus] *)
Definition getStatus : M FS InjectionStatus :=
  tryCatch
    (btwAgents <- findBtwAgents agentsPath ;;
     if length btwAgents =? 0 then ret notInjected
     else
       workflowId <- getWorkflowIdFromAgents agentsPath ;;
       hasBackup <- anyBackup btwAgents ;;
       ret (mkStatus true (orUndefined workflowId) hasBackup))
    (fun _ => ret notInjected).

End ClaudeStrategy.

(* ================================================================== *)
(** * The interactive mode of the [inject] command *)
(* ================================================================== *)

(** The [{ success, data, error }] value the engine and the workflow
    manager answer with. *)
Record Result (A : Type) := mkResult {
  success : bool;
  data : option A;
  error : option jstring
}.
Arguments mkResult {A} success data error.
Arguments success {A} r.
Arguments data {A} r.
Arguments error {A} r.

Definition succeeded {A} (a : A) : Result A := mkResult true (Some a) None.
Definition failed {A} (message : jstring) : Result A := mkResult false None (Some message).

Record ListItem := mkListItem {
  item_id : jstring;
  label : jstring;
  description : jstring;
  isActive : bool;
  meta : Manifest
}.

Inductive Action := toggle | cancel.

Record SelectionResult := mkSelection {
  sel_id : option jstring;
  action : Action
}.

(** [InjectCommandOptions]; [force] and [merge] may be left out. *)
Record InjectCommandOptions := mkCommandOptions {
  cmd_target : AITarget;
  cmd_backup : bool;
  cmd_force : option bool;
  cmd_merge : option bool
}.

(** [x ?? false] *)
Definition orFalse (o : option bool) : bool :=
  match o with Some b => b | None => false end.

(** [result.error || fallback] *)
Definition errorOr {A} (r : Result A) (fallback : jstring) : jstring :=
  if truthyOpt (error r)
  then match error r with Some e => e | None => fallback end
  else fallback.

(** What the command reaches through its imports: the injection engine,
    the workflow manager and the enumeration of the installed workflows
    whose manifest parses. *)
Record Collaborators (S : Type) := mkCollaborators {
  engine_inject : Manifest -> AITarget -> InjectOptions -> M S (Result InjectionResult);
  engine_eject : AITarget -> EjectOptions -> M S (Result unit);
  engine_getStatus : AITarget -> M S InjectionStatus;
  workflowManager_get : jstring -> M S (Result Manifest);
  installedManifests : M S (list Manifest)
}.

Arguments mkCollaborators {S}.
Arguments engine_inject {S} c.
Arguments engine_eject {S} c.
Arguments engine_getStatus {S} c.
Arguments workflowManager_get {S} c.
Arguments installedManifests {S} c.

Section Interactive.

Variable S : Type.
Variable env : Collaborators S.

(** [getAllWorkflowsWithStatus] *)
Definition getAllWorkflowsWithStatus (target : AITarget) : M S (list ListItem) :=
  manifests <- installedManifests env ;;
  foldM (fun items manifest =>
           if negb (existsb (AITarget_eqb target) (m_targets manifest)) then ret items
           else tryCatch
                  (status <- engine_getStatus env target ;;
                   let isInjected :=
                     isInjected status &&
                     match status_workflowId status with
                     | Some id => JS.eqb id (m_id manifest)
                     | None => false
                     end in
                   ret (items ++ [mkListItem (m_id manifest) (m_name manifest)
                                    (m_description manifest) isInjected manifest]))
                  (fun _ => ret items))
        manifests [].

(** The toggle callback of [executeInteractive]. *)
Definition onToggle (options : InjectCommandOptions) (workflowId : jstring)
    (currentlyActive : bool) : M S unit :=
  let target := cmd_target options in
  if currentlyActive then
    (* Eject the workflow *)
    result <- engine_eject env target (mkEjectOptions None false) ;;
    if negb (success result)
    then throw (PlainError (errorOr result (lit "Failed to remove workflow")))
    else ret tt
  else
    (* Inject the workflow *)
    workflowResult <- workflowManager_get env workflowId ;;
    match (if success workflowResult then data workflowResult else None) with
    | None =>
        throw (PlainError (errorOr workflowResult
                 (lit "Workflow '" ++ workflowId ++ lit "' not found")))
    | Some manifest =>
        result <- engine_inject env manifest target
                    (mkInjectOptions (cmd_backup options) true
                                     (orFalse (cmd_merge options))) ;;
        if negb (success result)
        then throw (PlainError (errorOr result (lit "Failed to inject workflow")))
        else ret tt
    end.

(** [runInteractiveSelector], over the selections [list.run()] resolves to,
    one per round. An error of the callback is shown and the loop goes on. *)
Fixpoint selectorLoop (getItems : M S (list ListItem))
    (toggleItem : jstring -> bool -> M S unit)
    (selections : list SelectionResult) (items : list ListItem) : M S unit :=
  match selections with
  | [] => ret tt
  | result :: later =>
      match action result, sel_id result with
      | cancel, _ | _, None => ret tt
      | toggle, Some id =>
          match find (fun i => JS.eqb (item_id i) id) items with
          | Some item =>
              tryCatch (toggleItem id (isActive item)) (fun _ => ret tt)
          | None => ret tt
          end ;;
          items' <- getItems ;;
          selectorLoop getItems toggleItem later items'
      end
  end.

Definition runInteractiveSelector (getItems : M S (list ListItem))
    (toggleItem : jstring -> bool -> M S unit)
    (selections : list SelectionResult) : M S unit :=
  items <- getItems ;;
  selectorLoop getItems toggleItem selections items.

(** [executeInteractive], for a valid and supported target. *)
Definition executeInteractive (options : InjectCommandOptions)
    (selections : list SelectionResult) : M S unit :=
  runInteractiveSelector
    (getAllWorkflowsWithStatus (cmd_target options))
    (onToggle options)
    selections.

End Interactive.

Arguments getAllWorkflowsWithStatus {S} env target.
Arguments onToggle {S} env options workflowId currentlyActive.
Arguments selectorLoop {S} getItems toggleItem selections items.
Arguments runInteractiveSelector {S} getItems toggleItem selections.
Arguments executeInteractive {S} env options selections.

(* ------------------------------------------------------------------ *)
(** ** The injection engine over the filesystem *)

Module InjectionEngine.

(** Modelled from the spec: [core/injection/InjectionEngine.ts] is not part
    of the sources at hand. The engine is a fixed mapping from target to
    strategy; [inject], [eject] and [getStatus] delegate to the strategy
    registered for the target and report a failure as a result, not as an
    exception. The Claude strategy is the one registered here. *)
Definition isTargetSupported (target : AITarget) : bool :=
  AITarget_eqb target claude.

Definition capture {A} (m : M FS A) : M FS (Result A) :=
  fun fs => match m fs with
            | (Ok a, fs') => (Ok (succeeded a), fs')
            | (Throw e, fs') => (Ok (failed (exn_message e)), fs')
            end.

Definition unsupported {A} : M FS (Result A) :=
  ret (failed (lit "Target is not supported")).

Definition inject (now : jstring) (manifest : Manifest) (target : AITarget)
    (options : InjectOptions) : M FS (Result InjectionResult) :=
  if isTargetSupported target
  then capture (ClaudeStrategy.inject now manifest options)
  else unsupported.

Definition eject (target : AITarget) (options : EjectOptions) : M FS (Result unit) :=
  if isTargetSupported target
  then capture (ClaudeStrategy.eject options)
  else unsupported.

Definition getStatus (target : AITarget) : M FS InjectionStatus :=
  if isTargetSupported target
  then ClaudeStrategy.getStatus
  else ret ClaudeStrategy.notInjected.

End InjectionEngine.

(** The collaborators of a run over the filesystem: the engine above, and
    the installed workflows as a fixed list, looked up by id. *)
Definition fsCollaborators (now : jstring) (installed : list Manifest)
  : Collaborators FS :=
  mkCollaborators
    (InjectionEngine.inject now)
    InjectionEngine.eject
    InjectionEngine.getStatus
    (fun id => ret (match find (fun m => JS.eqb (m_id m) id) installed with
                    | Some m => succeeded m
                    | None => failed (lit "Workflow not found")
                    end))
    (ret installed).

(** The collaborators of a run that only records the engine calls, the way
    a test double does; each call answers [answer]. *)
Inductive EngineCall :=
| CallInject (manifest : Manifest) (target : AITarget) (options : InjectOptions)
| CallEject (target : AITarget) (options : EjectOptions)
| CallGetStatus (target : AITarget).

Definition record {A} (call : EngineCall) (answer : A) : M (list EngineCall) A :=
  fun log => (Ok answer, log ++ [call]).

Definition recordingCollaborators
    (injectAnswer : Result InjectionResult) (ejectAnswer : Result unit)
    (statusAnswer : InjectionStatus)
    (lookupAnswer : jstring -> Result Manifest) (installed : list Manifest)
  : Collaborators (list EngineCall) :=
  mkCollaborators
    (fun manifest target options => record (CallInject manifest target options) injectAnswer)
    (fun target options => record (CallEject target options) ejectAnswer)
    (fun target => record (CallGetStatus target) statusAnswer)
    (fun id => ret (lookupAnswer id))
    (ret installed).

(* ================================================================== *)
(** * Notions the properties are stated with *)
(* ================================================================== *)

(** ** Occurrences and regions *)

(** [p] occurs in [s] at index [i]. *)
Definition occursAt (p : jstring) (i : nat) (s : jstring) : Prop :=
  startsWith p (skipn i s) = true /\ i <= length s.

(** The region [removeBtwContent] cuts out: the first index of the start
    sentinel and the first index of the end sentinel in the whole document,
    when the second is greater. *)
Definition locate (content : jstring) : option (nat * nat) :=
  match indexOf ClaudeStrategy.BTW_START_MARKER content,
        indexOf ClaudeStrategy.BTW_END_MARKER content with
  | Some startIndex, Some endIndex =>
      if startIndex <? endIndex then Some (startIndex, endIndex) else None
  | _, _ => None
  end.

(** The location in the words of the specification: the first index of the
    start sentinel and the first index of the end sentinel found after it. *)
Definition locate_spec (content : jstring) : option (nat * nat) :=
  match indexOf ClaudeStrategy.BTW_START_MARKER content with
  | Some startIndex =>
      match indexOfFrom ClaudeStrategy.BTW_END_MARKER startIndex content with
      | Some endIndex =>
          if startIndex <? endIndex then Some (startIndex, endIndex) else None
      | None => None
      end
  | None => None
  end.

(** The merge in the words of the specification: the spanned substring is
    replaced by the new region, the text around it stays where it is. *)
Definition replaceRegion (content newRegion : jstring) (startIndex endIndex : nat)
  : jstring :=
  firstn startIndex content ++ newRegion
  ++ skipn (endIndex + length ClaudeStrategy.BTW_END_MARKER) content.

(** The text around a region, put together and trimmed. *)
Definition aroundRegion (content : jstring) (startIndex endIndex : nat) : jstring :=
  trim (firstn startIndex content
        ++ skipn (endIndex + length ClaudeStrategy.BTW_END_MARKER) content).

(** The clause under which the round trip holds: the end sentinel occurs in
    the generated region at its very end and nowhere before. *)
Definition closedOnlyAtEnd (region : jstring) : Prop :=
  indexOf ClaudeStrategy.BTW_END_MARKER region
  = Some (length region - length ClaudeStrategy.BTW_END_MARKER).

(** ** The agents directory and its scans *)

(** The listing of the agents directory, empty when there is none. *)
Definition listing (fs : FS) : dir :=
  match agents fs with Some d => d | None => [] end.

(** The entry of the agents directory under a name. *)
Definition agentFile (fs : FS) (name : jstring) : option node :=
  match agents fs with Some d => lookup name d | None => None end.

Definition fileInfos (d : dir) : list FileInfo :=
  map (fun e => mkFileInfo (fst e) (AgentFileP (fst e))) d.

Definition backupName (name : jstring) : jstring := name ++ lit ".btw-backup".

(** The owner an artifact names: the value of its first [# workflow:]
    marker, trimmed. *)
Definition ownerOf (content : jstring) : option jstring :=
  option_map trim (ClaudeStrategy.matchWorkflow content).

(** What a scan keeps of the listing [d]: the names that pass the file-name
    test and whose readable content passes [test]. *)
Definition keeps (test : jstring -> bool) (d : dir) (name : jstring) : bool :=
  negb (ClaudeStrategy.skipped name) &&
  match lookup name d with
  | Some (File c) => test c
  | _ => false
  end.

Definition selectedNames (test : jstring -> bool) (d : dir) : list jstring :=
  filter (keeps test d) (map fst d).

(** The ids a scan of the listing collects, in listing order. *)
Fixpoint collectIds (d : dir) (names : list jstring) (ids : list jstring)
  : list jstring :=
  match names with
  | [] => ids
  | n :: rest =>
      collectIds d rest
        (if ClaudeStrategy.skipped n then ids
         else match lookup n d with
              | Some (File c) =>
                  match ownerOf c with
                  | Some id => ClaudeStrategy.setAdd id ids
                  | None => ids
                  end
              | _ => ids
              end)
  end.

(** The status as a function of the agents directory alone. *)
Definition statusOf (o : option dir) : InjectionStatus :=
  match o with
  | None => ClaudeStrategy.notInjected
  | Some d =>
      match selectedNames ClaudeStrategy.isBtwContent d with
      | [] => ClaudeStrategy.notInjected
      | names =>
          mkStatus true
            (ClaudeStrategy.orUndefined
               (match collectIds d (map fst d) [] with
                | id :: _ => Some id
                | [] => None
                end))
            (existsb (fun n => isSome (lookup (backupName n) d)) names)
      end
  end.

(** ** What [eject] removes *)

(** The test [eject] selects the artifacts with: the marker of the workflow
    when a (non-empty) workflow id is given, any BTW marker otherwise. *)
Definition ejectTest (options : EjectOptions) : jstring -> bool :=
  match workflowId options with
  | Some id =>
      if truthy id then ClaudeStrategy.belongsTo id else ClaudeStrategy.isBtwContent
  | None => ClaudeStrategy.isBtwContent
  end.

(** The names of the artifacts [eject] selects in the listing [d]. *)
Definition ejectedNames (options : EjectOptions) (d : dir) : list jstring :=
  selectedNames (ejectTest options) d.

(** The listing once the files of [names] and their backups are removed. *)
Definition sweep (names : list jstring) (d : dir) : dir :=
  fold_left (fun d' n => unlink (backupName n) (unlink n d')) names d.

(** A directory that has become empty is removed. *)
Definition emptied (o : option dir) : option dir :=
  match o with
  | Some [] => None
  | _ => o
  end.

(** ** Invariants of a computation *)

(** A computation that leaves [CLAUDE.md] as it finds it, whatever its
    outcome. *)
Definition sparesDocument {A} (m : M FS A) : Prop :=
  forall fs, claudeMd (snd (m fs)) = claudeMd fs.

(** A computation that maintains an invariant of the state, whatever its
    outcome. *)
Definition maintains {S A} (I : S -> Prop) (m : M S A) : Prop :=
  forall s, I s -> I (snd (m s)).

(** ** The calls of the interactive mode *)

(** The options every [inject] call of the interactive mode carries: the
    caller's [backup] and [merge], and [force] set. *)
Definition toggleOptions (options : InjectCommandOptions) : InjectOptions :=
  mkInjectOptions (cmd_backup options) true (orFalse (cmd_merge options)).

Definition forcedInject (options : InjectCommandOptions) (call : EngineCall) : Prop :=
  match call with
  | CallInject _ target o => target = cmd_target options /\ o = toggleOptions options
  | _ => True
  end.

Definition isStatusCall (call : EngineCall) : Prop :=
  match call with CallGetStatus _ => True | _ => False end.

(** The manifest a lookup of the workflow manager gives, if any. *)
Definition found (r : Result Manifest) : option Manifest :=
  if success r then data r else None.

(** The selection [list.run()] resolves to when an item is toggled. *)
Definition pick (id : jstring) : SelectionResult := mkSelection (Some id) toggle.

(** ** Scenarios *)

(** The manifests, the clock reading and the projects of the scenarios. *)
Module Scenario.

Definition now : jstring := lit "2024-01-01T00:00:00.000Z".

Definition demo : Manifest :=
  mkManifest (lit "demo") (lit "Demo") (lit "d") (lit "1.0") [claude]
    [mkAgent (lit "writer") (lit "Writer") (lit "d") (lit "p") None]
    None None.

Definition other : Manifest :=
  mkManifest (lit "other") (lit "Other") (lit "o") (lit "1.0") [claude]
    [mkAgent (lit "reader") (lit "Reader") (lit "o") (lit "q") None]
    None None.

(** A manifest whose description holds the text of the end sentinel. *)
Definition sentinelInside : Manifest :=
  mkManifest (lit "demo") (lit "Demo") (lit "<!-- BTW_END -->x") (lit "1.0") [claude]
    [mkAgent (lit "writer") (lit "Writer") (lit "d") (lit "p") None]
    None None.

Definition emptyProject : FS := mkFS None None.

Definition plain : InjectOptions := mkInjectOptions false false false.
Definition merging : InjectOptions := mkInjectOptions false false true.
Definition forcing : InjectOptions := mkInjectOptions false true false.

(** The command line of the interactive scenarios: target [claude], no
    [--force]. *)
Definition unforced : InjectCommandOptions :=
  mkCommandOptions claude false (Some false) None.

Definition writerFile : jstring :=
  ClaudeStrategy.generateAgentFile now
    (mkAgent (lit "writer") (lit "Writer") (lit "d") (lit "p") None) (lit "demo").

Definition readerFile : jstring :=
  ClaudeStrategy.generateAgentFile now
    (mkAgent (lit "reader") (lit "Reader") (lit "o") (lit "q") None) (lit "other").

(** Scenario A: [demo] injected into an empty project. *)
Definition afterDemo : FS :=
  snd (ClaudeStrategy.inject now demo plain emptyProject).

(** Scenario C: [other] injected after [demo]. *)
Definition afterBoth : FS :=
  snd (ClaudeStrategy.inject now other plain afterDemo).

(** A project in which one artifact cannot be read and another one carries
    the marker of [demo]. *)
Definition oneUnreadable : FS :=
  mkFS (Some (mkClaudeTree
                (Some [ (lit "bad.md", Unreadable);
                        (lit "good.md", File (lit "# workflow: demo")) ])
                []))
       None.

End Scenario.

(** The shared documents of the examples. *)
Module Documents.

Import ClaudeStrategy.

(** User text around a well-formed region. *)
Definition around : jstring :=
  lit "A" ++ BTW_START_MARKER ++ lit "x" ++ BTW_END_MARKER ++ lit "B".

(** A stray end sentinel before a well-formed region. *)
Definition strayEnd : jstring :=
  BTW_END_MARKER ++ BTW_START_MARKER ++ lit "x" ++ BTW_END_MARKER.

(** A start sentinel that is never closed. *)
Definition unclosed : jstring := lit "A" ++ BTW_START_MARKER.

(** A project with nothing but the shared document. *)
Definition holding (content : jstring) : FS := mkFS None (Some (File content)).

Definition newRegion : jstring := generateInstructions Scenario.now Scenario.demo.

End Documents.

(** Two agents of the workflow [demo] that differ in description and
    prompt: the description of the first ends with a backslash, the
    description of the second goes on, after a double quote, with the text
    that closes a header. *)
Module Collision.

Definition headerRest : jstring :=
  [LF] ++ lit "# BTW metadata" ++ [LF] ++ lit "# workflow: demo" ++ [LF]
  ++ lit "# injected: " ++ Scenario.now ++ [LF] ++ lit "---" ++ [LF] ++ [LF].

Definition slashAgent : AgentDefinition :=
  mkAgent (lit "a") (lit "A")
    (lit "x:" ++ [BACKSLASH])
    (lit "q" ++ [DQUOTE] ++ headerRest ++ lit "p")
    None.

Definition quoteAgent : AgentDefinition :=
  mkAgent (lit "a") (lit "A")
    (lit "x:" ++ [DQUOTE] ++ headerRest ++ lit "q")
    (lit "p")
    None.

End Collision.

(** ** The files [inject] writes *)

(** The name of the file of an agent in the agents directory. *)
Definition agentFileName (agent : AgentDefinition) : jstring :=
  agent_id agent ++ lit ".md".

(** ** The listing and the rounds of the interactive mode *)

(** [manifest.targets.includes(target)] *)
Definition supportsTarget (target : AITarget) (manifest : Manifest) : bool :=
  existsb (AITarget_eqb target) (m_targets manifest).

(** An engine call that changes the project: an [inject] or an [eject]. *)
Definition isMutation (call : EngineCall) : bool :=
  match call with CallGetStatus _ => false | _ => true end.

(** A selection that asks for a toggle; any other one ends the loop. *)
Definition isToggle (result : SelectionResult) : bool :=
  match action result, sel_id result with
  | toggle, Some _ => true
  | _, _ => false
  end.

(** The number of rounds the loop plays on a run of selections: the
    toggles before the first selection that ends it. *)
Fixpoint rounds (selections : list SelectionResult) : nat :=
  match selections with
  | [] => 0
  | result :: later => if isToggle result then S (rounds later) else 0
  end.

(* ================================================================== *)
(** * The commands and the list of the terminal *)
(* ================================================================== *)

(** ** The [inject] command without [--interactive] *)

(** Modelled from the spec: [validateManifestForTarget] is a method of the
    engine, whose file is not part of the sources at hand; it is true iff
    the target is in the manifest's declared target set. *)
Definition validateManifestForTarget (manifest : Manifest) (target : AITarget)
  : bool :=
  existsb (AITarget_eqb target) (m_targets manifest).

(** The options [executeInject] passes to the engine: the caller's
    [backup], and [force] and [merge] as given, [false] when left out. *)
Definition commandOptions (options : InjectCommandOptions) : InjectOptions :=
  mkInjectOptions (cmd_backup options) (orFalse (cmd_force options))
                  (orFalse (cmd_merge options)).

(** [executeInject], for a valid target. The answer is the
    [process.exitCode] the command sets, [None] when it sets none; the
    lines it prints are left out. *)
Definition executeInject {S} (env : Collaborators S) (workflowId : jstring)
    (options : InjectCommandOptions) : M S (option nat) :=
  let target := cmd_target options in
  (* Check if target is supported *)
  if negb (InjectionEngine.isTargetSupported target) then ret (Some 1)
  else
    tryCatch
      ((* Get workflow details *)
       workflowResult <- workflowManager_get env workflowId ;;
       match (if success workflowResult then data workflowResult else None) with
       | None => ret (Some 1)
       | Some manifest =>
           (* Check if manifest supports target *)
           if negb (validateManifestForTarget manifest target) then ret (Some 1)
           else
             (* Perform injection *)
             result <- engine_inject env manifest target
                         (mkInjectOptions (cmd_backup options)
                                          (orFalse (cmd_force options))
                                          (orFalse (cmd_merge options))) ;;
             if success result && isSome (data result)
             then ret None
             else ret (Some 1)
       end)
      (fun _ => ret (Some 1)).

(* ------------------------------------------------------------------ *)
(** ** The list of the interactive mode ([cli/utils/interactive.ts]) *)

Module InteractiveList.

(** The fields of [InteractiveList] that its handlers read and write: the
    items and the cursor. The cursor is a JavaScript number; [%] is the
    remainder that takes the sign of the dividend, [Z.rem]. What [render]
    prints is left out. *)
Record state := mkState {
  items : list ListItem;
  selectedIndex : Z
}.

(** [new InteractiveList(items, options)] *)
Definition create (items : list ListItem) : state := mkState items 0.

(** [this.items.length] *)
Definition count (st : state) : Z := Z.of_nat (length (items st)).

(** [moveUp] *)
Definition moveUp (st : state) : state :=
  if (count st =? 0)%Z then st
  else mkState (items st) (Z.rem (selectedIndex st - 1 + count st) (count st)).

(** [moveDown] *)
Definition moveDown (st : state) : state :=
  if (count st =? 0)%Z then st
  else mkState (items st) (Z.rem (selectedIndex st + 1) (count st)).

(** [this.items[this.selectedIndex]], [None] for [undefined]. *)
Definition itemAt (st : state) : option ListItem :=
  if (selectedIndex st <? 0)%Z then None
  else nth_error (items st) (Z.to_nat (selectedIndex st)).

(** What a handler does to a pending [run()]: the list goes on listening,
    the promise is resolved, or the handler dies of a [TypeError]. *)
Inductive event :=
| Stay (st : state)
| Resolve (result : SelectionResult)
| Crash.

Definition cancelled : SelectionResult := mkSelection None cancel.

(** [select]; reading [.id] of [undefined] is the [TypeError]. *)
Definition select (st : state) : event :=
  if (count st =? 0)%Z then Resolve cancelled
  else match itemAt st with
       | Some selectedItem => Resolve (mkSelection (Some (item_id selectedItem)) toggle)
       | None => Crash
       end.

(** [key[i] === b] on a [Buffer]; out of range the index gives
    [undefined]. *)
Definition byteIs (key : list N) (i : nat) (b : N) : bool :=
  match nth_error key i with
  | Some x => N.eqb x b
  | None => false
  end.

(** [key.toString() === c] for an ASCII character [c]: the UTF-8 decoding
    of a buffer is that one character exactly when the buffer is that one
    byte. *)
Definition keyStrIs (key : list N) (c : N) : bool :=
  match key with
  | [x] => N.eqb x c
  | _ => false
  end.

(** [handleKeypress] *)
Definition handleKeypress (key : list N) (st : state) : event :=
  if byteIs key 0 27 then
    (* Escape sequence *)
    if byteIs key 1 91 then
      (* Arrow keys *)
      if byteIs key 2 65 then Stay (moveUp st)
      else if byteIs key 2 66 then Stay (moveDown st)
      else Stay st
    else Resolve cancelled
  else if keyStrIs key 13 || keyStrIs key 10 then select st
  else if keyStrIs key 113 || keyStrIs key 81 then Resolve cancelled
  else if keyStrIs key 106 then Stay (moveDown st)
  else if keyStrIs key 107 then Stay (moveUp st)
  else Stay st.

(** The [data] listener [run()] installs; the [SIGINT] listener of the
    readline interface cancels the way the byte 3 does here. *)
Definition onData (key : list N) (st : state) : event :=
  if byteIs key 0 3 then Resolve cancelled
  else handleKeypress key st.

(** [updateItems] *)
Definition updateItems (newItems : list ListItem) (st : state) : state :=
  mkState newItems
    (if (Z.of_nat (length newItems) <=? selectedIndex st)%Z
     then Z.max 0 (Z.of_nat (length newItems) - 1)
     else selectedIndex st).

(** The cursor is on an item, or at 0 when there is none. *)
Definition onItem (st : state) : Prop :=
  (0 <= selectedIndex st < Z.max 1 (count st))%Z.

End InteractiveList.

(** [runInteractiveSelector] over the key presses of a terminal, one
    buffer per [data] event, each arriving while a [run()] of the list is
    listening. When the keys run out, the pending [run()] never resolves
    and nothing more happens. A [TypeError] in a listener is an exception
    nothing catches. *)
Fixpoint keySession {S} (getItems : M S (list ListItem))
    (toggleItem : jstring -> bool -> M S unit)
    (keys : list (list N)) (list : InteractiveList.state) : M S unit :=
  match keys with
  | [] => ret tt
  | key :: later =>
      match InteractiveList.onData key list with
      | InteractiveList.Stay list' => keySession getItems toggleItem later list'
      | InteractiveList.Crash => throw (PlainError (lit "TypeError"))
      | InteractiveList.Resolve result =>
          match action result, sel_id result with
          | cancel, _ | _, None => ret tt
          | toggle, Some id =>
              match find (fun i => JS.eqb (item_id i) id)
                         (InteractiveList.items list) with
              | Some item =>
                  tryCatch (toggleItem id (isActive item)) (fun _ => ret tt)
              | None => ret tt
              end ;;
              items' <- getItems ;;
              keySession getItems toggleItem later
                (InteractiveList.updateItems items' list)
          end
      end
  end.

(** [runInteractiveSelector] from its first line; without a TTY the first
    [run()] resolves to a cancellation at once. *)
Definition runFromKeys {S} (isTTY : bool) (getItems : M S (list ListItem))
    (toggleItem : jstring -> bool -> M S unit) (keys : list (list N)) : M S unit :=
  items <- getItems ;;
  if isTTY
  then keySession getItems toggleItem keys (InteractiveList.create items)
  else ret tt.

(** The list of the examples: two workflows shown as available, the cursor
    on the second one. *)
Module Screens.

Definition shown (manifest : Manifest) : ListItem :=
  mkListItem (m_id manifest) (m_name manifest) (m_description manifest)
             false manifest.

Definition onSecond : InteractiveList.state :=
  InteractiveList.mkState [shown Scenario.demo; shown Scenario.other] 1.

End Screens.

(* ------------------------------------------------------------------ *)
(** ** The [update] command ([cli/commands/update.ts]) *)

(** The data of a successful update, as the command reads it. *)
Record WorkflowUpdate := mkWorkflowUpdate {
  upd_version : jstring;
  contentHash : option jstring
}.

(** What the command reaches of the workflow manager: [list], of whose
    entries only [state.workflowId] is read, and [update]. *)
Record UpdateCollaborators (S : Type) := mkUpdateCollaborators {
  workflowManager_list : M S (Result (list jstring));
  workflowManager_update : jstring -> M S (Result WorkflowUpdate)
}.

Arguments mkUpdateCollaborators {S}.
Arguments workflowManager_list {S} u.
Arguments workflowManager_update {S} u.

(** The counters of [updateAllWorkflows]. *)
Record UpdateCounts := mkCounts {
  successCount : nat;
  failCount : nat;
  skipCount : nat
}.

(** [result.error?.includes('local path')] *)
Definition isLocalWorkflow {A} (result : Result A) : bool :=
  match error result with
  | Some e => includes (lit "local path") e
  | None => false
  end.

(** One round of the loop of [updateAllWorkflows]. *)
Definition updateOne {S} (env : UpdateCollaborators S) (counts : UpdateCounts)
    (workflowId : jstring) : M S UpdateCounts :=
  tryCatch
    (result <- workflowManager_update env workflowId ;;
     if success result && isSome (data result)
     then ret (mkCounts (successCount counts + 1) (failCount counts)
                        (skipCount counts))
     else if isLocalWorkflow result
     then ret (mkCounts (successCount counts) (failCount counts)
                        (skipCount counts + 1))
     else ret (mkCounts (successCount counts) (failCount counts + 1)
                        (skipCount counts)))
    (fun _ => ret (mkCounts (successCount counts) (failCount counts + 1)
                            (skipCount counts))).

(** The loop of [updateAllWorkflows], from its counters at zero. *)
Definition updateLoop {S} (env : UpdateCollaborators S)
    (workflows : list jstring) : M S UpdateCounts :=
  foldM (updateOne env) workflows (mkCounts 0 0 0).

(** [updateAllWorkflows]. The answer is the [process.exitCode] it sets,
    [None] when it sets none; the lines it prints are left out. *)
Definition updateAllWorkflows {S} (env : UpdateCollaborators S)
  : M S (option nat) :=
  listResult <- workflowManager_list env ;;
  match (if success listResult then data listResult else None) with
  | None => ret (Some 1)
  | Some workflows =>
      if length workflows =? 0 then ret None
      else
        counts <- updateLoop env workflows ;;
        if 0 <? failCount counts then ret (Some 1) else ret None
  end.

(** [updateSingleWorkflow]; its handler stops the spinner and throws the
    error again. *)
Definition updateSingleWorkflow {S} (env : UpdateCollaborators S)
    (workflowId : jstring) : M S (option nat) :=
  tryCatch
    (result <- workflowManager_update env workflowId ;;
     if success result && isSome (data result) then ret None else ret (Some 1))
    (fun error => throw error).

(** [executeUpdate]; [all] is the [--all] flag, [workflowId] the optional
    argument. *)
Definition executeUpdate {S} (env : UpdateCollaborators S)
    (workflowId : option jstring) (all : option bool) : M S (option nat) :=
  tryCatch
    (* If --all flag or no workflow ID specified, update all workflows *)
    (match workflowId with
     | Some id =>
         if orFalse all || negb (truthy id) then updateAllWorkflows env
         else updateSingleWorkflow env id
     | None => updateAllWorkflows env
     end)
    (fun _ => ret (Some 1)).

(** An update that counts as a failure: neither a success with data nor a
    refusal that names a local path. *)
Definition isFailedUpdate (result : Result WorkflowUpdate) : bool :=
  negb (success result && isSome (data result)) && negb (isLocalWorkflow result).

(** A workflow manager without state: it lists [ids] and answers the
    update of [id] with [answer id]. *)
Definition answering (ids : list jstring)
    (answer : jstring -> Result WorkflowUpdate) : UpdateCollaborators unit :=
  mkUpdateCollaborators (ret (succeeded ids)) (fun id => ret (answer id)).

(** A workflow manager that records the ids whose update is asked for. *)
Definition recordingUpdates (ids : list jstring)
    (answer : jstring -> Result WorkflowUpdate)
  : UpdateCollaborators (list jstring) :=
  mkUpdateCollaborators
    (ret (succeeded ids))
    (fun id => fun log => (Ok (answer id), log ++ [id])).

(* ================================================================== *)
(** * Further notions *)
(* ================================================================== *)

(** ** Agents and ids that cannot be taken for a marker *)

(** The text holds no [#]. *)
Definition hashFree (s : jstring) : bool := negb (existsb (N.eqb 35) s).

(** No field that [generateAgentFile] writes above the metadata lines holds
    a [#]. *)
Definition plainHeader (agent : AgentDefinition) : bool :=
  hashFree (agent_id agent) && hashFree (agent_description agent)
  && match agent_model agent with Some m => hashFree m | None => true end.

(** A workflow id that is not empty, stands on one line and has no blank
    at either end. *)
Definition plainId (id : jstring) : bool :=
  truthy id && negb (existsb isLineTerminator id) && JS.eqb (trim id) id.

(* ================================================================== *)
(** * Facts about the string operations *)
(* ================================================================== *)

Section StringFacts.

Lemma eqb_eq (a b : jstring) : JS.eqb a b = true <-> a = b.
Proof.
  revert b; induction a as [|x a IH]; intros [|y b]; simpl; split;
    try congruence; try reflexivity.
  - intros H. apply andb_true_iff in H as [Hx Hr].
    apply N.eqb_eq in Hx. apply IH in Hr. congruence.
  - intros H. injection H as -> ->.
    rewrite N.eqb_refl. simpl. now apply IH.
Qed.

Lemma eqb_refl (a : jstring) : JS.eqb a a = true.
Proof. now apply eqb_eq. Qed.

Lemma eqb_neq (a b : jstring) : JS.eqb a b = false <-> a <> b.
Proof.
  split.
  - intros H E. apply eqb_eq in E. congruence.
  - intros H. destruct (JS.eqb a b) eqn:E; [|reflexivity].
    apply eqb_eq in E. contradiction.
Qed.

Lemma eqb_sym (a b : jstring) : JS.eqb a b = JS.eqb b a.
Proof.
  destruct (JS.eqb a b) eqn:E.
  - apply eqb_eq in E. subst. symmetry. apply eqb_refl.
  - symmetry. apply eqb_neq. apply eqb_neq in E. congruence.
Qed.

Lemma startsWith_iff (p s : jstring) :
  startsWith p s = true <-> exists r, s = p ++ r.
Proof.
  revert s; induction p as [|x p IH]; intros s; simpl.
  - split; [intros _; now exists s | reflexivity].
  - destruct s as [|y s].
    + split; [discriminate | intros [r Hr]; discriminate].
    + rewrite andb_true_iff, N.eqb_eq, IH. split.
      * intros [-> [r ->]]. now exists r.
      * intros [r Hr]. injection Hr as -> ->. split; [reflexivity | now exists r].
Qed.

Lemma startsWith_app (p r : jstring) : startsWith p (p ++ r) = true.
Proof. apply startsWith_iff. now exists r. Qed.

Lemma indexOf_Some (p s : jstring) (i : nat) :
  indexOf p s = Some i ->
  occursAt p i s /\ forall j, j < i -> startsWith p (skipn j s) = false.
Proof.
  revert i; induction s as [|c s IH]; intros i; simpl.
  - destruct (startsWith p []) eqn:E; [|discriminate].
    intros [= <-]. split; [split; [exact E | simpl; lia] | intros j Hj; lia].
  - destruct (startsWith p (c :: s)) eqn:E.
    + intros [= <-]. split; [split; [exact E | lia] | intros j Hj; lia].
    + destruct (indexOf p s) as [k|] eqn:Ek; simpl; [|discriminate].
      intros [= <-]. destruct (IH k eq_refl) as [[Hk Hlen] Hmin].
      split; [split; [exact Hk | simpl; lia] |].
      intros [|j] Hj; simpl; [exact E | apply Hmin; lia].
Qed.

Lemma indexOf_None (p s : jstring) :
  indexOf p s = None -> forall j, startsWith p (skipn j s) = false.
Proof.
  induction s as [|c s IH]; simpl.
  - destruct (startsWith p []) eqn:E; [discriminate|].
    intros _ j. now rewrite skipn_nil.
  - destruct (startsWith p (c :: s)) eqn:E; [discriminate|].
    destruct (indexOf p s) eqn:Ek; simpl; [discriminate|].
    intros _ [|j]; simpl; [exact E | now apply IH].
Qed.

(** The index [indexOf] answers is the least one at which [p] occurs. *)
Lemma indexOf_least (p s : jstring) (i : nat) :
  indexOf p s = Some i <->
  occursAt p i s /\ forall j, j < i -> ~ occursAt p j s.
Proof.
  split.
  - intros H. apply indexOf_Some in H as [Ho Hmin]. split; [exact Ho|].
    intros j Hj [Hs _]. rewrite (Hmin j Hj) in Hs. discriminate.
  - intros [[Ho Hlen] Hmin].
    destruct (indexOf p s) as [k|] eqn:E.
    + apply indexOf_Some in E as [[Hk Hklen] Hkmin].
      destruct (Nat.lt_trichotomy k i) as [Hlt | [-> | Hgt]].
      * exfalso. apply (Hmin k Hlt). now split.
      * reflexivity.
      * rewrite (Hkmin i Hgt) in Ho. discriminate.
    + rewrite (indexOf_None _ _ E i) in Ho. discriminate.
Qed.

Lemma indexOf_startsWith (p s : jstring) :
  startsWith p s = true -> indexOf p s = Some 0.
Proof. intros H. destruct s; simpl; now rewrite H. Qed.

Lemma includes_app (p a b : jstring) : includes p (a ++ p ++ b) = true.
Proof.
  unfold includes.
  destruct (indexOf p (a ++ p ++ b)) eqn:E; [reflexivity|].
  pose proof (indexOf_None _ _ E (length a)) as H.
  rewrite skipn_app, skipn_all, Nat.sub_diag in H. simpl in H.
  now rewrite startsWith_app in H.
Qed.

Lemma includes_occurs (p s : jstring) :
  includes p s = true <-> exists a b, s = a ++ p ++ b.
Proof.
  split.
  - unfold includes. destruct (indexOf p s) as [i|] eqn:E; [|discriminate].
    intros _. apply indexOf_Some in E as [[Hs _] _].
    apply startsWith_iff in Hs as [r Hr].
    exists (firstn i s), r. rewrite <- Hr. symmetry. apply firstn_skipn.
  - intros (a & b & ->). apply includes_app.
Qed.

(* ------------------------------------------------------------------ *)
(** ** [trim] *)

Lemma dropWhile_idem (f : char -> bool) (s : jstring) :
  dropWhile f (dropWhile f s) = dropWhile f s.
Proof.
  induction s as [|c s IH]; simpl; [reflexivity|].
  destruct (f c) eqn:E; [exact IH | simpl; now rewrite E].
Qed.

Lemma dropWhile_nil_iff (f : char -> bool) (s : jstring) :
  dropWhile f s = [] <-> forallb f s = true.
Proof.
  induction s as [|c s IH]; simpl; [tauto|].
  destruct (f c); simpl; [exact IH | split; discriminate].
Qed.

Lemma dropWhile_suffix (f : char -> bool) (s : jstring) :
  exists w, s = w ++ dropWhile f s /\ forallb f w = true.
Proof.
  induction s as [|c s (w & Hw & Hf)]; simpl.
  - now exists [].
  - destruct (f c) eqn:E.
    + exists (c :: w). simpl. rewrite E, Hf. split; [now f_equal | reflexivity].
    + now exists [].
Qed.

Lemma dropWhile_head (f : char -> bool) (s : jstring) (c : char) (r : jstring) :
  dropWhile f s = c :: r -> f c = false.
Proof.
  induction s as [|x s IH]; simpl; [discriminate|].
  destruct (f x) eqn:E; [exact IH | intros [= <- _]; exact E].
Qed.

Lemma dropWhile_fixed (f : char -> bool) (c : char) (s : jstring) :
  f c = false -> dropWhile f (c :: s) = c :: s.
Proof. intros H. simpl. now rewrite H. Qed.

Lemma forallb_rev (f : char -> bool) (s : jstring) :
  forallb f (rev s) = forallb f s.
Proof.
  induction s as [|c s IH]; simpl; [reflexivity|].
  rewrite forallb_app, IH. simpl. rewrite andb_true_r. apply andb_comm.
Qed.

(** [trim] answers the empty string exactly on blank strings. *)
Lemma trim_nil_iff (s : jstring) :
  trim s = [] <-> forallb isWhiteSpace s = true.
Proof.
  unfold trim, trimEnd, trimStart.
  destruct (dropWhile_suffix isWhiteSpace s) as (w & Hw & Hf).
  split.
  - intros H.
    assert (H' : dropWhile isWhiteSpace (rev (dropWhile isWhiteSpace s)) = []).
    { apply (f_equal (@rev char)) in H. now rewrite rev_involutive in H. }
    apply dropWhile_nil_iff in H'. rewrite forallb_rev in H'.
    rewrite Hw, forallb_app, Hf, H'. reflexivity.
  - intros H. apply dropWhile_nil_iff in H. now rewrite H.
Qed.

Lemma trim_nil : trim [] = [].
Proof. reflexivity. Qed.

(** [trim] splits its argument into blank, kept, blank. *)
Lemma trim_split (s : jstring) :
  exists l r, s = l ++ trim s ++ r
              /\ forallb isWhiteSpace l = true /\ forallb isWhiteSpace r = true.
Proof.
  unfold trim, trimEnd, trimStart.
  destruct (dropWhile_suffix isWhiteSpace s) as (l & Hl & Hfl).
  destruct (dropWhile_suffix isWhiteSpace (rev (dropWhile isWhiteSpace s)))
    as (r & Hr & Hfr).
  exists l, (rev r). split; [|split; [exact Hfl | now rewrite forallb_rev]].
  rewrite Hl at 1. f_equal.
  apply (f_equal (@rev char)) in Hr.
  rewrite rev_involutive, rev_app_distr in Hr. exact Hr.
Qed.

Lemma trimStart_trimEnd_fixed (t : jstring) :
  trimStart t = t -> trimStart (trimEnd t) = trimEnd t.
Proof.
  unfold trimStart, trimEnd. intros Ht.
  destruct (dropWhile_suffix isWhiteSpace (rev t)) as (w & Hw & Hf).
  remember (dropWhile isWhiteSpace (rev t)) as u eqn:Hu.
  apply (f_equal (@rev char)) in Hw.
  rewrite rev_involutive, rev_app_distr in Hw.
  destruct (rev u) as [|c v] eqn:Ev; [reflexivity|].
  rewrite Hw in Ht. simpl in Ht.
  destruct (isWhiteSpace c) eqn:Ec.
  - exfalso.
    pose proof (dropWhile_suffix isWhiteSpace (v ++ rev w)) as (w' & Hw' & _).
    rewrite Ht in Hw'.
    apply (f_equal (@length char)) in Hw'.
    rewrite !length_app in Hw'. simpl in Hw'. rewrite !length_app in Hw'. lia.
  - apply dropWhile_fixed. exact Ec.
Qed.

Lemma trim_idem (s : jstring) : trim (trim s) = trim s.
Proof.
  unfold trim.
  rewrite trimStart_trimEnd_fixed by apply dropWhile_idem.
  unfold trimEnd. rewrite rev_involutive, dropWhile_idem. reflexivity.
Qed.

Lemma truthy_false_iff (s : jstring) : truthy s = false <-> s = [].
Proof. destruct s; simpl; split; congruence. Qed.

Lemma truthy_true_iff (s : jstring) : truthy s = true <-> s <> [].
Proof. destruct s; simpl; split; congruence. Qed.

End StringFacts.

(* ================================================================== *)
(** * Stepping through a computation *)
(* ================================================================== *)

Section Stepping.

Context {S A B : Type}.

Lemma bind_ok (m : M S A) (k : A -> M S B) (s s' : S) (a : A) (r : outcome B * S) :
  m s = (Ok a, s') -> k a s' = r -> bind m k s = r.
Proof. intros H1 H2. unfold bind. now rewrite H1. Qed.

Lemma bind_throw (m : M S A) (k : A -> M S B) (s s' : S) (e : exn) :
  m s = (Throw e, s') -> bind m k s = (Throw e, s').
Proof. intros H. unfold bind. now rewrite H. Qed.

Lemma tryCatch_ok (m : M S A) (h : exn -> M S A) (s s' : S) (a : A) :
  m s = (Ok a, s') -> tryCatch m h s = (Ok a, s').
Proof. intros H. unfold tryCatch. now rewrite H. Qed.

Lemma tryCatch_throw (m : M S A) (h : exn -> M S A) (s s' : S) (e : exn)
    (r : outcome A * S) :
  m s = (Throw e, s') -> h e s' = r -> tryCatch m h s = r.
Proof. intros H1 H2. unfold tryCatch. now rewrite H1. Qed.

Lemma snd_bind_any (m : M S A) (k : A -> M S B) (s : S) :
  snd (bind m k s)
  = match m s with
    | (Ok a, s') => snd (k a s')
    | (Throw _, s') => s'
    end.
Proof. unfold bind. now destruct (m s) as [[a|e] s']. Qed.

Lemma bind_step (m : M S A) (k : A -> M S B) (s s' : S) (a : A) :
  m s = (Ok a, s') -> bind m k s = k a s'.
Proof. intros H. unfold bind. now rewrite H. Qed.

End Stepping.

(* ================================================================== *)
(** * The ownership scans are read-only filters of the listing *)
(* ================================================================== *)

Section Scans.

Import ClaudeStrategy.

Lemma readdir_agents (fs : FS) (d : dir) :
  agents fs = Some d ->
  fileSystem.readdir AgentsDirP fs = (Ok (fileInfos d), fs).
Proof. intros H. unfold fileSystem.readdir. now rewrite H. Qed.

Lemma readdir_agents_none (fs : FS) :
  agents fs = None ->
  exists e, fileSystem.readdir AgentsDirP fs = (Throw e, fs).
Proof. intros H. unfold fileSystem.readdir. rewrite H. eauto. Qed.

Lemma scanFile_pure (test : jstring -> bool) (fs : FS) (d : dir)
    (acc : list path) (n : jstring) :
  agents fs = Some d ->
  scanFile test acc (mkFileInfo n (AgentFileP n)) fs
  = (Ok (if keeps test d n then acc ++ [AgentFileP n] else acc), fs).
Proof.
  intros H. unfold scanFile, keeps. simpl.
  destruct (skipped n); simpl; [reflexivity|].
  unfold tryCatch, bind, fileSystem.readFile. rewrite H.
  destruct (lookup n d) as [[c|]|]; simpl; try reflexivity.
  destruct (test c); reflexivity.
Qed.

Lemma scan_fold (test : jstring -> bool) (fs : FS) (d : dir) :
  agents fs = Some d ->
  forall (names : list jstring) (acc : list path),
    foldM (scanFile test) (map (fun n => mkFileInfo n (AgentFileP n)) names) acc fs
    = (Ok (acc ++ map AgentFileP (filter (keeps test d) names)), fs).
Proof.
  intros H. induction names as [|n names IH]; intros acc; simpl.
  - unfold ret. now rewrite app_nil_r.
  - unfold bind. rewrite (scanFile_pure test fs d acc n H).
    rewrite IH. destruct (keeps test d n); simpl; [|reflexivity].
    now rewrite <- app_assoc.
Qed.

Lemma fileInfos_names (d : dir) :
  fileInfos d = map (fun n => mkFileInfo n (AgentFileP n)) (map fst d).
Proof. unfold fileInfos. now rewrite map_map. Qed.

Lemma findBtwAgents_pure (fs : FS) (d : dir) :
  agents fs = Some d ->
  findBtwAgents AgentsDirP fs
  = (Ok (map AgentFileP (selectedNames isBtwContent d)), fs).
Proof.
  intros H. unfold findBtwAgents, tryCatch, bind.
  rewrite (readdir_agents fs d H), fileInfos_names, (scan_fold _ fs d H).
  reflexivity.
Qed.

Lemma findBtwAgentsForWorkflow_pure (fs : FS) (d : dir) (id : jstring) :
  agents fs = Some d ->
  findBtwAgentsForWorkflow AgentsDirP id fs
  = (Ok (map AgentFileP (selectedNames (belongsTo id) d)), fs).
Proof.
  intros H. unfold findBtwAgentsForWorkflow, tryCatch, bind.
  rewrite (readdir_agents fs d H), fileInfos_names, (scan_fold _ fs d H).
  reflexivity.
Qed.

Lemma findBtwAgents_none (fs : FS) :
  agents fs = None -> findBtwAgents AgentsDirP fs = (Ok [], fs).
Proof.
  intros H. unfold findBtwAgents, tryCatch, bind.
  destruct (readdir_agents_none fs H) as [e ->]. reflexivity.
Qed.

Lemma findBtwAgentsForWorkflow_none (fs : FS) (id : jstring) :
  agents fs = None -> findBtwAgentsForWorkflow AgentsDirP id fs = (Ok [], fs).
Proof.
  intros H. unfold findBtwAgentsForWorkflow, tryCatch, bind.
  destruct (readdir_agents_none fs H) as [e ->]. reflexivity.
Qed.

Lemma collect_fold (fs : FS) (d : dir) :
  agents fs = Some d ->
  forall (names : list jstring) (ids : list jstring),
    foldM (fun workflowIds file =>
             if skipped (fi_name file) then ret workflowIds
             else tryCatch
                    (content <- fileSystem.readFile (fi_path file) ;;
                     match matchWorkflow content with
                     | Some capture => ret (setAdd (trim capture) workflowIds)
                     | None => ret workflowIds
                     end)
                    (fun _ => ret workflowIds))
          (map (fun n => mkFileInfo n (AgentFileP n)) names) ids fs
    = (Ok (collectIds d names ids), fs).
Proof.
  intros H. induction names as [|n names IH]; intros ids; simpl; [reflexivity|].
  unfold bind at 1. simpl.
  destruct (skipped n); simpl.
  - unfold ret at 1. apply IH.
  - unfold tryCatch, bind, fileSystem.readFile. rewrite H.
    destruct (lookup n d) as [[c|]|]; simpl; try apply IH.
    unfold ownerOf. destruct (matchWorkflow c); simpl; apply IH.
Qed.

Lemma getAllWorkflowIdsFromAgents_pure (fs : FS) (d : dir) :
  agents fs = Some d ->
  getAllWorkflowIdsFromAgents AgentsDirP fs
  = (Ok (collectIds d (map fst d) []), fs).
Proof.
  intros H. unfold getAllWorkflowIdsFromAgents, tryCatch, bind.
  rewrite (readdir_agents fs d H), fileInfos_names, (collect_fold fs d H).
  reflexivity.
Qed.

Lemma getAllWorkflowIdsFromAgents_none (fs : FS) :
  agents fs = None -> getAllWorkflowIdsFromAgents AgentsDirP fs = (Ok [], fs).
Proof.
  intros H. unfold getAllWorkflowIdsFromAgents, tryCatch, bind.
  destruct (readdir_agents_none fs H) as [e ->]. reflexivity.
Qed.

End Scans.

(* ================================================================== *)
(** * Injecting a workflow that is already injected *)
(* ================================================================== *)

Section DuplicateInjection.

Import ClaudeStrategy.

Lemma agents_some_dotClaude (fs : FS) (d : dir) :
  agents fs = Some d -> exists c, dotClaude fs = Some c /\ agentsDir c = Some d.
Proof.
  unfold agents. destruct (dotClaude fs) as [c|]; [|discriminate].
  intros H. now exists c.
Qed.

Lemma mkdir_existing (fs : FS) (d : dir) :
  agents fs = Some d ->
  fileSystem.mkdir ClaudeDirP fs = (Ok tt, fs)
  /\ fileSystem.mkdir AgentsDirP fs = (Ok tt, fs).
Proof.
  intros H. destruct (agents_some_dotClaude fs d H) as (c & Hc & _).
  unfold fileSystem.mkdir. now rewrite Hc, H.
Qed.

Lemma isWorkflowInjected_pure (fs : FS) (id : jstring) :
  isWorkflowInjected id fs
  = (Ok (match agents fs with
         | Some d => existsb (JS.eqb id) (collectIds d (map fst d) [])
         | None => false
         end), fs).
Proof.
  unfold isWorkflowInjected, bind, agentsPath.
  destruct (agents fs) as [d|] eqn:H.
  - now rewrite (getAllWorkflowIdsFromAgents_pure fs d H).
  - now rewrite (getAllWorkflowIdsFromAgents_none fs H).
Qed.

(** C2. When [inject] runs without [force] and the ownership scan reports
    the id of the manifest among the owners of the agent artifacts, the call
    fails with a [BTWError] of code [INJECTION_FAILED], the failure of a
    violated precondition, and the filesystem is left as it was. *)
Theorem inject_already_injected_fails
    (now : jstring) (manifest : Manifest) (options : InjectOptions)
    (fs : FS) (ids : list jstring) :
  force options = false ->
  fst (getAllWorkflowIdsFromAgents AgentsDirP fs) = Ok ids ->
  In (m_id manifest) ids ->
  inject now manifest options fs
  = (Throw (BTWError INJECTION_FAILED
              (lit "Workflow '" ++ m_id manifest
               ++ lit "' is already injected. Use --force to re-inject.")),
     fs).
Proof.
  intros Hforce Hscan Hin.
  destruct (agents fs) as [d|] eqn:Hd.
  - rewrite (getAllWorkflowIdsFromAgents_pure fs d Hd) in Hscan.
    simpl in Hscan. injection Hscan as <-.
    destruct (mkdir_existing fs d Hd) as [Hm1 Hm2].
    assert (Hex : existsb (JS.eqb (m_id manifest))
                    (collectIds d (map fst d) []) = true).
    { apply existsb_exists. exists (m_id manifest). split; [exact Hin|].
      apply eqb_refl. }
    unfold inject, claudeDir, agentsPath.
    eapply tryCatch_throw.
    { eapply bind_ok.
      { unfold createDirectories. eapply bind_ok; [exact Hm1 | exact Hm2]. }
      apply bind_throw. unfold checkNotInjected.
      rewrite Hforce. simpl negb. cbv iota.
      eapply bind_ok; [apply isWorkflowInjected_pure|].
      rewrite Hd, Hex. reflexivity. }
    reflexivity.
  - rewrite (getAllWorkflowIdsFromAgents_none fs Hd) in Hscan.
    simpl in Hscan. injection Hscan as <-. destruct Hin.
Qed.

Lemma inject_already_injected_fails_witness :
  inject Scenario.now Scenario.demo Scenario.plain Scenario.afterDemo
  = (Throw (BTWError INJECTION_FAILED
              (lit "Workflow 'demo' is already injected. Use --force to re-inject.")),
     Scenario.afterDemo).
Proof.
  apply (inject_already_injected_fails Scenario.now Scenario.demo Scenario.plain
           Scenario.afterDemo [lit "demo"]).
  - reflexivity.
  - vm_compute. reflexivity.
  - left. reflexivity.
Defined.

End DuplicateInjection.

(* ================================================================== *)
(** * The owned region of the shared document *)
(* ================================================================== *)

Section Region.

Import ClaudeStrategy.

Lemma removeBtwContent_locate (content : jstring) :
  removeBtwContent content
  = match locate content with
    | Some (s, e) => aroundRegion content s e
    | None => content
    end.
Proof.
  unfold removeBtwContent, locate, aroundRegion, substringTo, substringFrom.
  destruct (indexOf BTW_START_MARKER content) as [s|]; [|reflexivity].
  destruct (indexOf BTW_END_MARKER content) as [e|]; [|reflexivity].
  destruct (s <? e); reflexivity.
Qed.

Lemma locate_iff (content : jstring) (s e : nat) :
  locate content = Some (s, e) <->
  indexOf BTW_START_MARKER content = Some s
  /\ indexOf BTW_END_MARKER content = Some e /\ s < e.
Proof.
  unfold locate.
  destruct (indexOf BTW_START_MARKER content) as [s'|];
    [|split; [discriminate | intros [H _]; discriminate]].
  destruct (indexOf BTW_END_MARKER content) as [e'|];
    [|split; [discriminate | intros (_ & H & _); discriminate]].
  destruct (s' <? e') eqn:E.
  - apply Nat.ltb_lt in E. split.
    + intros [= <- <-]. auto.
    + intros ([= <-] & [= <-] & _). reflexivity.
  - apply Nat.ltb_ge in E. split; [discriminate|].
    intros ([= <-] & [= <-] & H). lia.
Qed.

Lemma nonblank_includes (p s : jstring) :
  forallb isWhiteSpace p = false -> includes p s = true -> truthy (trim s) = true.
Proof.
  intros Hp Hin. apply truthy_true_iff. intros Ht.
  apply trim_nil_iff in Ht. apply includes_occurs in Hin as (a & b & ->).
  rewrite !forallb_app, Hp in Ht. rewrite andb_false_r in Ht. discriminate.
Qed.

Lemma exists_instructions (fs : FS) (n : node) :
  claudeMd fs = Some n -> fileSystem.exists_ InstructionsP fs = (Ok true, fs).
Proof. intros H. unfold fileSystem.exists_. simpl. now rewrite H. Qed.

Lemma read_instructions (fs : FS) (content : jstring) :
  claudeMd fs = Some (File content) ->
  fileSystem.readFile InstructionsP fs = (Ok content, fs).
Proof. intros H. unfold fileSystem.readFile. now rewrite H. Qed.

Lemma write_instructions (fs : FS) (old new : jstring) :
  claudeMd fs = Some (File old) ->
  fileSystem.writeFile InstructionsP new false fs
  = (Ok tt, mkFS (dotClaude fs) (Some (File new))).
Proof. intros H. unfold fileSystem.writeFile. now rewrite H. Qed.

(** What [updateClaudeMd] does to a document that exists and can be read. *)
Lemma updateClaudeMd_existing (now : jstring) (manifest : Manifest)
    (options : InjectOptions) (fs : FS) (content : jstring) :
  claudeMd fs = Some (File content) ->
  updateClaudeMd now InstructionsP manifest options fs
  = (Ok tt,
     mkFS (dotClaude fs)
       (Some (File
          (let btwContent := generateInstructions now manifest in
           if merge options || negb (force options) then
             if merge options || includes BTW_START_MARKER content
             then stripAndAppend content btwContent
             else trim content ++ SEPARATOR ++ btwContent
           else btwContent)))).
Proof.
  intros H. unfold updateClaudeMd.
  eapply bind_ok; [apply (exists_instructions fs _ H)|].
  destruct (merge options); simpl.
  - eapply bind_ok; [apply (read_instructions fs _ H)|].
    apply (write_instructions fs _ _ H).
  - destruct (force options); simpl.
    + apply (write_instructions fs _ _ H).
    + eapply bind_ok; [apply (read_instructions fs _ H)|].
      destruct (includes BTW_START_MARKER content);
        apply (write_instructions fs _ _ H).
Qed.

(** C3, as the code has it. When the shared document holds a located
    region, a new injection that merges, or that does not force, cuts the
    region out, trims what is left of the document and appends the separator
    and the new region after it (the new region alone when nothing is
    left); an injection that forces without merging writes the new region
    as the whole document. *)
Theorem located_region_is_cut_and_appended
    (now : jstring) (manifest : Manifest) (options : InjectOptions)
    (fs : FS) (content : jstring) (s e : nat) :
  claudeMd fs = Some (File content) ->
  locate content = Some (s, e) ->
  updateClaudeMd now InstructionsP manifest options fs
  = (Ok tt,
     mkFS (dotClaude fs)
       (Some (File
          (let btwContent := generateInstructions now manifest in
           if merge options || negb (force options) then
             if truthy (aroundRegion content s e)
             then aroundRegion content s e ++ SEPARATOR ++ btwContent
             else btwContent
           else btwContent)))).
Proof.
  intros Hfile Hloc.
  rewrite (updateClaudeMd_existing now manifest options fs content Hfile).
  do 4 f_equal. cbv zeta.
  destruct (merge options || negb (force options)); [|reflexivity].
  assert (Hin : includes BTW_START_MARKER content = true).
  { apply locate_iff in Hloc as (Hs & _). unfold includes. now rewrite Hs. }
  rewrite Hin, orb_true_r.
  unfold stripAndAppend. rewrite removeBtwContent_locate, Hloc.
  unfold aroundRegion. rewrite trim_idem. reflexivity.
Qed.

Lemma located_region_is_cut_and_appended_witness :
  updateClaudeMd Scenario.now InstructionsP Scenario.demo Scenario.merging
    (Documents.holding Documents.around)
  = (Ok tt, Documents.holding (lit "AB" ++ SEPARATOR ++ Documents.newRegion)).
Proof.
  exact (located_region_is_cut_and_appended Scenario.now Scenario.demo Scenario.merging
           (Documents.holding Documents.around) Documents.around 1 20
           eq_refl eq_refl).
Defined.

(** C3, as stated, fails: with user text [A] before and [B] after the
    region, a merging injection writes [AB], the separator and the new
    region, which is not the document with the region replaced in place. *)
Lemma in_place_replacement_fails :
  locate_spec Documents.around = Some (1, 20)
  /\ claudeMd (snd (updateClaudeMd Scenario.now InstructionsP Scenario.demo Scenario.merging
                      (Documents.holding Documents.around)))
     = Some (File (lit "AB" ++ SEPARATOR ++ Documents.newRegion))
  /\ lit "AB" ++ SEPARATOR ++ Documents.newRegion
     <> replaceRegion Documents.around Documents.newRegion 1 20.
Proof.
  split; [reflexivity|]. split; [vm_compute; reflexivity|].
  vm_compute. intros H. discriminate H.
Qed.

(** C5, as the code has it. The region is located by the first index of the
    start sentinel and the first index of the end sentinel in the whole
    document, and it exists exactly when both are found and the second is
    greater. A document without located region is left as it is by
    [removeBtwContent]. When the document holds a start sentinel and its
    first end sentinel is missing or not after it, no region is located, and
    an injection that merges, or that does not force, writes the trimmed
    document, the separator and the new region; an injection that forces
    without merging writes the new region as the whole document. *)
Theorem region_location_and_unmatched_start :
  (forall content s e,
     locate content = Some (s, e) <->
     (occursAt BTW_START_MARKER s content
      /\ forall j, j < s -> ~ occursAt BTW_START_MARKER j content)
     /\ (occursAt BTW_END_MARKER e content
         /\ forall j, j < e -> ~ occursAt BTW_END_MARKER j content)
     /\ s < e)
  /\ (forall content, locate content = None -> removeBtwContent content = content)
  /\ (forall now manifest options fs content s,
        claudeMd fs = Some (File content) ->
        indexOf BTW_START_MARKER content = Some s ->
        (forall e, indexOf BTW_END_MARKER content = Some e -> e <= s) ->
        merge options = true \/ force options = false ->
        locate content = None
        /\ updateClaudeMd now InstructionsP manifest options fs
           = (Ok tt,
              mkFS (dotClaude fs)
                (Some (File (trim content ++ SEPARATOR
                             ++ generateInstructions now manifest)))))
  /\ (forall now manifest options fs content,
        claudeMd fs = Some (File content) ->
        merge options = false -> force options = true ->
        updateClaudeMd now InstructionsP manifest options fs
        = (Ok tt,
           mkFS (dotClaude fs) (Some (File (generateInstructions now manifest))))).
Proof.
  split; [|split; [|split]].
  - intros content s e. rewrite locate_iff, !indexOf_least. tauto.
  - intros content H. now rewrite removeBtwContent_locate, H.
  - intros now manifest options fs content s Hfile Hs He Hmode.
    assert (Hloc : locate content = None).
    { unfold locate. rewrite Hs.
      destruct (indexOf BTW_END_MARKER content) as [e|]; [|reflexivity].
      specialize (He e eq_refl).
      destruct (s <? e) eqn:E; [|reflexivity].
      apply Nat.ltb_lt in E. lia. }
    split; [exact Hloc|].
    assert (Hin : includes BTW_START_MARKER content = true).
    { unfold includes. now rewrite Hs. }
    rewrite (updateClaudeMd_existing now manifest options fs content Hfile).
    do 4 f_equal. cbv zeta.
    assert (Hm : merge options || negb (force options) = true).
    { destruct Hmode as [-> | ->]; [reflexivity | apply orb_true_r]. }
    rewrite Hm, Hin, orb_true_r.
    unfold stripAndAppend. rewrite removeBtwContent_locate, Hloc.
    rewrite (nonblank_includes BTW_START_MARKER content eq_refl Hin).
    reflexivity.
  - intros now manifest options fs content Hfile Hmerge Hforce.
    rewrite (updateClaudeMd_existing now manifest options fs content Hfile).
    now rewrite Hmerge, Hforce.
Qed.

Lemma region_location_and_unmatched_start_witness :
  locate Documents.unclosed = None
  /\ updateClaudeMd Scenario.now InstructionsP Scenario.demo Scenario.merging
       (Documents.holding Documents.unclosed)
     = (Ok tt,
        Documents.holding (Documents.unclosed ++ SEPARATOR ++ Documents.newRegion)).
Proof.
  apply (proj1 (proj2 (proj2 region_location_and_unmatched_start))
           Scenario.now Scenario.demo Scenario.merging
           (Documents.holding Documents.unclosed) Documents.unclosed 1).
  - reflexivity.
  - reflexivity.
  - intros e H. discriminate H.
  - left. reflexivity.
Defined.

(** C5, as stated, fails: in a document with an end sentinel before the
    start sentinel, the first end sentinel found after the start closes a
    region, but [removeBtwContent] looks at the first end sentinel of the
    whole document and finds no region: a merging injection keeps the old
    region and appends the new one. And on a document with a start sentinel
    that is never closed, an injection that forces without merging appends
    nothing: it writes the new region over the document. *)
Lemma first_end_after_start_not_used :
  locate_spec Documents.strayEnd = Some (16, 35)
  /\ locate Documents.strayEnd = None
  /\ removeBtwContent Documents.strayEnd = Documents.strayEnd
  /\ claudeMd (snd (updateClaudeMd Scenario.now InstructionsP Scenario.demo Scenario.merging
                      (Documents.holding Documents.strayEnd)))
     = Some (File (Documents.strayEnd ++ SEPARATOR ++ Documents.newRegion))
  /\ includes BTW_END_MARKER Documents.unclosed = false
  /\ claudeMd (snd (updateClaudeMd Scenario.now InstructionsP Scenario.demo Scenario.forcing
                      (Documents.holding Documents.unclosed)))
     = Some (File Documents.newRegion).
Proof. repeat split; vm_compute; reflexivity. Qed.

End Region.

(* ================================================================== *)
(** * What [eject] does to the agents directory *)
(* ================================================================== *)

Section EjectFrame.

Import ClaudeStrategy.

Lemma lookup_unlink (k n : jstring) (d : dir) :
  lookup k (unlink n d) = if JS.eqb k n then None else lookup k d.
Proof.
  induction d as [|[k' v] d IH]; simpl.
  - now destruct (JS.eqb k n).
  - destruct (JS.eqb k' n) eqn:E1; simpl.
    + apply eqb_eq in E1. subst k'. rewrite IH.
      destruct (JS.eqb k n) eqn:E2; [reflexivity|].
      rewrite eqb_sym, E2. reflexivity.
    + destruct (JS.eqb k' k) eqn:E2.
      * apply eqb_eq in E2. subst k'. now rewrite E1.
      * exact IH.
Qed.

Lemma lookup_sweep (k : jstring) (names : list jstring) (d : dir) :
  lookup k (sweep names d)
  = if existsb (fun n => JS.eqb k n || JS.eqb k (backupName n)) names
    then None else lookup k d.
Proof.
  unfold sweep. revert d. induction names as [|n names IH]; intros d; simpl.
  - reflexivity.
  - rewrite IH, !lookup_unlink.
    destruct (JS.eqb k n), (JS.eqb k (backupName n)); simpl;
      try reflexivity;
      now destruct (existsb _ names).
Qed.

Lemma agents_set_agents (o : option dir) (fs : FS) (d : dir) :
  agents fs = Some d -> agents (set_agents o fs) = o.
Proof.
  intros H. destruct (agents_some_dotClaude fs d H) as (c & Hc & _).
  unfold set_agents. rewrite Hc. reflexivity.
Qed.

Lemma claudeMd_set_agents (o : option dir) (fs : FS) :
  claudeMd (set_agents o fs) = claudeMd fs.
Proof.
  unfold set_agents. destruct (dotClaude fs); [reflexivity|].
  now destruct o.
Qed.

Lemma unlink_absent (n : jstring) (d : dir) :
  lookup n d = None -> unlink n d = d.
Proof.
  induction d as [|[k v] d IH]; simpl; [reflexivity|].
  destruct (JS.eqb k n) eqn:E; [discriminate|]. simpl.
  intros H. now rewrite IH.
Qed.

Lemma ejectOne_spec (n : jstring) (fs : FS) :
  exists fs',
    ejectOne (AgentFileP n) fs = (Ok tt, fs')
    /\ agents fs' = option_map (fun d => unlink (backupName n) (unlink n d)) (agents fs)
    /\ claudeMd fs' = claudeMd fs.
Proof.
  unfold ejectOne, bind, fileSystem.remove, fileSystem.exists_, when. simpl.
  destruct (agents fs) as [d|] eqn:Hd; simpl.
  - rewrite (agents_set_agents (Some (unlink n d)) fs d Hd).
    destruct (lookup (n ++ lit ".btw-backup") (unlink n d)) as [v|] eqn:Hb; simpl.
    + rewrite (agents_set_agents (Some (unlink n d)) fs d Hd).
      eexists. split; [reflexivity|]. split.
      * erewrite agents_set_agents; [reflexivity|].
        apply (agents_set_agents (Some (unlink n d)) fs d Hd).
      * now rewrite !claudeMd_set_agents.
    + eexists. split; [reflexivity|]. split.
      * rewrite (agents_set_agents (Some (unlink n d)) fs d Hd). simpl.
        unfold backupName. now rewrite (unlink_absent _ _ Hb).
      * now rewrite claudeMd_set_agents.
  - rewrite Hd. simpl. eexists. split; [reflexivity|]. now rewrite Hd.
Qed.

Lemma ejectLoop_spec (names : list jstring) (fs : FS) :
  exists fs',
    forEach (map AgentFileP names) ejectOne fs = (Ok tt, fs')
    /\ agents fs' = option_map (sweep names) (agents fs)
    /\ claudeMd fs' = claudeMd fs.
Proof.
  revert fs. induction names as [|n names IH]; intros fs; simpl.
  - exists fs. split; [reflexivity|]. split; [|reflexivity].
    now destruct (agents fs).
  - destruct (ejectOne_spec n fs) as (fs1 & H1 & Ha1 & Hc1).
    destruct (IH fs1) as (fs2 & H2 & Ha2 & Hc2).
    exists fs2. split; [|split].
    + eapply bind_ok; [exact H1 | exact H2].
    + rewrite Ha2, Ha1. now destruct (agents fs).
    + congruence.
Qed.

(** The check that removes the agents directory once it is empty. *)
Lemma removeAgentsDirIfEmpty_spec (fs : FS) :
  exists fs',
    removeAgentsDirIfEmpty fs = (Ok tt, fs')
    /\ agents fs' = emptied (agents fs)
    /\ claudeMd fs' = claudeMd fs.
Proof.
  unfold removeAgentsDirIfEmpty, tryCatch, bind, agentsPath, fileSystem.readdir,
    when, fileSystem.remove.
  destruct (agents fs) as [d|] eqn:Hd.
  - destruct d as [|e d]; simpl.
    + eexists. split; [reflexivity|]. split.
      * apply (agents_set_agents None fs [] Hd).
      * apply claudeMd_set_agents.
    + eexists. split; [reflexivity|]. now rewrite Hd.
  - eexists. split; [reflexivity|]. now rewrite Hd.
Qed.

Lemma findEjected_spec (options : EjectOptions) (fs : FS) :
  (match workflowId options with
   | Some id =>
       if truthy id then findBtwAgentsForWorkflow agentsPath id
       else findBtwAgents agentsPath
   | None => findBtwAgents agentsPath
   end) fs
  = (Ok (match agents fs with
         | Some d => map AgentFileP (ejectedNames options d)
         | None => []
         end), fs).
Proof.
  unfold ejectedNames, ejectTest, agentsPath.
  destruct (agents fs) as [d|] eqn:Hd.
  - destruct (workflowId options) as [id|]; [destruct (truthy id)|];
      first [apply (findBtwAgentsForWorkflow_pure fs d _ Hd)
            | apply (findBtwAgents_pure fs d Hd)].
  - destruct (workflowId options) as [id|]; [destruct (truthy id)|];
      first [apply (findBtwAgentsForWorkflow_none fs _ Hd)
            | apply (findBtwAgents_none fs Hd)].
Qed.

(** Step 1 of [eject] never fails; it sweeps the selected artifacts and
    their backups out of the agents directory and touches nothing else. *)
Lemma removeAgentFiles_spec (options : EjectOptions) (fs : FS) :
  exists fs',
    removeAgentFiles options fs = (Ok tt, fs')
    /\ agents fs'
       = emptied (option_map (fun d => sweep (ejectedNames options d) d) (agents fs))
    /\ claudeMd fs' = claudeMd fs.
Proof.
  unfold removeAgentFiles.
  rewrite (bind_step _ _ _ _ _ (findEjected_spec options fs)).
  destruct (agents fs) as [d|] eqn:Hd.
  - destruct (ejectLoop_spec (ejectedNames options d) fs) as (fs1 & H1 & Ha1 & Hc1).
    destruct (removeAgentsDirIfEmpty_spec fs1) as (fs2 & H2 & Ha2 & Hc2).
    exists fs2. split; [|split].
    + rewrite (bind_step _ _ _ _ _ H1). exact H2.
    + rewrite Ha2, Ha1, Hd. reflexivity.
    + congruence.
  - destruct (removeAgentsDirIfEmpty_spec fs) as (fs2 & H2 & Ha2 & Hc2).
    exists fs2. split; [|split].
    + simpl. unfold bind at 1. simpl. exact H2.
    + rewrite Ha2, Hd. reflexivity.
    + exact Hc2.
Qed.

(** Step 2 of [eject] leaves [.claude] alone. *)
Lemma cleanClaudeMd_dotClaude (options : EjectOptions) (fs : FS) :
  dotClaude (snd (cleanClaudeMd options fs)) = dotClaude fs.
Proof.
  unfold cleanClaudeMd, instructionsPath.
  destruct (claudeMd fs) as [[content|]|] eqn:Hc.
  - rewrite (bind_step _ _ _ _ _ (exists_instructions fs _ Hc)).
    unfold when at 1.
    rewrite (bind_step _ _ _ _ _ (read_instructions fs _ Hc)).
    destruct (shouldCleanClaudeMd options content); [|reflexivity].
    unfold when. cbv zeta.
    destruct (truthy (trim (removeBtwContent content))).
    + now rewrite (write_instructions fs _ _ Hc).
    + reflexivity.
  - rewrite (bind_step _ _ _ _ _ (exists_instructions fs _ Hc)).
    unfold when at 1. unfold bind, fileSystem.readFile. now rewrite Hc.
  - unfold bind, fileSystem.exists_. simpl. now rewrite Hc.
Qed.

(** Step 3 of [eject] removes [.claude] only when nothing is in it. *)
Lemma removeClaudeDirIfEmpty_agents (b : bool) (fs : FS) :
  agents (snd (when b removeClaudeDirIfEmpty fs)) = agents fs.
Proof.
  unfold removeClaudeDirIfEmpty, when, tryCatch, bind, claudeDir,
    fileSystem.readdir, fileSystem.remove, agents.
  destruct b; [|reflexivity].
  destruct (dotClaude fs) as [c|] eqn:Hc; simpl; [|now rewrite Hc].
  destruct (agentsDir c) as [d|] eqn:Hd; simpl.
  - now rewrite Hc.
  - destruct (siblings c); simpl; [reflexivity | now rewrite Hc].
Qed.

Lemma snd_rethrow {A} (m : M FS A) (prefix : jstring) (fs : FS) :
  snd (tryCatch m (rethrow prefix) fs) = snd (m fs).
Proof.
  unfold tryCatch, rethrow. destruct (m fs) as [[a|e] fs']; [reflexivity|].
  now destruct e.
Qed.

(** The agents directory after [eject]. *)
Lemma eject_agents (options : EjectOptions) (fs : FS) :
  agents (snd (eject options fs))
  = emptied (option_map (fun d => sweep (ejectedNames options d) d) (agents fs)).
Proof.
  unfold eject. rewrite snd_rethrow.
  destruct (removeAgentFiles_spec options fs) as (fs1 & H1 & Ha1 & _).
  rewrite (bind_step _ _ _ _ _ H1), snd_bind_any.
  rewrite <- Ha1.
  pose proof (cleanClaudeMd_dotClaude options fs1) as Hd.
  destruct (cleanClaudeMd options fs1) as [[[]|e] fs2]; simpl in Hd.
  - rewrite removeClaudeDirIfEmpty_agents. unfold agents. now rewrite Hd.
  - unfold agents. now rewrite Hd.
Qed.

Lemma lookup_In (n : jstring) (d : dir) (v : node) :
  lookup n d = Some v -> In n (map fst d).
Proof.
  induction d as [|[k w] d IH]; simpl; [discriminate|].
  destruct (JS.eqb k n) eqn:E.
  - apply eqb_eq in E. now left.
  - intros H. right. now apply IH.
Qed.

Lemma endsWith_app_self (p m : jstring) : endsWith p (m ++ p) = true.
Proof.
  unfold endsWith. rewrite length_app.
  replace (length m + length p - length p) with (length m) by lia.
  rewrite skipn_app, skipn_all, Nat.sub_diag. simpl.
  rewrite eqb_refl, andb_true_r. apply Nat.leb_le. lia.
Qed.

Lemma artifact_not_backup (n m : jstring) :
  skipped n = false -> n <> backupName m.
Proof.
  unfold skipped, backupName. intros H ->.
  rewrite endsWith_app_self, orb_true_r in H. discriminate.
Qed.

Lemma includes_cons (p s : jstring) (c : char) :
  includes p s = true -> includes p (c :: s) = true.
Proof.
  intros H. apply includes_occurs in H as (a & b & ->).
  apply (includes_app p (c :: a) b).
Qed.

Lemma matchWorkflow_includes (content capture : jstring) :
  matchWorkflow content = Some capture ->
  includes (lit "# workflow:") content = true.
Proof.
  induction content as [|c content IH]; [discriminate|].
  cbn [matchWorkflow].
  destruct (startsWith (lit "# workflow: ") (c :: content)) eqn:E.
  - intros _. apply startsWith_iff in E as [r ->].
    apply (includes_app (lit "# workflow:") [] (lit " " ++ r)).
  - intros H. apply includes_cons. now apply IH.
Qed.

Lemma unmarked_no_owner (content : jstring) :
  isBtwContent content = false -> matchWorkflow content = None.
Proof.
  unfold isBtwContent. intros H. apply orb_false_iff in H as [_ H].
  destruct (matchWorkflow content) as [capture|] eqn:E; [|reflexivity].
  apply matchWorkflow_includes in E. congruence.
Qed.

Lemma ejectedNames_iff (options : EjectOptions) (d : dir) (n : jstring) :
  In n (ejectedNames options d) <->
  skipped n = false
  /\ exists c, lookup n d = Some (File c) /\ ejectTest options c = true.
Proof.
  unfold ejectedNames, selectedNames, keeps. rewrite filter_In. split.
  - intros [_ H]. apply andb_true_iff in H as [H1 H2].
    apply negb_true_iff in H1. split; [exact H1|].
    destruct (lookup n d) as [[c|]|]; try discriminate. now exists c.
  - intros [H1 (c & Hc & Ht)]. split; [now apply (lookup_In n d (File c))|].
    now rewrite H1, Hc.
Qed.

Lemma agentFile_eject (options : EjectOptions) (fs : FS) (d : dir) (n : jstring) :
  agents fs = Some d ->
  agentFile (snd (eject options fs)) n
  = if existsb (fun m => JS.eqb n m || JS.eqb n (backupName m))
         (ejectedNames options d)
    then None else lookup n d.
Proof.
  intros Hd. unfold agentFile. rewrite eject_agents, Hd. simpl.
  rewrite <- lookup_sweep.
  now destruct (sweep (ejectedNames options d) d).
Qed.

(** The frame of [eject] over an agents directory that exists. *)
Lemma eject_frame_listed (options : EjectOptions) (fs : FS) (d : dir) :
  agents fs = Some d ->
  (forall n,
     In n (ejectedNames options d) <->
     skipped n = false
     /\ exists c, agentFile fs n = Some (File c)
                  /\ match workflowId options with
                     | Some id =>
                         if truthy id then ownerOf c = Some id
                         else isBtwContent c = true
                     | None => isBtwContent c = true
                     end)
  /\ (forall n,
        In n (ejectedNames options d) ->
        agentFile (snd (eject options fs)) n = None
        /\ agentFile (snd (eject options fs)) (backupName n) = None)
  /\ (forall n,
        ~ In n (ejectedNames options d) ->
        (forall m, In m (ejectedNames options d) -> n <> backupName m) ->
        agentFile (snd (eject options fs)) n = agentFile fs n)
  /\ (forall id other n c,
        workflowId options = Some id -> truthy id = true ->
        skipped n = false ->
        agentFile fs n = Some (File c) ->
        ownerOf c = Some other -> other <> id ->
        agentFile (snd (eject options fs)) n = Some (File c))
  /\ (forall n c,
        skipped n = false ->
        agentFile fs n = Some (File c) ->
        isBtwContent c = false ->
        agentFile (snd (eject options fs)) n = Some (File c)).
Proof.
  intros Hd.
  assert (Hsel : forall n,
     In n (ejectedNames options d) <->
     skipped n = false
     /\ exists c, agentFile fs n = Some (File c)
                  /\ match workflowId options with
                     | Some id =>
                         if truthy id then ownerOf c = Some id
                         else isBtwContent c = true
                     | None => isBtwContent c = true
                     end).
  { intros n. rewrite ejectedNames_iff. unfold agentFile. rewrite Hd.
    unfold ejectTest, belongsTo, ownerOf.
    split; intros [Hn (c & Hc & Ht)]; (split; [exact Hn|]); exists c;
      (split; [exact Hc|]);
      destruct (workflowId options) as [id|]; try exact Ht;
      destruct (truthy id); try exact Ht;
      destruct (matchWorkflow c) as [capture|]; simpl in *;
      try discriminate.
    - apply eqb_eq in Ht. now f_equal.
    - injection Ht as Ht. now apply eqb_eq. }
  assert (Hkeep : forall n,
     ~ In n (ejectedNames options d) ->
     (forall m, In m (ejectedNames options d) -> n <> backupName m) ->
     agentFile (snd (eject options fs)) n = agentFile fs n).
  { intros n Hn Hb. rewrite (agentFile_eject options fs d n Hd).
    unfold agentFile at 1. rewrite Hd.
    destruct (existsb _ (ejectedNames options d)) eqn:E; [|reflexivity].
    apply existsb_exists in E as (m & Hm & E).
    apply orb_true_iff in E as [E | E]; apply eqb_eq in E; subst n.
    - contradiction.
    - exfalso. now apply (Hb m). }
  split; [exact Hsel|]. split; [|split; [exact Hkeep|split]].
  - intros n Hn. rewrite !(agentFile_eject options fs d _ Hd).
    split.
    + replace (existsb _ (ejectedNames options d)) with true; [reflexivity|].
      symmetry. apply existsb_exists. exists n. split; [exact Hn|].
      now rewrite eqb_refl.
    + replace (existsb _ (ejectedNames options d)) with true; [reflexivity|].
      symmetry. apply existsb_exists. exists n. split; [exact Hn|].
      now rewrite eqb_refl, orb_true_r.
  - intros id other n c Hid Htr Hn Hc Ho Hne.
    rewrite <- Hc. apply Hkeep.
    + intros Hin. apply Hsel in Hin as [_ (c' & Hc' & Ht)].
      rewrite Hid, Htr in Ht. congruence.
    + intros m _. now apply artifact_not_backup.
  - intros n c Hn Hc Hu.
    rewrite <- Hc. apply Hkeep.
    + intros Hin. apply Hsel in Hin as [_ (c' & Hc' & Ht)].
      assert (c' = c) by congruence. subst c'.
      pose proof (unmarked_no_owner c Hu) as Hnone.
      unfold ownerOf in Ht. rewrite Hnone in Ht. simpl in Ht.
      destruct (workflowId options) as [id|]; [destruct (truthy id)|];
        congruence.
    + intros m _. now apply artifact_not_backup.
Qed.

(** C1. Of the files of the agents directory, [eject] removes the artifacts
    it selects, with their [.btw-backup] siblings, and leaves every other
    entry as it was. With a workflow id, the selected artifacts are the
    readable [.md] files whose [# workflow:] marker names that id; without
    one, the readable [.md] files that carry a BTW marker. So an artifact
    whose marker names another workflow, and an artifact without any BTW
    marker, are found after the call with the content they had. *)
Theorem eject_removes_only_owned (options : EjectOptions) (fs : FS) :
  (forall n,
     In n (ejectedNames options (listing fs)) <->
     skipped n = false
     /\ exists c, agentFile fs n = Some (File c)
                  /\ match workflowId options with
                     | Some id =>
                         if truthy id then ownerOf c = Some id
                         else isBtwContent c = true
                     | None => isBtwContent c = true
                     end)
  /\ (forall n,
        In n (ejectedNames options (listing fs)) ->
        agentFile (snd (eject options fs)) n = None
        /\ agentFile (snd (eject options fs)) (backupName n) = None)
  /\ (forall n,
        ~ In n (ejectedNames options (listing fs)) ->
        (forall m, In m (ejectedNames options (listing fs)) -> n <> backupName m) ->
        agentFile (snd (eject options fs)) n = agentFile fs n)
  /\ (forall id other n c,
        workflowId options = Some id -> truthy id = true ->
        skipped n = false ->
        agentFile fs n = Some (File c) ->
        ownerOf c = Some other -> other <> id ->
        agentFile (snd (eject options fs)) n = Some (File c))
  /\ (forall n c,
        skipped n = false ->
        agentFile fs n = Some (File c) ->
        isBtwContent c = false ->
        agentFile (snd (eject options fs)) n = Some (File c)).
Proof.
  unfold listing. destruct (agents fs) as [d|] eqn:Hd.
  - apply (eject_frame_listed options fs d Hd).
  - assert (Hbefore : forall n, agentFile fs n = None).
    { intros n. unfold agentFile. now rewrite Hd. }
    assert (Hafter : forall n, agentFile (snd (eject options fs)) n = None).
    { intros n. unfold agentFile. now rewrite eject_agents, Hd. }
    split; [|split; [|split; [|split]]].
    + intros n. split; [intros []|].
      intros [_ (c & Hc & _)]. rewrite Hbefore in Hc. discriminate.
    + intros n [].
    + intros n _ _. now rewrite Hbefore, Hafter.
    + intros id other n c _ _ _ Hc. rewrite Hbefore in Hc. discriminate.
    + intros n c _ Hc. rewrite Hbefore in Hc. discriminate.
Qed.

Lemma eject_removes_only_owned_witness :
  agentFile
    (snd (eject (mkEjectOptions (Some (lit "demo")) false) Scenario.afterBoth))
    (lit "writer.md") = None
  /\ agentFile
       (snd (eject (mkEjectOptions (Some (lit "demo")) false) Scenario.afterBoth))
       (lit "reader.md") = Some (File Scenario.readerFile).
Proof.
  destruct (eject_removes_only_owned
              (mkEjectOptions (Some (lit "demo")) false) Scenario.afterBoth)
    as (_ & Hgone & _ & Hother & _).
  split.
  - apply Hgone. vm_compute. left. reflexivity.
  - apply (Hother (lit "demo") (lit "other")).
    + reflexivity.
    + reflexivity.
    + vm_compute. reflexivity.
    + vm_compute. reflexivity.
    + vm_compute. reflexivity.
    + discriminate.
Defined.

End EjectFrame.

(* ================================================================== *)
(** * Injection followed by ejection *)
(* ================================================================== *)

Section RoundTrip.

Import ClaudeStrategy.

Lemma spares_ret {A} (a : A) : sparesDocument (ret a).
Proof. intros fs. reflexivity. Qed.

Lemma spares_throw {A} (e : exn) : sparesDocument (@throw FS A e).
Proof. intros fs. reflexivity. Qed.

Lemma spares_bind {A B} (m : M FS A) (k : A -> M FS B) :
  sparesDocument m -> (forall a, sparesDocument (k a)) -> sparesDocument (bind m k).
Proof.
  intros Hm Hk fs. rewrite snd_bind_any. specialize (Hm fs).
  destruct (m fs) as [[a|e] fs']; simpl in Hm; [|exact Hm].
  now rewrite Hk.
Qed.

Lemma spares_tryCatch {A} (m : M FS A) (h : exn -> M FS A) :
  sparesDocument m -> (forall e, sparesDocument (h e)) ->
  sparesDocument (tryCatch m h).
Proof.
  intros Hm Hh fs. unfold tryCatch. specialize (Hm fs).
  destruct (m fs) as [[a|e] fs']; simpl in Hm; [exact Hm|].
  now rewrite Hh.
Qed.

Lemma spares_forEach {A} (xs : list A) (body : A -> M FS unit) :
  (forall x, sparesDocument (body x)) -> sparesDocument (forEach xs body).
Proof.
  intros H. induction xs as [|x xs IH]; simpl.
  - apply spares_ret.
  - apply spares_bind; [apply H | intros _; exact IH].
Qed.

Lemma spares_foldM {A B} (body : B -> A -> M FS B) (xs : list A) (acc : B) :
  (forall b x, sparesDocument (body b x)) -> sparesDocument (foldM body xs acc).
Proof.
  intros H. revert acc. induction xs as [|x xs IH]; intros acc; simpl.
  - apply spares_ret.
  - apply spares_bind; [apply H | intros b; apply IH].
Qed.

Lemma spares_readonly {A} (m : M FS A) :
  (forall fs, snd (m fs) = fs) -> sparesDocument m.
Proof. intros H fs. now rewrite H. Qed.

Lemma spares_mkdir (p : path) : sparesDocument (fileSystem.mkdir p).
Proof.
  intros fs. unfold fileSystem.mkdir.
  destruct p; try reflexivity.
  - now destruct (dotClaude fs).
  - destruct (agents fs); [reflexivity|]. apply claudeMd_set_agents.
Qed.

Lemma spares_readFile (p : path) : sparesDocument (fileSystem.readFile p).
Proof.
  apply spares_readonly. intros fs. unfold fileSystem.readFile.
  destruct p; try reflexivity.
  - destruct (agents fs) as [d|]; [|reflexivity].
    now destruct (lookup name d) as [[c|]|].
  - now destruct (claudeMd fs) as [[c|]|].
Qed.

Lemma spares_writeAgent (n content : jstring) (b : bool) :
  sparesDocument (fileSystem.writeFile (AgentFileP n) content b).
Proof.
  intros fs. unfold fileSystem.writeFile.
  destruct (agents fs) as [d|].
  - destruct (lookup n d) as [[c|]|]; try reflexivity; apply claudeMd_set_agents.
  - destruct b; [apply claudeMd_set_agents | reflexivity].
Qed.

Lemma spares_removeAgent (n : jstring) (b : bool) :
  sparesDocument (fileSystem.remove (AgentFileP n) b).
Proof.
  intros fs. unfold fileSystem.remove.
  destruct (agents fs); [apply claudeMd_set_agents | reflexivity].
Qed.

Lemma spares_backupAgent (n : jstring) :
  sparesDocument (fileSystem.backup (AgentFileP n)).
Proof.
  unfold fileSystem.backup. apply spares_bind; [apply spares_readFile|].
  intros c. apply spares_bind; [apply spares_writeAgent|].
  intros _. apply spares_ret.
Qed.

Lemma spares_findBtwAgentsForWorkflow (id : jstring) :
  sparesDocument (findBtwAgentsForWorkflow AgentsDirP id).
Proof.
  apply spares_readonly. intros fs.
  destruct (agents fs) as [d|] eqn:Hd.
  - now rewrite (findBtwAgentsForWorkflow_pure fs d id Hd).
  - now rewrite (findBtwAgentsForWorkflow_none fs id Hd).
Qed.

(** What a scan of the workflow collects is a list of agent files. *)
Lemma findBtwAgentsForWorkflow_paths (id : jstring) (fs : FS) :
  exists names,
    findBtwAgentsForWorkflow AgentsDirP id fs = (Ok (map AgentFileP names), fs).
Proof.
  destruct (agents fs) as [d|] eqn:Hd.
  - eexists. apply (findBtwAgentsForWorkflow_pure fs d id Hd).
  - exists []. apply (findBtwAgentsForWorkflow_none fs id Hd).
Qed.

Lemma spares_over_scan {A} (id : jstring) (k : list path -> M FS A) :
  (forall names, sparesDocument (k (map AgentFileP names))) ->
  sparesDocument (bind (findBtwAgentsForWorkflow AgentsDirP id) k).
Proof.
  intros H fs. destruct (findBtwAgentsForWorkflow_paths id fs) as [names Hn].
  rewrite (bind_step _ _ _ _ _ Hn). apply H.
Qed.

Lemma spares_createDirectories : sparesDocument createDirectories.
Proof.
  apply spares_bind; [apply spares_mkdir | intros _; apply spares_mkdir].
Qed.

Lemma spares_checkNotInjected (manifest : Manifest) (options : InjectOptions) :
  sparesDocument (checkNotInjected manifest options).
Proof.
  unfold checkNotInjected. destruct (negb (force options)); [|apply spares_ret].
  apply spares_bind.
  - apply spares_readonly. intros fs. now rewrite isWorkflowInjected_pure.
  - intros []; [apply spares_throw | apply spares_ret].
Qed.

Lemma spares_backupExistingAgents (manifest : Manifest) (options : InjectOptions) :
  sparesDocument (backupExistingAgents manifest options).
Proof.
  unfold backupExistingAgents, agentsPath.
  destruct (backup options); [|apply spares_ret].
  apply spares_over_scan. intros names.
  generalize false. induction names as [|n names IH]; intros created; simpl.
  - apply spares_ret.
  - apply spares_bind; [|intros b; apply IH].
    apply spares_tryCatch; [|intros _; apply spares_ret].
    apply spares_bind; [apply spares_backupAgent | intros _; apply spares_ret].
Qed.

Lemma spares_removeExistingAgents (manifest : Manifest) (options : InjectOptions) :
  sparesDocument (removeExistingAgents manifest options).
Proof.
  unfold removeExistingAgents, agentsPath.
  destruct (force options); [|apply spares_ret].
  apply spares_over_scan. intros names.
  induction names as [|n names IH]; simpl.
  - apply spares_ret.
  - apply spares_bind; [apply spares_removeAgent | intros _; exact IH].
Qed.

Lemma spares_createAgentFiles (now : jstring) (manifest : Manifest) :
  sparesDocument (createAgentFiles now manifest).
Proof.
  unfold createAgentFiles. apply spares_foldM. intros paths agent.
  apply spares_bind; [apply spares_writeAgent | intros _; apply spares_ret].
Qed.

Lemma bind_inv_ok {A B} (m : M FS A) (k : A -> M FS B) (fs fs2 : FS) (b : B) :
  bind m k fs = (Ok b, fs2) ->
  exists a fs1, m fs = (Ok a, fs1) /\ k a fs1 = (Ok b, fs2).
Proof.
  unfold bind. destruct (m fs) as [[a|e] fs1]; [|discriminate].
  intros H. now exists a, fs1.
Qed.

Lemma rethrow_inv_ok {A} (m : M FS A) (prefix : jstring) (fs fs' : FS) (a : A) :
  tryCatch m (rethrow prefix) fs = (Ok a, fs') -> m fs = (Ok a, fs').
Proof.
  unfold tryCatch, rethrow. destruct (m fs) as [[a'|e] fs1]; [tauto|].
  destruct e; discriminate.
Qed.

(** A successful injection without [merge] into a project without
    [CLAUDE.md] writes the generated region as the whole document. *)
Lemma inject_creates_document (now : jstring) (manifest : Manifest)
    (options : InjectOptions) (fs fs1 : FS) (result : InjectionResult) :
  claudeMd fs = None ->
  inject now manifest options fs = (Ok result, fs1) ->
  claudeMd fs1 = Some (File (generateInstructions now manifest)).
Proof.
  intros Hnone Hrun. unfold inject in Hrun.
  apply rethrow_inv_ok in Hrun.
  apply bind_inv_ok in Hrun as ([] & s1 & H1 & Hrun).
  apply bind_inv_ok in Hrun as ([] & s2 & H2 & Hrun).
  apply bind_inv_ok in Hrun as (created & s3 & H3 & Hrun).
  apply bind_inv_ok in Hrun as ([] & s4 & H4 & Hrun).
  apply bind_inv_ok in Hrun as (paths & s5 & H5 & Hrun).
  apply bind_inv_ok in Hrun as ([] & s6 & H6 & Hrun).
  injection Hrun as _ <-.
  assert (Hs5 : claudeMd s5 = None).
  { pose proof (spares_createDirectories fs) as E1. rewrite H1 in E1.
    pose proof (spares_checkNotInjected manifest options s1) as E2. rewrite H2 in E2.
    pose proof (spares_backupExistingAgents manifest options s2) as E3. rewrite H3 in E3.
    pose proof (spares_removeExistingAgents manifest options s3) as E4. rewrite H4 in E4.
    pose proof (spares_createAgentFiles now manifest s4) as E5. rewrite H5 in E5.
    simpl in *. congruence. }
  unfold updateClaudeMd, instructionsPath, bind, fileSystem.exists_ in H6.
  simpl in H6. rewrite Hs5 in H6. simpl in H6.
  rewrite andb_false_r in H6. simpl in H6.
  unfold fileSystem.writeFile in H6. rewrite Hs5 in H6.
  injection H6 as <-. reflexivity.
Qed.

Lemma removeClaudeDirIfEmpty_spec (b : bool) (fs : FS) :
  exists fs',
    when b removeClaudeDirIfEmpty fs = (Ok tt, fs') /\ claudeMd fs' = claudeMd fs.
Proof.
  unfold removeClaudeDirIfEmpty, when, tryCatch, bind, claudeDir,
    fileSystem.readdir, fileSystem.remove.
  destruct b; [|now exists fs].
  destruct (dotClaude fs) as [c|]; [|now exists fs].
  destruct (_ ++ _); simpl; eexists; split; reflexivity.
Qed.

(** What [eject] does to a readable [CLAUDE.md] it is to clean. *)
Lemma eject_document (options : EjectOptions) (fs : FS) (content : jstring) :
  claudeMd fs = Some (File content) ->
  shouldCleanClaudeMd options content = true ->
  exists fs',
    eject options fs = (Ok tt, fs')
    /\ claudeMd fs'
       = if truthy (trim (removeBtwContent content))
         then Some (File (trim (removeBtwContent content) ++ [LF]))
         else None.
Proof.
  intros Hfile Hclean. unfold eject.
  destruct (removeAgentFiles_spec options fs) as (fs1 & H1 & _ & Hc1).
  rewrite Hfile in Hc1.
  assert (H2 : exists fs2,
    cleanClaudeMd options fs1 = (Ok tt, fs2)
    /\ claudeMd fs2
       = if truthy (trim (removeBtwContent content))
         then Some (File (trim (removeBtwContent content) ++ [LF]))
         else None).
  { unfold cleanClaudeMd, instructionsPath.
    rewrite (bind_step _ _ _ _ _ (exists_instructions fs1 _ Hc1)).
    unfold when at 1.
    rewrite (bind_step _ _ _ _ _ (read_instructions fs1 _ Hc1)).
    rewrite Hclean. unfold when. cbv zeta.
    destruct (truthy (trim (removeBtwContent content))).
    - rewrite (write_instructions fs1 _ _ Hc1). eexists. split; reflexivity.
    - eexists. split; reflexivity. }
  destruct H2 as (fs2 & H2 & Hc2).
  destruct (removeClaudeDirIfEmpty_spec (clean options) fs2) as (fs3 & H3 & Hc3).
  exists fs3. split; [|congruence].
  apply tryCatch_ok.
  rewrite (bind_step _ _ _ _ _ H1), (bind_step _ _ _ _ _ H2). exact H3.
Qed.

Lemma join_cons (sep a b : jstring) (rest : list jstring) :
  join sep (a :: b :: rest) = a ++ sep ++ join sep (b :: rest).
Proof. reflexivity. Qed.

(** The generated region opens with the start sentinel and the marker. *)
Lemma generateInstructions_opening (now : jstring) (manifest : Manifest) :
  exists rest,
    generateInstructions now manifest
    = BTW_START_MARKER ++ [LF] ++ createMarker now (m_id manifest) ++ [LF] ++ rest.
Proof.
  unfold generateInstructions. cbn [app]. rewrite !join_cons.
  eexists. reflexivity.
Qed.

Lemma generateInstructions_marker (now : jstring) (manifest : Manifest) :
  includes (lit "BTW:" ++ m_id manifest ++ lit ":")
           (generateInstructions now manifest) = true.
Proof.
  destruct (generateInstructions_opening now manifest) as [rest ->].
  unfold createMarker.
  replace (BTW_START_MARKER ++ [LF]
           ++ (lit "<!-- BTW:" ++ m_id manifest ++ lit ":" ++ now ++ lit " -->")
           ++ [LF] ++ rest)
    with ((BTW_START_MARKER ++ [LF] ++ lit "<!-- ")
          ++ (lit "BTW:" ++ m_id manifest ++ lit ":")
          ++ (now ++ lit " -->" ++ [LF] ++ rest)).
  - apply includes_app.
  - change (lit "<!-- BTW:") with (lit "<!-- " ++ lit "BTW:").
    now rewrite <- !app_assoc.
Qed.

(** A region that is closed only at its end is cut out whole. *)
Lemma removeBtwContent_region (now : jstring) (manifest : Manifest) :
  closedOnlyAtEnd (generateInstructions now manifest) ->
  removeBtwContent (generateInstructions now manifest) = [].
Proof.
  intros Hend.
  destruct (generateInstructions_opening now manifest) as [rest Hr].
  set (region := generateInstructions now manifest) in *.
  assert (Hlen : 18 < length region).
  { rewrite Hr, !length_app. simpl. lia. }
  assert (Hloc : locate region
                 = Some (0, length region - length BTW_END_MARKER)).
  { apply locate_iff. split; [|split].
    - apply indexOf_startsWith. rewrite Hr. apply startsWith_app.
    - exact Hend.
    - simpl. lia. }
  rewrite removeBtwContent_locate, Hloc. unfold aroundRegion.
  replace (length region - length BTW_END_MARKER + length BTW_END_MARKER)
    with (length region) by (simpl; lia).
  now rewrite skipn_all.
Qed.

(** C7, as the code has it. After a successful injection into a project
    that had no [CLAUDE.md], the document is the generated region; if the
    end sentinel occurs in that region only as its last line, an ejection
    of all workflows, or of the injected workflow, then removes the file.
    In general, when [eject] is to clean a readable [CLAUDE.md], it removes
    the file if the document without its region is blank, and writes the
    trimmed rest and a newline otherwise. *)
Theorem inject_then_eject_deletes_document :
  (forall now manifest options ejectOptions fs fs1 result,
     claudeMd fs = None ->
     inject now manifest options fs = (Ok result, fs1) ->
     workflowId ejectOptions = None
     \/ workflowId ejectOptions = Some (m_id manifest) ->
     closedOnlyAtEnd (generateInstructions now manifest) ->
     claudeMd fs1 = Some (File (generateInstructions now manifest))
     /\ exists fs2, eject ejectOptions fs1 = (Ok tt, fs2) /\ claudeMd fs2 = None)
  /\ (forall options fs content,
        claudeMd fs = Some (File content) ->
        shouldCleanClaudeMd options content = true ->
        exists fs',
          eject options fs = (Ok tt, fs')
          /\ (trim (removeBtwContent content) = [] -> claudeMd fs' = None)
          /\ (trim (removeBtwContent content) <> [] ->
              claudeMd fs'
              = Some (File (trim (removeBtwContent content) ++ [LF])))).
Proof.
  split.
  - intros now manifest options ejectOptions fs fs1 result Hnone Hrun Hid Hend.
    pose proof (inject_creates_document now manifest options fs fs1 result
                  Hnone Hrun) as Hdoc.
    split; [exact Hdoc|].
    assert (Hclean : shouldCleanClaudeMd ejectOptions
                       (generateInstructions now manifest) = true).
    { unfold shouldCleanClaudeMd. destruct Hid as [-> | ->]; [reflexivity|].
      rewrite generateInstructions_marker. apply orb_true_r. }
    destruct (eject_document ejectOptions fs1 _ Hdoc Hclean) as (fs2 & H2 & Hc2).
    exists fs2. split; [exact H2|].
    now rewrite (removeBtwContent_region now manifest Hend) in Hc2.
  - intros options fs content Hfile Hclean.
    destruct (eject_document options fs content Hfile Hclean) as (fs' & H & Hc).
    exists fs'. split; [exact H|]. split; intros Ht.
    + now rewrite Ht in Hc.
    + apply truthy_true_iff in Ht. now rewrite Ht in Hc.
Qed.

Lemma inject_then_eject_deletes_document_witness :
  claudeMd Scenario.afterDemo
  = Some (File (generateInstructions Scenario.now Scenario.demo))
  /\ exists fs2,
       eject (mkEjectOptions (Some (lit "demo")) false) Scenario.afterDemo
       = (Ok tt, fs2)
       /\ claudeMd fs2 = None.
Proof.
  apply (proj1 inject_then_eject_deletes_document
           Scenario.now Scenario.demo Scenario.plain
           (mkEjectOptions (Some (lit "demo")) false)
           Scenario.emptyProject Scenario.afterDemo
           (mkInjectionResult claude InstructionsP [AgentFileP (lit "writer.md")]
              1 false None)).
  - reflexivity.
  - vm_compute. reflexivity.
  - right. reflexivity.
  - vm_compute. reflexivity.
Defined.

(** C7, as stated, fails: for a manifest whose description holds the text
    of the end sentinel, injection into an empty project followed by the
    ejection of all workflows leaves [CLAUDE.md] in place, with the part of
    the region after that text as its content. *)
Lemma round_trip_keeps_document :
  claudeMd Scenario.emptyProject = None
  /\ (exists result fs1 fs2,
        inject Scenario.now Scenario.sentinelInside Scenario.plain
          Scenario.emptyProject = (Ok result, fs1)
        /\ eject (mkEjectOptions None false) fs1 = (Ok tt, fs2)
        /\ exists content,
             claudeMd fs2 = Some (File content)
             /\ startsWith (lit "x") content = true).
Proof.
  split; [reflexivity|].
  eexists. eexists. eexists.
  split; [vm_compute; reflexivity|].
  split; [vm_compute; reflexivity|].
  eexists. split; reflexivity.
Qed.

End RoundTrip.

(* ================================================================== *)
(** * The status *)
(* ================================================================== *)

Section Status.

Import ClaudeStrategy.

Lemma anyBackup_pure (fs : FS) (d : dir) (names : list jstring) :
  agents fs = Some d ->
  anyBackup (map AgentFileP names) fs
  = (Ok (existsb (fun n => isSome (lookup (backupName n) d)) names), fs).
Proof.
  intros Hd. induction names as [|n names IH]; simpl; [reflexivity|].
  unfold bind, fileSystem.exists_. simpl. rewrite Hd.
  unfold backupName. destruct (isSome (lookup (n ++ lit ".btw-backup") d)).
  - reflexivity.
  - exact IH.
Qed.

(** [getStatus] never throws, changes nothing, and answers with a function
    of the agents directory. *)
Lemma getStatus_pure (fs : FS) :
  getStatus fs = (Ok (statusOf (agents fs)), fs).
Proof.
  unfold getStatus, statusOf, agentsPath.
  destruct (agents fs) as [d|] eqn:Hd.
  - apply tryCatch_ok.
    rewrite (bind_step _ _ _ _ _ (findBtwAgents_pure fs d Hd)).
    destruct (selectedNames isBtwContent d) as [|n names] eqn:Hsel;
      [reflexivity|].
    cbn [map length Nat.eqb].
    unfold getWorkflowIdFromAgents.
    eapply bind_ok.
    { eapply bind_ok; [apply (getAllWorkflowIdsFromAgents_pure fs d Hd)|].
      reflexivity. }
    eapply bind_ok.
    { apply (anyBackup_pure fs d (n :: names) Hd). }
    reflexivity.
  - apply tryCatch_ok.
    rewrite (bind_step _ _ _ _ _ (findBtwAgents_none fs Hd)). reflexivity.
Qed.

Lemma selected_iff (test : jstring -> bool) (d : dir) (n : jstring) :
  In n (selectedNames test d) <->
  skipped n = false /\ exists c, lookup n d = Some (File c) /\ test c = true.
Proof.
  unfold selectedNames, keeps. rewrite filter_In. split.
  - intros [_ H]. apply andb_true_iff in H as [H1 H2].
    apply negb_true_iff in H1. split; [exact H1|].
    destruct (lookup n d) as [[c|]|]; try discriminate. now exists c.
  - intros [H1 (c & Hc & Ht)]. split; [now apply (lookup_In n d (File c))|].
    now rewrite H1, Hc.
Qed.

Lemma statusOf_injected (d : dir) :
  isInjected (statusOf (Some d)) = true <->
  exists n c, skipped n = false /\ lookup n d = Some (File c)
              /\ isBtwContent c = true.
Proof.
  unfold statusOf.
  destruct (selectedNames isBtwContent d) as [|n names] eqn:Hsel; simpl.
  - split; [discriminate|]. intros (n & c & Hn & Hc & Ht).
    assert (Hin : In n (selectedNames isBtwContent d)).
    { apply selected_iff. split; [exact Hn|]. now exists c. }
    rewrite Hsel in Hin. destruct Hin.
  - split; [|reflexivity]. intros _.
    assert (Hin : In n (selectedNames isBtwContent d)).
    { rewrite Hsel. now left. }
    apply selected_iff in Hin as [Hn (c & Hc & Ht)]. now exists n, c.
Qed.

Lemma statusOf_backup (d : dir) :
  hasBackup (statusOf (Some d)) = true <->
  exists n c, skipped n = false /\ lookup n d = Some (File c)
              /\ isBtwContent c = true /\ lookup (backupName n) d <> None.
Proof.
  unfold statusOf.
  destruct (selectedNames isBtwContent d) as [|n0 names] eqn:Hsel.
  - simpl. split; [discriminate|]. intros (n & c & Hn & Hc & Ht & _).
    assert (Hin : In n (selectedNames isBtwContent d)).
    { apply selected_iff. split; [exact Hn|]. now exists c. }
    rewrite Hsel in Hin. destruct Hin.
  - cbn [hasBackup]. rewrite <- Hsel. rewrite existsb_exists. split.
    + intros (n & Hin & Hb). apply selected_iff in Hin as [Hn (c & Hc & Ht)].
      exists n, c. repeat split; try assumption.
      intros E. rewrite E in Hb. discriminate.
    + intros (n & c & Hn & Hc & Ht & Hb). exists n. split.
      * apply selected_iff. split; [exact Hn|]. now exists c.
      * destruct (lookup (backupName n) d); [reflexivity | contradiction].
Qed.

(** Every id a scan collects is the marker of a readable artifact. *)
Lemma collectIds_origin (d : dir) (names ids : list jstring) (id : jstring) :
  In id (collectIds d names ids) ->
  In id ids
  \/ exists n c, skipped n = false /\ lookup n d = Some (File c)
                 /\ ownerOf c = Some id.
Proof.
  revert ids. induction names as [|n names IH]; intros ids; simpl; [tauto|].
  intros H. apply IH in H as [H | H]; [|now right].
  destruct (skipped n) eqn:Hn; [now left|].
  destruct (lookup n d) as [[c|]|] eqn:Hc; try (now left).
  destruct (ownerOf c) as [id'|] eqn:Ho; [|now left].
  unfold setAdd in H. destruct (existsb (JS.eqb id') ids); [now left|].
  apply in_app_iff in H as [H | [<- | []]]; [now left|].
  right. now exists n, c.
Qed.

(** C9, as the code has it. [getStatus] never throws and changes nothing.
    When the listing of the agents directory fails, the status is
    [{isInjected: false, hasBackup: false}]; a file that cannot be read is
    passed over, and the other files still count. The status is injected
    exactly when a readable artifact carries a BTW marker, a reported
    workflow id is the [# workflow:] marker of a readable artifact, and
    nothing outside the agents directory is looked at. *)
Theorem getStatus_total_and_derived :
  (forall fs, exists status, getStatus fs = (Ok status, fs))
  /\ (forall fs e,
        fst (fileSystem.readdir agentsPath fs) = Throw e ->
        getStatus fs = (Ok notInjected, fs))
  /\ (forall fs status,
        fst (getStatus fs) = Ok status ->
        (isInjected status = true <->
         exists n c, skipped n = false /\ agentFile fs n = Some (File c)
                     /\ isBtwContent c = true)
        /\ (forall id, status_workflowId status = Some id ->
              exists n c, skipped n = false /\ agentFile fs n = Some (File c)
                          /\ ownerOf c = Some id)
        /\ (hasBackup status = true <->
            exists n c, skipped n = false /\ agentFile fs n = Some (File c)
                        /\ isBtwContent c = true
                        /\ agentFile fs (backupName n) <> None))
  /\ (forall fs fs',
        agents fs = agents fs' -> fst (getStatus fs) = fst (getStatus fs')).
Proof.
  split; [|split; [|split]].
  - intros fs. eexists. apply getStatus_pure.
  - intros fs e H. rewrite getStatus_pure.
    unfold fileSystem.readdir, agentsPath in H.
    destruct (agents fs); [discriminate | reflexivity].
  - intros fs status. rewrite getStatus_pure. simpl. intros [= <-].
    unfold agentFile. destruct (agents fs) as [d|] eqn:Hd.
    + split; [apply statusOf_injected|]. split; [|apply statusOf_backup].
      intros id. unfold statusOf.
      destruct (selectedNames isBtwContent d); [discriminate|]. simpl.
      destruct (collectIds d (map fst d) []) as [|id' ids] eqn:Hids;
        [discriminate|].
      unfold orUndefined. simpl.
      destruct (truthy id'); [|discriminate]. intros [= <-].
      destruct (collectIds_origin d (map fst d) [] id') as [[] | H];
        [rewrite Hids; now left | exact H].
    + simpl. split; [|split; [discriminate|]].
      * split; [discriminate | intros (n & c & _ & H & _); discriminate].
      * split; [discriminate | intros (n & c & _ & H & _); discriminate].
  - intros fs fs' H. now rewrite !getStatus_pure, H.
Qed.

Lemma getStatus_total_and_derived_witness :
  (isInjected (mkStatus true (Some (lit "demo")) false) = true <->
   exists n c, skipped n = false /\ agentFile Scenario.oneUnreadable n = Some (File c)
               /\ isBtwContent c = true)
  /\ (forall id, status_workflowId (mkStatus true (Some (lit "demo")) false) = Some id ->
        exists n c, skipped n = false /\ agentFile Scenario.oneUnreadable n = Some (File c)
                    /\ ownerOf c = Some id)
  /\ (hasBackup (mkStatus true (Some (lit "demo")) false) = true <->
      exists n c, skipped n = false /\ agentFile Scenario.oneUnreadable n = Some (File c)
                  /\ isBtwContent c = true
                  /\ agentFile Scenario.oneUnreadable (backupName n) <> None).
Proof.
  apply (proj1 (proj2 (proj2 getStatus_total_and_derived)) Scenario.oneUnreadable).
  reflexivity.
Defined.

(** C9, as stated, fails: the read of [bad.md] fails, and the status is
    injected all the same, owing to [good.md]. *)
Lemma unreadable_file_does_not_degrade :
  (exists e, fst (fileSystem.readFile (AgentFileP (lit "bad.md")) Scenario.oneUnreadable)
             = Throw e)
  /\ getStatus Scenario.oneUnreadable
     = (Ok (mkStatus true (Some (lit "demo")) false), Scenario.oneUnreadable)
  /\ mkStatus true (Some (lit "demo")) false <> notInjected.
Proof.
  split; [eexists; reflexivity|]. split; [reflexivity | discriminate].
Qed.

Lemma lookup_NoDup (d : dir) (k : jstring) (v : node) :
  NoDup (map fst d) -> In (k, v) d -> lookup k d = Some v.
Proof.
  induction d as [|[k' v'] d IH]; simpl; [tauto|].
  intros Hnd [H | H].
  - injection H as -> ->. now rewrite eqb_refl.
  - inversion Hnd as [|? ? Hnotin Hnd']; subst.
    destruct (JS.eqb k' k) eqn:E.
    + apply eqb_eq in E. subst k'. exfalso. apply Hnotin.
      apply (in_map fst) in H. exact H.
    + now apply IH.
Qed.

Lemma collectIds_head (d : dir) (names ids : list jstring) (id : jstring) :
  exists rest, collectIds d names (id :: ids) = id :: rest.
Proof.
  revert ids. induction names as [|n names IH]; intros ids; simpl.
  - now exists ids.
  - destruct (skipped n); [apply IH|].
    destruct (lookup n d) as [[c|]|]; try apply IH.
    destruct (ownerOf c) as [id'|]; [|apply IH].
    unfold setAdd. destruct (existsb (JS.eqb id') (id :: ids)); apply IH.
Qed.

(** The entries of the listing a scan for owners gets nothing from. *)
Lemma collectIds_silent (d : dir) (names ids : list jstring) (rest : list jstring) :
  (forall k, In k names ->
     skipped k = true
     \/ lookup k d = Some Unreadable
     \/ exists c, lookup k d = Some (File c) /\ ownerOf c = None) ->
  collectIds d (names ++ rest) ids = collectIds d rest ids.
Proof.
  revert ids. induction names as [|n names IH]; intros ids H; simpl;
    [reflexivity|].
  rewrite IH by (intros k Hk; apply H; now right).
  f_equal.
  destruct (H n (or_introl eq_refl)) as [Hs | [Hu | (c & Hc & Ho)]].
  - now rewrite Hs.
  - rewrite Hu. now destruct (skipped n).
  - rewrite Hc, Ho. now destruct (skipped n).
Qed.

Lemma statusItems (now : jstring) (installed : list Manifest) (fs : FS)
    (status : InjectionStatus) :
  getStatus fs = (Ok status, fs) ->
  forall (manifests : list Manifest) (items : list ListItem) (P : ListItem -> Prop),
    Forall P items ->
    (forall manifest,
       P (mkListItem (m_id manifest) (m_name manifest) (m_description manifest)
            (isInjected status &&
             match status_workflowId status with
             | Some id => JS.eqb id (m_id manifest)
             | None => false
             end) manifest)) ->
    exists items',
      foldM (fun items manifest =>
               if negb (existsb (AITarget_eqb claude) (m_targets manifest))
               then ret items
               else tryCatch
                      (status <- engine_getStatus (fsCollaborators now installed)
                                   claude ;;
                       let isInjected :=
                         isInjected status &&
                         match status_workflowId status with
                         | Some id => JS.eqb id (m_id manifest)
                         | None => false
                         end in
                       ret (items ++ [mkListItem (m_id manifest) (m_name manifest)
                                        (m_description manifest) isInjected manifest]))
                      (fun _ => ret items))
            manifests items fs = (Ok items', fs)
      /\ Forall P items'.
Proof.
  intros Hst manifests. induction manifests as [|m manifests IH];
    intros items P Hitems HP; simpl.
  - now exists items.
  - destruct (negb (existsb (AITarget_eqb claude) (m_targets m))).
    + unfold bind at 1. simpl. apply IH; assumption.
    + unfold bind at 1, tryCatch at 1. simpl.
      unfold InjectionEngine.getStatus. simpl.
      rewrite (bind_step _ _ _ _ _ Hst). simpl.
      apply IH; [|exact HP].
      apply Forall_app. split; [exact Hitems|].
      constructor; [apply HP | constructor].
Qed.

(** C10. When the first artifact of the listing that carries a
    [# workflow:] marker names the (non-empty) id [id], [getStatus] reports
    [isInjected: true] with that one id as [workflowId], whatever the
    markers of the artifacts listed after it; the status holds one id at
    most, so the list of the interactive mode shows as injected the
    workflow of that id and no other. *)
Theorem getStatus_reports_first_owner
    (fs : FS) (before after : dir) (name content id : jstring) :
  agents fs = Some (before ++ (name, File content) :: after) ->
  NoDup (map fst (before ++ (name, File content) :: after)) ->
  (forall k v, In (k, v) before ->
     skipped k = true \/ v = Unreadable
     \/ exists c, v = File c /\ ownerOf c = None) ->
  skipped name = false ->
  ownerOf content = Some id ->
  id <> [] ->
  (exists status,
     getStatus fs = (Ok status, fs)
     /\ isInjected status = true
     /\ status_workflowId status = Some id
     /\ forall other, other <> id -> status_workflowId status <> Some other)
  /\ (forall now installed,
        exists items,
          getAllWorkflowsWithStatus (fsCollaborators now installed) claude fs
          = (Ok items, fs)
          /\ Forall (fun item => isActive item = JS.eqb id (item_id item)) items).
Proof.
  intros Hd Hnd Hbefore Hname Howner Hid.
  set (d := before ++ (name, File content) :: after) in *.
  assert (Hlook : forall k v, In (k, v) d -> lookup k d = Some v).
  { intros k v. now apply lookup_NoDup. }
  assert (Hids : exists rest, collectIds d (map fst d) [] = id :: rest).
  { unfold d at 2. rewrite map_app. rewrite collectIds_silent.
    - simpl. rewrite Hname.
      rewrite (Hlook name (File content)) by (apply in_elt).
      rewrite Howner. apply collectIds_head.
    - intros k Hk. apply in_map_iff in Hk as ([k' v] & <- & Hin). simpl.
      assert (Hl : lookup k' d = Some v).
      { apply Hlook. apply in_or_app. now left. }
      destruct (Hbefore k' v Hin) as [H | [-> | (c & -> & H)]].
      + now left.
      + right. now left.
      + right. right. now exists c. }
  destruct Hids as [rest Hids].
  assert (Hsel : In name (selectedNames isBtwContent d)).
  { apply selected_iff. split; [exact Hname|]. exists content.
    split; [apply Hlook, in_elt|].
    unfold ownerOf in Howner.
    destruct (matchWorkflow content) as [capture|] eqn:Hm; [|discriminate].
    unfold isBtwContent. rewrite (matchWorkflow_includes content capture Hm).
    apply orb_true_r. }
  assert (Hstatus : exists backedUp,
            statusOf (Some d) = mkStatus true (Some id) backedUp).
  { unfold statusOf. destruct (selectedNames isBtwContent d) as [|n names];
      [destruct Hsel|].
    rewrite Hids. unfold orUndefined. simpl.
    destruct id; [contradiction|]. simpl. eexists. reflexivity. }
  destruct Hstatus as [backedUp Hstatus].
  assert (Hget : getStatus fs = (Ok (mkStatus true (Some id) backedUp), fs)).
  { now rewrite getStatus_pure, Hd, Hstatus. }
  split.
  { eexists. split; [exact Hget|]. repeat split. simpl. congruence. }
  intros now installed. unfold getAllWorkflowsWithStatus.
  unfold bind at 1. simpl.
  apply (statusItems now installed fs _ Hget installed []
           (fun item => isActive item = JS.eqb id (item_id item))).
  - constructor.
  - intros manifest. reflexivity.
Qed.

Lemma getStatus_reports_first_owner_witness :
  (exists status,
     getStatus Scenario.afterBoth = (Ok status, Scenario.afterBoth)
     /\ isInjected status = true
     /\ status_workflowId status = Some (lit "demo")
     /\ forall other,
          other <> lit "demo" -> status_workflowId status <> Some other)
  /\ (forall now installed,
        exists items,
          getAllWorkflowsWithStatus (fsCollaborators now installed) claude
            Scenario.afterBoth
          = (Ok items, Scenario.afterBoth)
          /\ Forall (fun item => isActive item = JS.eqb (lit "demo") (item_id item))
                    items).
Proof.
  apply (getStatus_reports_first_owner Scenario.afterBoth
           [] [(lit "reader.md", File Scenario.readerFile)]
           (lit "writer.md") Scenario.writerFile (lit "demo")).
  - vm_compute. reflexivity.
  - constructor.
    + intros [H | []]. vm_compute in H. discriminate H.
    + constructor; [intros [] | constructor].
  - intros k v [].
  - vm_compute. reflexivity.
  - vm_compute. reflexivity.
  - discriminate.
Defined.

End Status.

(* ================================================================== *)
(** * The engine calls of the interactive mode *)
(* ================================================================== *)

Section Maintained.

Context {S : Type} (I : S -> Prop).

Lemma maintains_ret {A} (a : A) : maintains I (ret a).
Proof. intros s H. exact H. Qed.

Lemma maintains_throw {A} (e : exn) : maintains I (@throw S A e).
Proof. intros s H. exact H. Qed.

Lemma maintains_bind {A B} (m : M S A) (k : A -> M S B) :
  maintains I m -> (forall a, maintains I (k a)) -> maintains I (bind m k).
Proof.
  intros Hm Hk s H. unfold bind. specialize (Hm s H).
  destruct (m s) as [[a|e] s']; simpl in *; [now apply Hk | exact Hm].
Qed.

Lemma maintains_tryCatch {A} (m : M S A) (h : exn -> M S A) :
  maintains I m -> (forall e, maintains I (h e)) -> maintains I (tryCatch m h).
Proof.
  intros Hm Hh s H. unfold tryCatch. specialize (Hm s H).
  destruct (m s) as [[a|e] s']; simpl in *; [exact Hm | now apply Hh].
Qed.

Lemma maintains_foldM {A B} (body : B -> A -> M S B) (xs : list A) (acc : B) :
  (forall b x, maintains I (body b x)) -> maintains I (foldM body xs acc).
Proof.
  intros H. revert acc. induction xs as [|x xs IH]; intros acc; simpl.
  - apply maintains_ret.
  - apply maintains_bind; [apply H | intros b; apply IH].
Qed.

End Maintained.

Section RecordedCalls.

Variable injectAnswer : Result InjectionResult.
Variable ejectAnswer : Result unit.
Variable statusAnswer : InjectionStatus.
Variable lookupAnswer : jstring -> Result Manifest.
Variable installed : list Manifest.

Let env : Collaborators (list EngineCall) :=
  recordingCollaborators injectAnswer ejectAnswer statusAnswer lookupAnswer installed.

Lemma onToggle_inactive_log (options : InjectCommandOptions)
    (workflowId : jstring) (log : list EngineCall) :
  snd (onToggle env options workflowId false log)
  = log ++ match found (lookupAnswer workflowId) with
           | Some manifest =>
               [CallInject manifest (cmd_target options) (toggleOptions options)]
           | None => []
           end.
Proof.
  unfold onToggle, found, bind. simpl.
  destruct (if success (lookupAnswer workflowId)
            then data (lookupAnswer workflowId) else None) as [manifest|].
  - unfold record. simpl.
    now destruct (negb (success injectAnswer)).
  - simpl. now rewrite app_nil_r.
Qed.

Lemma onToggle_active_log (options : InjectCommandOptions)
    (workflowId : jstring) (log : list EngineCall) :
  snd (onToggle env options workflowId true log)
  = log ++ [CallEject (cmd_target options) (mkEjectOptions None false)].
Proof.
  unfold onToggle, bind. simpl. unfold record.
  now destruct (negb (success ejectAnswer)).
Qed.

Lemma maintains_onToggle (options : InjectCommandOptions)
    (workflowId : jstring) (currentlyActive : bool) :
  maintains (Forall (forcedInject options))
            (onToggle env options workflowId currentlyActive).
Proof.
  intros log H. destruct currentlyActive.
  - rewrite onToggle_active_log. apply Forall_app. split; [exact H|].
    constructor; [exact I | constructor].
  - rewrite onToggle_inactive_log. apply Forall_app. split; [exact H|].
    destruct (found (lookupAnswer workflowId)); constructor.
    + split; reflexivity.
    + constructor.
Qed.

Lemma maintains_getItems (options : InjectCommandOptions) (target : AITarget) :
  maintains (Forall (forcedInject options)) (getAllWorkflowsWithStatus env target).
Proof.
  unfold getAllWorkflowsWithStatus.
  apply maintains_bind; [apply maintains_ret|]. intros manifests.
  apply maintains_foldM. intros items manifest.
  destruct (negb (existsb (AITarget_eqb target) (m_targets manifest)));
    [apply maintains_ret|].
  apply maintains_tryCatch; [|intros _; apply maintains_ret].
  apply maintains_bind; [|intros status; apply maintains_ret].
  intros log H. simpl. apply Forall_app. split; [exact H|].
  constructor; [exact I | constructor].
Qed.

Lemma maintains_selectorLoop (options : InjectCommandOptions)
    (selections : list SelectionResult) (items : list ListItem) :
  maintains (Forall (forcedInject options))
    (selectorLoop (getAllWorkflowsWithStatus env (cmd_target options))
                  (onToggle env options) selections items).
Proof.
  revert items. induction selections as [|result later IH]; intros items; simpl.
  - apply maintains_ret.
  - destruct (action result); [|apply maintains_ret].
    destruct (sel_id result) as [id|]; [|apply maintains_ret].
    apply maintains_bind.
    + destruct (find _ items) as [item|]; [|apply maintains_ret].
      apply maintains_tryCatch; [apply maintains_onToggle|].
      intros _. apply maintains_ret.
    + intros _. apply maintains_bind; [apply maintains_getItems|].
      intros items'. apply IH.
Qed.

Lemma items_fold_log (target : AITarget) :
  forall (manifests : list Manifest) (items : list ListItem) (log : list EngineCall),
  exists items' calls,
    foldM (fun items manifest =>
             if negb (existsb (AITarget_eqb target) (m_targets manifest))
             then ret items
             else tryCatch
                    (status <- engine_getStatus env target ;;
                     let isInjected :=
                       isInjected status &&
                       match status_workflowId status with
                       | Some id => JS.eqb id (m_id manifest)
                       | None => false
                       end in
                     ret (items ++ [mkListItem (m_id manifest) (m_name manifest)
                                      (m_description manifest) isInjected manifest]))
                    (fun _ => ret items))
          manifests items log
    = (Ok items', log ++ calls)
    /\ Forall isStatusCall calls.
Proof.
  induction manifests as [|m manifests IH]; intros items log.
  - exists items, []. simpl. now rewrite app_nil_r.
  - cbn [foldM].
    destruct (negb (existsb (AITarget_eqb target) (m_targets m))).
    + unfold bind at 1. unfold ret at 1. apply IH.
    + match goal with
      | |- context [bind ?step _ log] =>
          assert (Hstep : step log
                          = (Ok (items ++ [mkListItem (m_id m) (m_name m)
                                             (m_description m)
                                             (isInjected statusAnswer &&
                                              match status_workflowId statusAnswer with
                                              | Some id => JS.eqb id (m_id m)
                                              | None => false
                                              end) m]),
                             log ++ [CallGetStatus target]))
            by reflexivity;
          rewrite (bind_step _ _ _ _ _ Hstep)
      end.
      match goal with
      | |- context [foldM _ manifests ?acc ?l] =>
          destruct (IH acc l) as (items' & calls & Hrun & Hcalls)
      end.
      exists items', (CallGetStatus target :: calls). split.
      * rewrite <- app_assoc in Hrun. exact Hrun.
      * constructor; [exact I | exact Hcalls].
Qed.

Lemma getItems_log (target : AITarget) (log : list EngineCall) :
  exists items calls,
    getAllWorkflowsWithStatus env target log = (Ok items, log ++ calls)
    /\ Forall isStatusCall calls.
Proof.
  unfold getAllWorkflowsWithStatus. unfold bind at 1. simpl.
  apply items_fold_log.
Qed.

(** C8. Toggling an inactive item makes one engine call when the workflow
    is found, an [inject] with [force] set and with the [backup] and [merge]
    of the caller, whatever [force] the caller passed. In the loop, the
    round that toggles an inactive item makes this call and then only
    refreshes the status; and every [inject] call the loop makes, over any
    run of selections, carries these options. *)
Theorem toggle_inactive_injects_with_force (options : InjectCommandOptions) :
  (forall workflowId log,
     snd (onToggle env options workflowId false log)
     = log ++ match found (lookupAnswer workflowId) with
              | Some manifest =>
                  [CallInject manifest (cmd_target options)
                     (mkInjectOptions (cmd_backup options) true
                                      (orFalse (cmd_merge options)))]
              | None => []
              end)
  /\ (forall workflowId items item manifest log,
        find (fun i => JS.eqb (item_id i) workflowId) items = Some item ->
        isActive item = false ->
        found (lookupAnswer workflowId) = Some manifest ->
        exists calls,
          snd (selectorLoop (getAllWorkflowsWithStatus env (cmd_target options))
                 (onToggle env options) [pick workflowId] items log)
          = log ++ CallInject manifest (cmd_target options)
                     (mkInjectOptions (cmd_backup options) true
                                      (orFalse (cmd_merge options)))
                   :: calls
          /\ Forall isStatusCall calls)
  /\ (forall selections,
        Forall (fun call =>
                  match call with
                  | CallInject _ target o =>
                      target = cmd_target options
                      /\ force o = true
                      /\ backup o = cmd_backup options
                      /\ merge o = orFalse (cmd_merge options)
                  | _ => True
                  end)
               (snd (executeInteractive env options selections []))).
Proof.
  split; [|split].
  - intros workflowId log. apply onToggle_inactive_log.
  - intros workflowId items item manifest log Hfind Hinactive Hfound.
    pose proof (onToggle_inactive_log options workflowId log) as Hlog.
    rewrite Hfound in Hlog. fold (toggleOptions options).
    cbn [selectorLoop pick action sel_id]. rewrite Hfind, Hinactive.
    rewrite snd_bind_any.
    set (step := tryCatch (onToggle env options workflowId false)
                          (fun _ => ret tt) log).
    assert (Hstep : exists o, step = (Ok o, log ++ [CallInject manifest
                      (cmd_target options) (toggleOptions options)])).
    { unfold step, tryCatch.
      destruct (onToggle env options workflowId false log) as [[[]|e] log'];
        simpl in Hlog; subst log'; eexists; reflexivity. }
    destruct Hstep as [o ->].
    destruct (getItems_log (cmd_target options)
                (log ++ [CallInject manifest (cmd_target options)
                           (toggleOptions options)]))
      as (items' & calls & Hrun & Hcalls).
    exists calls. split; [|exact Hcalls].
    rewrite (bind_step _ _ _ _ _ Hrun). simpl.
    now rewrite <- app_assoc.
  - intros selections.
    assert (H : Forall (forcedInject options)
                  (snd (executeInteractive env options selections []))).
    { unfold executeInteractive, runInteractiveSelector.
      apply maintains_bind; [apply maintains_getItems | |constructor].
      intros items. apply maintains_selectorLoop. }
    eapply Forall_impl; [|exact H].
    intros [m target o | |]; simpl; try tauto.
    intros [-> ->]. repeat split.
Qed.

End RecordedCalls.

Lemma toggle_inactive_injects_with_force_witness :
  exists calls,
    snd (selectorLoop
           (getAllWorkflowsWithStatus
              (recordingCollaborators (failed (lit "no")) (succeeded tt)
                 (mkStatus true (Some (lit "demo")) false)
                 (fun _ => succeeded Scenario.other)
                 [Scenario.demo; Scenario.other])
              claude)
           (onToggle
              (recordingCollaborators (failed (lit "no")) (succeeded tt)
                 (mkStatus true (Some (lit "demo")) false)
                 (fun _ => succeeded Scenario.other)
                 [Scenario.demo; Scenario.other])
              Scenario.unforced)
           [pick (lit "other")]
           [mkListItem (lit "other") (lit "Other") (lit "o") false Scenario.other]
           [])
    = [] ++ CallInject Scenario.other claude (mkInjectOptions false true false)
         :: calls
    /\ Forall isStatusCall calls.
Proof.
  apply (proj1 (proj2 (toggle_inactive_injects_with_force
                         (failed (lit "no")) (succeeded tt)
                         (mkStatus true (Some (lit "demo")) false)
                         (fun _ => succeeded Scenario.other)
                         [Scenario.demo; Scenario.other] Scenario.unforced))
           (lit "other")
           [mkListItem (lit "other") (lit "Other") (lit "o") false Scenario.other]
           (mkListItem (lit "other") (lit "Other") (lit "o") false Scenario.other)
           Scenario.other []).
  - reflexivity.
  - reflexivity.
  - reflexivity.
Defined.

(** C4, as the code has it. Toggling an active item calls [eject] without
    a workflow id, whatever the id of the item: with [demo] and [other]
    injected, toggling [demo] removes the artifact of [other] too. *)
Theorem toggle_active_ejects_every_workflow :
  (forall injectAnswer ejectAnswer statusAnswer lookupAnswer installed
          options workflowId log,
     snd (onToggle
            (recordingCollaborators injectAnswer ejectAnswer statusAnswer
               lookupAnswer installed)
            options workflowId true log)
     = log ++ [CallEject (cmd_target options) (mkEjectOptions None false)])
  /\ agentFile Scenario.afterBoth (lit "reader.md") = Some (File Scenario.readerFile)
  /\ ownerOf Scenario.readerFile = Some (lit "other")
  /\ agentFile
       (snd (executeInteractive
               (fsCollaborators Scenario.now [Scenario.demo; Scenario.other])
               Scenario.unforced [pick (lit "demo")] Scenario.afterBoth))
       (lit "reader.md")
     = None.
Proof.
  split; [intros; apply onToggle_active_log|].
  split; [vm_compute; reflexivity|].
  split; vm_compute; reflexivity.
Qed.

(** Scenario D: with [other] shown as available although its artifact is
    there, and [--force] not given, toggling [other] injects it again; an
    injection without [force] would have failed. *)
Example toggle_available_reinjects :
  fst (ClaudeStrategy.inject Scenario.now Scenario.other Scenario.plain
         Scenario.afterBoth)
  = Throw (BTWError INJECTION_FAILED
             (lit "Workflow 'other' is already injected. Use --force to re-inject."))
  /\ fst (onToggle (fsCollaborators Scenario.now [Scenario.demo; Scenario.other])
            Scenario.unforced (lit "other") false Scenario.afterBoth)
     = Ok tt.
Proof. split; vm_compute; reflexivity. Qed.

(* ================================================================== *)
(** * The description in the header of an artifact *)
(* ================================================================== *)

Section Escaping.

Import ClaudeStrategy.

(** The part of the claim on the shape of the value: a description that
    holds [:], [#] or a newline, or that starts or ends with a space, is put
    between double quotes, each double quote of it behind a backslash. *)
Lemma escapeYamlString_quoted (str : jstring) :
  includes (lit ":") str = true \/ includes (lit "#") str = true
  \/ includes [LF] str = true
  \/ startsWith (lit " ") str = true \/ endsWith (lit " ") str = true ->
  escapeYamlString str = [DQUOTE] ++ escapeQuotes str ++ [DQUOTE].
Proof.
  unfold escapeYamlString.
  intros [H | [H | [H | [H | H]]]]; rewrite H;
    rewrite ?orb_true_r; reflexivity.
Qed.

(** C6, as the code has it. A backslash of the description is not escaped,
    so the closing quote of a description that ends with one comes right
    after a backslash, the way an escaped quote does: the
    artifact of [slashAgent] is, byte for byte, the artifact of
    [quoteAgent], whose description is another one. Hence no parser of the
    artifact gives back the description of every agent. *)
Theorem description_round_trip_impossible :
  includes (lit ":") (agent_description Collision.slashAgent) = true
  /\ includes (lit ":") (agent_description Collision.quoteAgent) = true
  /\ escapeYamlString (agent_description Collision.slashAgent)
     = [DQUOTE] ++ lit "x:" ++ [BACKSLASH] ++ [DQUOTE]
  /\ agent_description Collision.slashAgent
     <> agent_description Collision.quoteAgent
  /\ generateAgentFile Scenario.now Collision.slashAgent (lit "demo")
     = generateAgentFile Scenario.now Collision.quoteAgent (lit "demo")
  /\ ~ (exists parse : jstring -> jstring,
          forall now agent workflowId,
            includes (lit ":") (agent_description agent) = true ->
            parse (generateAgentFile now agent workflowId)
            = agent_description agent).
Proof.
  assert (Hsame : generateAgentFile Scenario.now Collision.slashAgent (lit "demo")
                  = generateAgentFile Scenario.now Collision.quoteAgent (lit "demo")).
  { vm_compute. reflexivity. }
  assert (Hdiff : agent_description Collision.slashAgent
                  <> agent_description Collision.quoteAgent).
  { vm_compute. intros H. discriminate H. }
  repeat split; try (vm_compute; reflexivity); try assumption.
  intros [parse Hparse]. apply Hdiff.
  rewrite <- (Hparse Scenario.now Collision.slashAgent (lit "demo"))
    by (vm_compute; reflexivity).
  rewrite <- (Hparse Scenario.now Collision.quoteAgent (lit "demo"))
    by (vm_compute; reflexivity).
  now rewrite Hsame.
Qed.

End Escaping.

(* ================================================================== *)
(** * More on the ownership scans *)
(* ================================================================== *)

Section OwnershipScan.

Import ClaudeStrategy.

Lemma NoDup_snoc (x : jstring) (l : list jstring) :
  NoDup l -> ~ In x l -> NoDup (l ++ [x]).
Proof.
  induction l as [|y l IH]; simpl; intros Hnd Hx.
  - constructor; [tauto | constructor].
  - inversion Hnd as [|? ? Hy Hl]; subst. constructor.
    + rewrite in_app_iff. simpl. intros [H | [H | []]]; [tauto|].
      apply Hx. now left.
    + apply IH; [exact Hl | tauto].
Qed.

Lemma setAdd_In (id x : jstring) (ids : list jstring) :
  In x (setAdd id ids) <-> x = id \/ In x ids.
Proof.
  unfold setAdd. destruct (existsb (JS.eqb id) ids) eqn:E.
  - split; [tauto|]. intros [-> | H]; [|exact H].
    apply existsb_exists in E as (y & Hy & Ey). apply eqb_eq in Ey. now subst y.
  - rewrite in_app_iff. simpl. intuition congruence.
Qed.

Lemma setAdd_NoDup (id : jstring) (ids : list jstring) :
  NoDup ids -> NoDup (setAdd id ids).
Proof.
  intros H. unfold setAdd. destruct (existsb (JS.eqb id) ids) eqn:E; [exact H|].
  apply NoDup_snoc; [exact H|]. intros Hin.
  assert (Ht : existsb (JS.eqb id) ids = true).
  { apply existsb_exists. exists id. split; [exact Hin | apply eqb_refl]. }
  congruence.
Qed.

Lemma collectIds_NoDup (d : dir) (names ids : list jstring) :
  NoDup ids -> NoDup (collectIds d names ids).
Proof.
  revert ids. induction names as [|n names IH]; intros ids H; simpl; [exact H|].
  apply IH. destruct (skipped n); [exact H|].
  destruct (lookup n d) as [[c|]|]; try exact H.
  destruct (ownerOf c); [now apply setAdd_NoDup | exact H].
Qed.

Lemma collectIds_mono (d : dir) (names ids : list jstring) (id : jstring) :
  In id ids -> In id (collectIds d names ids).
Proof.
  revert ids. induction names as [|n names IH]; intros ids H; simpl; [exact H|].
  apply IH. destruct (skipped n); [exact H|].
  destruct (lookup n d) as [[c|]|]; try exact H.
  destruct (ownerOf c); [|exact H]. apply setAdd_In. now right.
Qed.

Lemma collectIds_complete (d : dir) (names ids : list jstring)
    (n c id : jstring) :
  In n names -> skipped n = false -> lookup n d = Some (File c) ->
  ownerOf c = Some id -> In id (collectIds d names ids).
Proof.
  revert ids. induction names as [|k names IH]; intros ids Hin Hn Hc Ho;
    [destruct Hin|]. simpl.
  destruct Hin as [-> | Hin]; [|now apply IH].
  rewrite Hn, Hc, Ho. apply collectIds_mono. apply setAdd_In. now left.
Qed.

(** X1. The ownership scan answers with each owner once, and with exactly the
    ids that the [# workflow:] marker of some readable [.md] artifact
    names. *)
Theorem ownership_scan_reports_owners (fs : FS) :
  exists ids,
    getAllWorkflowIdsFromAgents agentsPath fs = (Ok ids, fs)
    /\ NoDup ids
    /\ forall id,
         In id ids <->
         exists n c, skipped n = false /\ agentFile fs n = Some (File c)
                     /\ ownerOf c = Some id.
Proof.
  unfold agentsPath, agentFile. destruct (agents fs) as [d|] eqn:Hd.
  - exists (collectIds d (map fst d) []).
    split; [apply (getAllWorkflowIdsFromAgents_pure fs d Hd)|].
    split; [apply collectIds_NoDup; constructor|].
    intros id. split.
    + intros H. apply collectIds_origin in H as [[] | H]. exact H.
    + intros (n & c & Hn & Hc & Ho).
      apply (collectIds_complete d (map fst d) [] n c id);
        try assumption.
      now apply (lookup_In n d (File c)).
  - exists []. split; [apply (getAllWorkflowIdsFromAgents_none fs Hd)|].
    split; [constructor|]. intros id. split; [intros []|].
    intros (n & c & _ & H & _). discriminate.
Qed.

Lemma belongsTo_owner (id c : jstring) :
  belongsTo id c = true <-> ownerOf c = Some id.
Proof.
  unfold belongsTo, ownerOf. destruct (matchWorkflow c) as [capture|]; simpl.
  - rewrite eqb_eq. split; [intros ->; reflexivity | intros [= ->]; reflexivity].
  - split; discriminate.
Qed.

Lemma belongsTo_isBtwContent (id c : jstring) :
  belongsTo id c = true -> isBtwContent c = true.
Proof.
  unfold belongsTo, isBtwContent.
  destruct (matchWorkflow c) as [capture|] eqn:E; [|discriminate].
  intros _. rewrite (matchWorkflow_includes c capture E). apply orb_true_r.
Qed.

(** X2. Every artifact [findBtwAgentsForWorkflow] finds for a workflow is one
    that [findBtwAgents] finds: an ejection of one workflow removes no
    artifact that the ejection of all workflows would keep. *)
Theorem workflow_artifacts_among_btw_artifacts
    (fs : FS) (id : jstring) (owned every : list path) :
  fst (findBtwAgentsForWorkflow agentsPath id fs) = Ok owned ->
  fst (findBtwAgents agentsPath fs) = Ok every ->
  incl owned every.
Proof.
  unfold agentsPath. destruct (agents fs) as [d|] eqn:Hd.
  - rewrite (findBtwAgentsForWorkflow_pure fs d id Hd),
      (findBtwAgents_pure fs d Hd). simpl.
    intros [= <-] [= <-] p Hp.
    apply in_map_iff in Hp as (n & <- & Hn). apply in_map.
    apply selected_iff in Hn as (Hs & c & Hc & Ht).
    apply selected_iff. split; [exact Hs|]. exists c. split; [exact Hc|].
    now apply (belongsTo_isBtwContent id).
  - rewrite (findBtwAgentsForWorkflow_none fs id Hd). simpl.
    intros [= <-] _ p [].
Qed.

Lemma workflow_artifacts_among_btw_artifacts_witness :
  incl [AgentFileP (lit "writer.md")]
       [AgentFileP (lit "writer.md"); AgentFileP (lit "reader.md")].
Proof.
  apply (workflow_artifacts_among_btw_artifacts Scenario.afterBoth (lit "demo")).
  - vm_compute. reflexivity.
  - vm_compute. reflexivity.
Defined.

End OwnershipScan.

(* ================================================================== *)
(** * More on [eject] *)
(* ================================================================== *)

Section EjectMore.

Import ClaudeStrategy.







Lemma removeAgentsDirIfEmpty_nonempty (fs : FS) :
  agents fs <> Some [] -> removeAgentsDirIfEmpty fs = (Ok tt, fs).
Proof.
  intros H.
  unfold removeAgentsDirIfEmpty, tryCatch, bind, agentsPath, fileSystem.readdir.
  destruct (agents fs) as [[|e d]|]; [contradiction | reflexivity | reflexivity].
Qed.

(** X5. When nothing is owned, [eject] without [clean] changes nothing: no
    artifact is selected, the agents directory is not an empty one, and
    [CLAUDE.md] is absent or is not to be cleaned. *)
Theorem eject_nothing_owned_is_noop (options : EjectOptions) (fs : FS) :
  ejectedNames options (listing fs) = [] ->
  agents fs <> Some [] ->
  claudeMd fs = None
  \/ (exists c, claudeMd fs = Some (File c)
                /\ shouldCleanClaudeMd options c = false) ->
  clean options = false ->
  eject options fs = (Ok tt, fs).
Proof.
  intros Hnone Hdir Hdoc Hclean. unfold eject. apply tryCatch_ok.
  assert (H1 : removeAgentFiles options fs = (Ok tt, fs)).
  { unfold removeAgentFiles.
    rewrite (bind_step _ _ _ _ _ (findEjected_spec options fs)).
    assert (Hn : match agents fs with
                 | Some d => map AgentFileP (ejectedNames options d)
                 | None => []
                 end = []).
    { unfold listing in Hnone. destruct (agents fs); [now rewrite Hnone|reflexivity]. }
    rewrite Hn. cbn [forEach]. unfold bind at 1, ret at 1.
    now apply removeAgentsDirIfEmpty_nonempty. }
  rewrite (bind_step _ _ _ _ _ H1).
  assert (H2 : cleanClaudeMd options fs = (Ok tt, fs)).
  { unfold cleanClaudeMd, instructionsPath.
    destruct Hdoc as [Hd | (c & Hd & Hc)].
    - unfold bind, fileSystem.exists_. simpl. now rewrite Hd.
    - rewrite (bind_step _ _ _ _ _ (exists_instructions fs _ Hd)).
      unfold when at 1.
      rewrite (bind_step _ _ _ _ _ (read_instructions fs _ Hd)).
      now rewrite Hc. }
  rewrite (bind_step _ _ _ _ _ H2). now rewrite Hclean.
Qed.

Lemma eject_nothing_owned_is_noop_witness :
  eject (mkEjectOptions (Some (lit "absent")) false) Scenario.afterBoth
  = (Ok tt, Scenario.afterBoth).
Proof.
  apply (eject_nothing_owned_is_noop
           (mkEjectOptions (Some (lit "absent")) false) Scenario.afterBoth).
  - vm_compute. reflexivity.
  - vm_compute. discriminate.
  - right. eexists. split; vm_compute; reflexivity.
  - reflexivity.
Defined.



End EjectMore.

(* ================================================================== *)
(** * What [inject] does to the agents directory *)
(* ================================================================== *)

Section InjectFrame.

Import ClaudeStrategy.

Lemma maintains_forEach {S A} (I : S -> Prop) (xs : list A) (body : A -> M S unit) :
  (forall x, In x xs -> maintains I (body x)) -> maintains I (forEach xs body).
Proof.
  induction xs as [|x xs IH]; intros H; simpl.
  - apply maintains_ret.
  - apply maintains_bind.
    + apply H. now left.
    + intros _. apply IH. intros y Hy. apply H. now right.
Qed.

Lemma maintains_foldM_in {S A B} (I : S -> Prop) (body : B -> A -> M S B)
    (xs : list A) (acc : B) :
  (forall b x, In x xs -> maintains I (body b x)) ->
  maintains I (foldM body xs acc).
Proof.
  revert acc. induction xs as [|x xs IH]; intros acc H; simpl.
  - apply maintains_ret.
  - apply maintains_bind.
    + apply H. now left.
    + intros b. apply IH. intros b' y Hy. apply H. now right.
Qed.


Lemma lookup_upsert (k n : jstring) (v : node) (d : dir) :
  lookup k (upsert n v d) = if JS.eqb k n then Some v else lookup k d.
Proof.
  induction d as [|[k' w] d IH]; simpl.
  - rewrite (eqb_sym n k). reflexivity.
  - destruct (JS.eqb k' n) eqn:E1; simpl.
    + apply eqb_eq in E1. subst k'.
      rewrite (eqb_sym n k). now destruct (JS.eqb k n).
    + destruct (JS.eqb k' k) eqn:E2; [|exact IH].
      apply eqb_eq in E2. subst k'. now rewrite E1.
Qed.

Lemma agents_set_some (d : dir) (fs : FS) : agents (set_agents (Some d) fs) = Some d.
Proof. unfold set_agents, agents. now destruct (dotClaude fs). Qed.

Lemma agentFile_mkdir (p : path) (fs : FS) (k : jstring) :
  agentFile (snd (fileSystem.mkdir p fs)) k = agentFile fs k.
Proof.
  unfold fileSystem.mkdir, agentFile.
  destruct p; try reflexivity.
  - destruct (dotClaude fs) as [c|] eqn:Hc; [reflexivity|].
    simpl. unfold agents. now rewrite Hc.
  - destruct (agents fs) as [d|] eqn:Hd; simpl.
    + now rewrite Hd.
    + now rewrite agents_set_some.
Qed.


Lemma agentFile_writeAgent (n content : jstring) (b : bool) (fs : FS) (k : jstring) :
  k <> n ->
  agentFile (snd (fileSystem.writeFile (AgentFileP n) content b fs)) k
  = agentFile fs k.
Proof.
  intros Hk. apply eqb_neq in Hk.
  unfold fileSystem.writeFile, agentFile.
  destruct (agents fs) as [d|] eqn:Hd.
  - destruct (lookup n d) as [[c|]|]; simpl;
      rewrite ?agents_set_some, ?lookup_upsert, ?Hk, ?Hd; reflexivity.
  - destruct b; simpl; rewrite ?agents_set_some, ?Hd; simpl; [|reflexivity].
    rewrite (eqb_sym n k), Hk. reflexivity.
Qed.

Lemma removeAgent_spec (n : jstring) (b : bool) (fs : FS) :
  exists fs',
    fileSystem.remove (AgentFileP n) b fs = (Ok tt, fs')
    /\ claudeMd fs' = claudeMd fs
    /\ forall k, agentFile fs' k = if JS.eqb k n then None else agentFile fs k.
Proof.
  unfold fileSystem.remove, agentFile.
  destruct (agents fs) as [d|] eqn:Hd.
  - eexists. split; [reflexivity|]. split; [apply claudeMd_set_agents|].
    intros k. rewrite agents_set_some. apply lookup_unlink.
  - exists fs. split; [reflexivity|]. split; [reflexivity|].
    intros k. rewrite Hd. now destruct (JS.eqb k n).
Qed.

Lemma agents_updateClaudeMd (now : jstring) (manifest : Manifest)
    (options : InjectOptions) (fs : FS) :
  agents (snd (updateClaudeMd now InstructionsP manifest options fs)) = agents fs.
Proof.
  destruct (claudeMd fs) as [[content|]|] eqn:Hc.
  - now rewrite (updateClaudeMd_existing now manifest options fs content Hc).
  - unfold updateClaudeMd.
    rewrite (bind_step _ _ _ _ _ (exists_instructions fs _ Hc)).
    destruct (merge options); simpl.
    + unfold bind, fileSystem.readFile. now rewrite Hc.
    + destruct (force options); simpl.
      * unfold fileSystem.writeFile. now rewrite Hc.
      * unfold bind, fileSystem.readFile. now rewrite Hc.
  - unfold updateClaudeMd, bind, fileSystem.exists_. simpl. rewrite Hc. simpl.
    rewrite andb_false_r. unfold fileSystem.writeFile. now rewrite Hc.
Qed.


(** One round of the backup loop: it answers, and it changes at most the
    backup of its file. *)
Lemma backupOne_spec (created : bool) (m : jstring) (fs : FS) :
  exists b fs',
    tryCatch (fileSystem.backup (AgentFileP m) ;; ret true)
             (fun _ => ret created) fs = (Ok b, fs')
    /\ claudeMd fs' = claudeMd fs
    /\ (created = true -> b = true)
    /\ (forall k, k <> backupName m -> agentFile fs' k = agentFile fs k)
    /\ (forall c,
          agentFile fs m = Some (File c) ->
          agentFile fs (backupName m) <> Some Unreadable ->
          b = true /\ agentFile fs' (backupName m) = Some (File c))
    /\ (agentFile fs' (backupName m) = Some Unreadable ->
        agentFile fs (backupName m) = Some Unreadable).
Proof.
  unfold fileSystem.backup. simpl path_append. fold (backupName m).
  unfold tryCatch, bind at 1, bind at 1, fileSystem.readFile.
  destruct (agents fs) as [d|] eqn:Hd.
  - destruct (lookup m d) as [[c|]|] eqn:Hm.
    + unfold bind, fileSystem.writeFile. rewrite Hd.
      destruct (lookup (backupName m) d) as [[c'|]|] eqn:Hb;
        cbv beta iota; unfold ret.
      * eexists _, _. split; [reflexivity|].
        split; [apply claudeMd_set_agents|]. split; [reflexivity|].
        unfold agentFile. rewrite agents_set_some, Hd.
        split; [|split].
        -- intros k Hk. rewrite lookup_upsert. apply eqb_neq in Hk.
           now rewrite Hk.
        -- intros c0 Hc0 _. split; [reflexivity|].
           rewrite lookup_upsert, eqb_refl. congruence.
        -- rewrite lookup_upsert, eqb_refl. discriminate.
      * exists created, fs. split; [reflexivity|]. split; [reflexivity|].
        split; [tauto|]. split; [reflexivity|].
        unfold agentFile. rewrite Hd, Hb. split; [|tauto].
        intros c0 _ H. contradiction.
      * eexists _, _. split; [reflexivity|].
        split; [apply claudeMd_set_agents|]. split; [reflexivity|].
        unfold agentFile. rewrite agents_set_some, Hd.
        split; [|split].
        -- intros k Hk. rewrite lookup_upsert. apply eqb_neq in Hk.
           now rewrite Hk.
        -- intros c0 Hc0 _. split; [reflexivity|].
           rewrite lookup_upsert, eqb_refl. congruence.
        -- rewrite lookup_upsert, eqb_refl. discriminate.
    + exists created, fs. unfold agentFile. rewrite Hd, Hm.
      repeat split; try tauto; discriminate.
    + exists created, fs. unfold agentFile. rewrite Hd, Hm.
      repeat split; try tauto; discriminate.
  - exists created, fs. unfold agentFile. rewrite Hd.
    repeat split; try tauto; discriminate.
Qed.

Lemma backupName_inj (m k : jstring) : backupName m = backupName k -> m = k.
Proof. unfold backupName. apply app_inv_tail. Qed.

Lemma not_backup_name (k m : jstring) :
  endsWith (lit ".btw-backup") k = false -> k <> backupName m.
Proof.
  intros H ->. unfold backupName in H. now rewrite endsWith_app_self in H.
Qed.

Lemma selected_not_backup (test : jstring -> bool) (d : dir) (m : jstring) :
  In m (selectedNames test d) -> endsWith (lit ".btw-backup") m = false.
Proof.
  intros H. apply selected_iff in H as [H _]. unfold skipped in H.
  now apply orb_false_iff in H as [_ H].
Qed.

(** The backup loop of [inject]: it never fails, it changes only backups of
    its files, and a file that can be read gets its content as backup,
    unless an entry that cannot be overwritten is in the way. *)
Lemma backupLoop_spec (names : list jstring) :
  (forall m, In m names -> endsWith (lit ".btw-backup") m = false) ->
  forall (created : bool) (fs : FS),
  exists b fs',
    foldM (fun created agentFile =>
             tryCatch (fileSystem.backup agentFile ;; ret true)
                      (fun _ => ret created))
          (map AgentFileP names) created fs = (Ok b, fs')
    /\ claudeMd fs' = claudeMd fs
    /\ (created = true -> b = true)
    /\ (forall k, (forall m, In m names -> k <> backupName m) ->
                  agentFile fs' k = agentFile fs k)
    /\ (forall m c,
          In m names -> agentFile fs m = Some (File c) ->
          agentFile fs (backupName m) <> Some Unreadable ->
          b = true /\ agentFile fs' (backupName m) = Some (File c))
    /\ (forall k, agentFile fs' k = Some Unreadable ->
                  agentFile fs k = Some Unreadable).
Proof.
  induction names as [|m0 names IH]; intros Hnames created fs.
  - exists created, fs. split; [reflexivity|]. split; [reflexivity|].
    split; [tauto|]. split; [reflexivity|]. split; [|tauto].
    intros m c [].
  - destruct (backupOne_spec created m0 fs)
      as (b1 & fs1 & H1 & Hc1 & Hm1 & Hf1 & Hb1 & Hu1).
    destruct (IH (fun m Hm => Hnames m (or_intror Hm)) b1 fs1)
      as (b & fs' & H2 & Hc2 & Hmono & Hf2 & Hb2 & Hu2).
    assert (Hunread : forall k, agentFile fs' k = Some Unreadable ->
                                agentFile fs k = Some Unreadable).
    { intros k Hk. apply Hu2 in Hk.
      destruct (list_eq_dec N.eq_dec k (backupName m0)) as [-> | Hne].
      - now apply Hu1.
      - now rewrite (Hf1 k Hne) in Hk. }
    exists b, fs'. split; [|split; [|split; [|split; [|split]]]].
    + cbn [map foldM]. rewrite (bind_step _ _ _ _ _ H1). exact H2.
    + congruence.
    + intros Hcr. apply Hmono. now apply Hm1.
    + intros k Hk. rewrite Hf2 by (intros m Hm; apply Hk; now right).
      apply Hf1. apply Hk. now left.
    + intros m c Hm Hfile Hfree.
      assert (Hfile1 : agentFile fs1 m = Some (File c)).
      { rewrite Hf1; [exact Hfile|]. apply not_backup_name. now apply Hnames. }
      destruct (in_dec (list_eq_dec N.eq_dec) m names) as [Hin | Hnotin].
      * apply (Hb2 m c Hin Hfile1).
        intros Hu. apply Hfree.
        destruct (list_eq_dec N.eq_dec m m0) as [-> | Hne].
        -- now apply Hu1.
        -- rewrite Hf1 in Hu; [exact Hu|].
           intros E. apply Hne. now apply backupName_inj.
      * destruct Hm as [<- | Hm]; [|contradiction].
        destruct (Hb1 c Hfile Hfree) as [-> Hcopy].
        split; [now apply Hmono|].
        rewrite Hf2; [exact Hcopy|].
        intros m' Hm' E. apply backupName_inj in E. subst m'. contradiction.
    + exact Hunread.
Qed.

Lemma createDirectories_spec (fs : FS) :
  exists fs',
    createDirectories fs = (Ok tt, fs')
    /\ claudeMd fs' = claudeMd fs
    /\ agents fs' = Some (listing fs)
    /\ forall k, agentFile fs' k = agentFile fs k.
Proof.
  unfold createDirectories, claudeDir, agentsPath.
  destruct (fileSystem.mkdir ClaudeDirP fs) as [[[]|e] fs1] eqn:H1.
  2:{ unfold fileSystem.mkdir in H1. destruct (dotClaude fs); discriminate. }
  destruct (fileSystem.mkdir AgentsDirP fs1) as [[[]|e] fs2] eqn:H2.
  2:{ unfold fileSystem.mkdir in H2. destruct (agents fs1); discriminate. }
  exists fs2. rewrite (bind_step _ _ _ _ _ H1). split; [exact H2|].
  pose proof (spares_mkdir ClaudeDirP fs) as Hc1. rewrite H1 in Hc1.
  pose proof (spares_mkdir AgentsDirP fs1) as Hc2. rewrite H2 in Hc2.
  assert (Hf : forall k, agentFile fs2 k = agentFile fs k).
  { intros k.
    pose proof (agentFile_mkdir ClaudeDirP fs k) as E1. rewrite H1 in E1.
    pose proof (agentFile_mkdir AgentsDirP fs1 k) as E2. rewrite H2 in E2.
    simpl in *. congruence. }
  split; [simpl in *; congruence|]. split; [|exact Hf].
  assert (Ha1 : agents fs1 = agents fs).
  { unfold fileSystem.mkdir in H1. destruct (dotClaude fs) as [c|] eqn:Hc.
    - now injection H1 as <-.
    - injection H1 as <-. unfold agents. now rewrite Hc. }
  unfold listing. rewrite <- Ha1.
  unfold fileSystem.mkdir in H2. destruct (agents fs1) as [d|] eqn:Hd.
  - injection H2 as <-. exact Hd.
  - injection H2 as <-. apply agents_set_some.
Qed.

Lemma findForWorkflow_listing (id : jstring) (fs : FS) :
  findBtwAgentsForWorkflow agentsPath id fs
  = (Ok (map AgentFileP (selectedNames (belongsTo id) (listing fs))), fs).
Proof.
  unfold agentsPath, listing. destruct (agents fs) as [d|] eqn:Hd.
  - apply (findBtwAgentsForWorkflow_pure fs d id Hd).
  - apply (findBtwAgentsForWorkflow_none fs id Hd).
Qed.

Lemma agentFile_listing (fs : FS) (k : jstring) :
  agentFile fs k = lookup k (listing fs).
Proof. unfold agentFile, listing. now destruct (agents fs). Qed.

Lemma removeLoop_spec (names : list jstring) (fs : FS) :
  exists fs',
    forEach (map AgentFileP names)
            (fun agentFile => fileSystem.remove agentFile false) fs = (Ok tt, fs')
    /\ claudeMd fs' = claudeMd fs
    /\ forall k, agentFile fs' k
                 = if existsb (JS.eqb k) names then None else agentFile fs k.
Proof.
  revert fs. induction names as [|n names IH]; intros fs.
  - now exists fs.
  - destruct (removeAgent_spec n false fs) as (fs1 & H1 & Hc1 & Hf1).
    destruct (IH fs1) as (fs2 & H2 & Hc2 & Hf2).
    exists fs2. split; [|split].
    + cbn [map forEach]. rewrite (bind_step _ _ _ _ _ H1). exact H2.
    + congruence.
    + intros k. rewrite Hf2, Hf1. simpl.
      destruct (JS.eqb k n); simpl; [|reflexivity].
      now destruct (existsb (JS.eqb k) names).
Qed.

(** Step 3 of [inject]. *)
Lemma backupExistingAgents_spec (manifest : Manifest) (options : InjectOptions)
    (fs : FS) :
  exists b fs',
    backupExistingAgents manifest options fs = (Ok b, fs')
    /\ claudeMd fs' = claudeMd fs
    /\ (forall k, endsWith (lit ".btw-backup") k = false ->
                  agentFile fs' k = agentFile fs k)
    /\ (forall k, agentFile fs' k = Some Unreadable ->
                  agentFile fs k = Some Unreadable)
    /\ (backup options = true ->
        forall m c,
          In m (selectedNames (belongsTo (m_id manifest)) (listing fs)) ->
          agentFile fs m = Some (File c) ->
          agentFile fs (backupName m) <> Some Unreadable ->
          b = true /\ agentFile fs' (backupName m) = Some (File c))
    /\ (forall k, (forall m, k <> backupName m) -> agentFile fs' k = agentFile fs k).
Proof.
  unfold backupExistingAgents. destruct (backup options).
  - rewrite (bind_step _ _ _ _ _ (findForWorkflow_listing (m_id manifest) fs)).
    destruct (backupLoop_spec
                (selectedNames (belongsTo (m_id manifest)) (listing fs))
                (fun m Hm => selected_not_backup _ _ m Hm) false fs)
      as (b & fs' & H & Hc & _ & Hf & Hb & Hu).
    exists b, fs'. split; [exact H|]. split; [exact Hc|].
    split; [|split; [exact Hu|split]].
    + intros k Hk. apply Hf. intros m _. now apply not_backup_name.
    + intros _. exact Hb.
    + intros k Hk. apply Hf. intros m _. apply Hk.
  - exists false, fs. repeat split; try tauto. discriminate.
Qed.

(** Step 4 of [inject]. *)
Lemma removeExistingAgents_spec (manifest : Manifest) (options : InjectOptions)
    (fs : FS) :
  exists fs',
    removeExistingAgents manifest options fs = (Ok tt, fs')
    /\ claudeMd fs' = claudeMd fs
    /\ forall k,
         agentFile fs' k
         = if force options
              && existsb (JS.eqb k)
                   (selectedNames (belongsTo (m_id manifest)) (listing fs))
           then None else agentFile fs k.
Proof.
  unfold removeExistingAgents. destruct (force options).
  - rewrite (bind_step _ _ _ _ _ (findForWorkflow_listing (m_id manifest) fs)).
    apply removeLoop_spec.
  - now exists fs.
Qed.




Lemma checkNotInjected_passes (manifest : Manifest) (options : InjectOptions)
    (fs : FS) :
  (force options = true
   \/ forall n c, skipped n = false -> agentFile fs n = Some (File c) ->
                  ownerOf c <> Some (m_id manifest)) ->
  checkNotInjected manifest options fs = (Ok tt, fs).
Proof.
  intros H. unfold checkNotInjected.
  destruct (force options); [reflexivity|]. simpl.
  destruct H as [H | H]; [discriminate|].
  rewrite (bind_step _ _ _ _ _ (isWorkflowInjected_pure fs (m_id manifest))).
  destruct (agents fs) as [d|] eqn:Hd; [|reflexivity].
  destruct (existsb (JS.eqb (m_id manifest)) (collectIds d (map fst d) []))
    eqn:E; [|reflexivity].
  apply existsb_exists in E as (id & Hin & Hid). apply eqb_eq in Hid. subst id.
  apply collectIds_origin in Hin as [[] | (n & c & Hn & Hc & Ho)].
  exfalso. apply (H n c Hn); [|exact Ho]. unfold agentFile. now rewrite Hd.
Qed.

(** The steps of a run of [inject] that answers. *)
Lemma inject_inv (now : jstring) (manifest : Manifest) (options : InjectOptions)
    (fs fs' : FS) (r : InjectionResult) :
  inject now manifest options fs = (Ok r, fs') ->
  exists fs1 fs2 b fs3 fs4 paths fs5,
    createDirectories fs = (Ok tt, fs1)
    /\ checkNotInjected manifest options fs1 = (Ok tt, fs2)
    /\ backupExistingAgents manifest options fs2 = (Ok b, fs3)
    /\ removeExistingAgents manifest options fs3 = (Ok tt, fs4)
    /\ createAgentFiles now manifest fs4 = (Ok paths, fs5)
    /\ updateClaudeMd now instructionsPath manifest options fs5 = (Ok tt, fs')
    /\ r = mkInjectionResult claude instructionsPath paths
             (length (m_agents manifest)) b None.
Proof.
  intros H. unfold inject in H. apply rethrow_inv_ok in H.
  apply bind_inv_ok in H as ([] & fs1 & H1 & H).
  apply bind_inv_ok in H as ([] & fs2 & H2 & H).
  apply bind_inv_ok in H as (b & fs3 & H3 & H).
  apply bind_inv_ok in H as ([] & fs4 & H4 & H).
  apply bind_inv_ok in H as (paths & fs5 & H5 & H).
  apply bind_inv_ok in H as ([] & fs6 & H6 & H).
  injection H as <- <-.
  exists fs1, fs2, b, fs3, fs4, paths, fs5.
  repeat (split; [assumption|]). reflexivity.
Qed.

Lemma agentFile_agents (fs fs' : FS) :
  agents fs' = agents fs -> forall k, agentFile fs' k = agentFile fs k.
Proof. intros H k. unfold agentFile. now rewrite H. Qed.

Lemma endsWith_split (p s : jstring) :
  endsWith p s = true -> exists a, s = a ++ p.
Proof.
  unfold endsWith. intros H. apply andb_true_iff in H as [_ H].
  apply eqb_eq in H. exists (firstn (length s - length p) s).
  pose proof (firstn_skipn (length s - length p) s) as E.
  rewrite H in E. now symmetry.
Qed.

Lemma skipped_agentFileName (a : AgentDefinition) :
  skipped (agentFileName a) = false.
Proof.
  unfold skipped, agentFileName. rewrite endsWith_app_self. simpl.
  destruct (endsWith (lit ".btw-backup") (agent_id a ++ lit ".md")) eqn:E;
    [|reflexivity].
  apply endsWith_split in E as [x Hx].
  apply (f_equal (fun l => last l 0%N)) in Hx.
  change (lit ".md") with ([46; 109] ++ [100])%N in Hx.
  change (lit ".btw-backup")
    with ([46; 98; 116; 119; 45; 98; 97; 99; 107; 117] ++ [112])%N in Hx.
  rewrite !app_assoc, !last_last in Hx. discriminate.
Qed.

Lemma agentFileName_not_backup (a : AgentDefinition) (m : jstring) :
  agentFileName a <> backupName m.
Proof. apply artifact_not_backup, skipped_agentFileName. Qed.

Lemma not_selected (id n : jstring) (v : node) (fs : FS) :
  agentFile fs n = Some v ->
  (skipped n = true \/ forall c, v = File c -> ownerOf c <> Some id) ->
  existsb (JS.eqb n) (selectedNames (belongsTo id) (listing fs)) = false.
Proof.
  intros Hv Hown.
  destruct (existsb (JS.eqb n) (selectedNames (belongsTo id) (listing fs)))
    eqn:E; [|reflexivity].
  apply existsb_exists in E as (x & Hin & Hx). apply eqb_eq in Hx. subst x.
  apply selected_iff in Hin as (Hn & c & Hc & Hb).
  rewrite <- agentFile_listing, Hv in Hc. injection Hc as ->.
  apply belongsTo_owner in Hb.
  destruct Hown as [Hs | Hown]; [congruence|].
  now destruct (Hown c eq_refl).
Qed.

(** The steps of [inject] from the removal on keep an entry of the agents
    directory that is no file of the manifest and that the removal does not
    select. *)
Lemma inject_tail_maintains (now : jstring) (manifest : Manifest)
    (options : InjectOptions) (n : jstring) (v : node) (b : bool) :
  ~ In n (map agentFileName (m_agents manifest)) ->
  (force options = false \/ skipped n = true
   \/ forall c, v = File c -> ownerOf c <> Some (m_id manifest)) ->
  maintains (fun s => agentFile s n = Some v)
    (removeExistingAgents manifest options ;;
     agentFilePaths <- createAgentFiles now manifest ;;
     updateClaudeMd now instructionsPath manifest options ;;
     ret (mkInjectionResult claude instructionsPath agentFilePaths
            (length (m_agents manifest)) b None)).
Proof.
  intros Hn Hown.
  apply maintains_bind; [|intros _; apply maintains_bind;
                           [|intros paths; apply maintains_bind;
                              [|intros _; apply maintains_ret]]].
  - intros s Hs.
    destruct (removeExistingAgents_spec manifest options s) as (s' & H & _ & Hf).
    rewrite H. simpl. rewrite Hf.
    destruct (force options) eqn:F; [|exact Hs]. simpl.
    rewrite (not_selected (m_id manifest) n v s Hs); [exact Hs|].
    destruct Hown as [Hown | Hown]; [discriminate | exact Hown].
  - unfold createAgentFiles. apply maintains_foldM_in. intros acc a Ha.
    cbv zeta. apply maintains_bind; [|intros _; apply maintains_ret].
    intros s Hs. rewrite agentFile_writeAgent; [exact Hs|].
    intros ->. apply Hn. apply (in_map agentFileName _ _ Ha).
  - intros s Hs. unfold instructionsPath.
    rewrite (agentFile_agents s _ (agents_updateClaudeMd now manifest options s)).
    exact Hs.
Qed.











(** X11. A forced run of [inject] with [backup] copies an artifact of the
    manifest's workflow to its backup name before replacing it: the copy is
    there afterwards, whatever the outcome of the run, and a run that
    answers reports [backupCreated]. *)
Theorem inject_backs_up_replaced_artifact (now : jstring) (manifest : Manifest)
    (options : InjectOptions) (fs : FS) (m c : jstring) :
  force options = true ->
  backup options = true ->
  skipped m = false ->
  agentFile fs m = Some (File c) ->
  ownerOf c = Some (m_id manifest) ->
  agentFile fs (backupName m) <> Some Unreadable ->
  agentFile (snd (inject now manifest options fs)) (backupName m) = Some (File c)
  /\ forall result fs',
       inject now manifest options fs = (Ok result, fs') ->
       backupCreated result = true.
Proof.
  intros F B Hm Hc Ho Hfree.
  destruct (createDirectories_spec fs) as (fs1 & H1 & _ & _ & Hf1).
  assert (H2 : checkNotInjected manifest options fs1 = (Ok tt, fs1))
    by (apply checkNotInjected_passes; now left).
  destruct (backupExistingAgents_spec manifest options fs1)
    as (b & fs3 & H3 & _ & _ & _ & Hb & _).
  destruct (Hb B m c) as [-> Hcopy].
  { apply selected_iff. split; [exact Hm|]. exists c.
    rewrite <- agentFile_listing, Hf1. split; [exact Hc|].
    now apply belongsTo_owner. }
  { now rewrite Hf1. }
  { now rewrite Hf1. }
  split.
  - unfold inject. rewrite snd_rethrow.
    rewrite snd_bind_any, H1. rewrite snd_bind_any, H2.
    rewrite snd_bind_any, H3.
    apply (inject_tail_maintains now manifest options (backupName m) (File c) true);
      [| |exact Hcopy].
    + intros Hin. apply in_map_iff in Hin as (a & Ha & _).
      now apply (agentFileName_not_backup a m).
    + right. left. unfold skipped, backupName.
      rewrite endsWith_app_self. apply orb_true_r.
  - intros result fs' H.
    apply inject_inv in H
      as (s1 & s2 & b' & s3 & s4 & paths & s5 & E1 & E2 & E3 & _ & _ & _ & ->).
    assert (s1 = fs1) by congruence. subst s1.
    assert (s2 = fs1) by congruence. subst s2.
    simpl. congruence.
Qed.

Lemma inject_backs_up_replaced_artifact_witness :
  agentFile (snd (inject Scenario.now Scenario.demo
                    (mkInjectOptions true true false) Scenario.afterDemo))
            (backupName (lit "writer.md"))
  = Some (File Scenario.writerFile)
  /\ forall result fs',
       inject Scenario.now Scenario.demo (mkInjectOptions true true false)
              Scenario.afterDemo = (Ok result, fs') ->
       backupCreated result = true.
Proof.
  apply (inject_backs_up_replaced_artifact Scenario.now Scenario.demo
           (mkInjectOptions true true false) Scenario.afterDemo
           (lit "writer.md") Scenario.writerFile).
  - reflexivity.
  - reflexivity.
  - vm_compute. reflexivity.
  - vm_compute. reflexivity.
  - vm_compute. reflexivity.
  - vm_compute. discriminate.
Defined.

Lemma endsWith_refl (p : jstring) : endsWith p p = true.
Proof. apply (endsWith_app_self p []). Qed.

Lemma endsWith_app3 (p a b : jstring) : endsWith p (a ++ b ++ p) = true.
Proof. rewrite app_assoc. apply endsWith_app_self. Qed.

(** What [updateClaudeMd] writes when it answers: a document that ends
    with the generated region. *)
Lemma updateClaudeMd_result (now : jstring) (manifest : Manifest)
    (options : InjectOptions) (fs fs' : FS) :
  updateClaudeMd now InstructionsP manifest options fs = (Ok tt, fs') ->
  exists doc,
    claudeMd fs' = Some (File doc)
    /\ endsWith (generateInstructions now manifest) doc = true
    /\ (force options = true -> merge options = false ->
        doc = generateInstructions now manifest)
    /\ (claudeMd fs = None -> doc = generateInstructions now manifest).
Proof.
  destruct (claudeMd fs) as [[content|]|] eqn:Hc.
  - rewrite (updateClaudeMd_existing now manifest options fs content Hc).
    intros [= <-]. eexists. split; [reflexivity|]. cbv zeta.
    split; [|split; [|discriminate]].
    + unfold stripAndAppend.
      destruct (merge options || negb (force options));
        [|apply endsWith_refl].
      destruct (merge options || includes BTW_START_MARKER content);
        [|exact (endsWith_app3 _ (trim content) SEPARATOR)].
      destruct (truthy (trim (removeBtwContent content)));
        [|apply endsWith_refl].
      exact (endsWith_app3 _ (trim (removeBtwContent content)) SEPARATOR).
    + intros -> ->. reflexivity.
  - unfold updateClaudeMd, bind, fileSystem.exists_. simpl. rewrite Hc. simpl.
    destruct (merge options); simpl.
    + unfold fileSystem.readFile. rewrite Hc. discriminate.
    + destruct (force options); simpl.
      * unfold fileSystem.writeFile. rewrite Hc. discriminate.
      * unfold fileSystem.readFile. rewrite Hc. discriminate.
  - unfold updateClaudeMd, bind, fileSystem.exists_. simpl. rewrite Hc. simpl.
    rewrite andb_false_r. simpl.
    unfold fileSystem.writeFile. rewrite Hc. intros [= <-].
    eexists. split; [reflexivity|]. split; [apply endsWith_refl|].
    split; reflexivity.
Qed.

(** The shared document a run of [inject] starts its last step with is the
    one the run started with. *)
Lemma inject_inv_document (now : jstring) (manifest : Manifest)
    (options : InjectOptions) (fs fs' : FS) (r : InjectionResult) :
  inject now manifest options fs = (Ok r, fs') ->
  exists fs5,
    claudeMd fs5 = claudeMd fs
    /\ updateClaudeMd now InstructionsP manifest options fs5 = (Ok tt, fs').
Proof.
  intros H.
  apply inject_inv in H
    as (fs1 & fs2 & b & fs3 & fs4 & paths & fs5
        & H1 & H2 & H3 & H4 & H5 & H6 & _).
  exists fs5. split; [|exact H6].
  pose proof (spares_createDirectories fs) as E1. rewrite H1 in E1.
  pose proof (spares_checkNotInjected manifest options fs1) as E2. rewrite H2 in E2.
  pose proof (spares_backupExistingAgents manifest options fs2) as E3. rewrite H3 in E3.
  pose proof (spares_removeExistingAgents manifest options fs3) as E4. rewrite H4 in E4.
  pose proof (spares_createAgentFiles now manifest fs4) as E5. rewrite H5 in E5.
  simpl in *. congruence.
Qed.

(** X12. After a run of [inject] that answers, the shared document ends with
    the generated region; a forced run without [merge] leaves nothing but
    the region, whatever the document held before. *)
Theorem inject_document_ends_with_region (now : jstring) (manifest : Manifest)
    (options : InjectOptions) (fs fs' : FS) (result : InjectionResult) :
  inject now manifest options fs = (Ok result, fs') ->
  exists doc,
    claudeMd fs' = Some (File doc)
    /\ endsWith (generateInstructions now manifest) doc = true
    /\ (force options = true -> merge options = false ->
        doc = generateInstructions now manifest).
Proof.
  intros H. apply inject_inv_document in H as (fs5 & _ & H6).
  apply updateClaudeMd_result in H6 as (doc & Hdoc & Hend & Hforce & _).
  now exists doc.
Qed.

Lemma inject_document_ends_with_region_witness :
  exists doc,
    claudeMd (snd (inject Scenario.now Scenario.demo Scenario.forcing
                     (Documents.holding (lit "notes"))))
    = Some (File doc)
    /\ endsWith (generateInstructions Scenario.now Scenario.demo) doc = true
    /\ (force Scenario.forcing = true -> merge Scenario.forcing = false ->
        doc = generateInstructions Scenario.now Scenario.demo).
Proof.
  apply (inject_document_ends_with_region Scenario.now Scenario.demo
           Scenario.forcing (Documents.holding (lit "notes")) _
           (mkInjectionResult claude instructionsPath
              [AgentFileP (lit "writer.md")] 1 false None)).
  vm_compute. reflexivity.
Defined.

Lemma removeBtwContent_unmarked (content : jstring) :
  includes BTW_START_MARKER content = false ->
  removeBtwContent content = content.
Proof.
  unfold includes, removeBtwContent.
  now destruct (indexOf BTW_START_MARKER content).
Qed.

(** X13. A run of [inject] that answers, with [merge] or without [force], on a
    shared document that holds text and no start sentinel: the document
    becomes the trimmed text, the separator and the generated region. *)
Theorem inject_appends_to_unmarked_document (now : jstring) (manifest : Manifest)
    (options : InjectOptions) (fs fs' : FS) (result : InjectionResult)
    (content : jstring) :
  claudeMd fs = Some (File content) ->
  includes BTW_START_MARKER content = false ->
  truthy (trim content) = true ->
  (merge options = true \/ force options = false) ->
  inject now manifest options fs = (Ok result, fs') ->
  claudeMd fs'
  = Some (File (trim content ++ SEPARATOR ++ generateInstructions now manifest)).
Proof.
  intros Hc Hno Htext Hmode H.
  apply inject_inv_document in H as (fs5 & E & H6).
  rewrite Hc in E.
  rewrite (updateClaudeMd_existing now manifest options fs5 content E) in H6.
  injection H6 as <-. cbv zeta. simpl claudeMd. f_equal. f_equal.
  unfold stripAndAppend.
  rewrite (removeBtwContent_unmarked content Hno), Htext, Hno, orb_false_r.
  destruct Hmode as [-> | ->]; [reflexivity|].
  rewrite orb_true_r. now destruct (merge options).
Qed.

Lemma inject_appends_to_unmarked_document_witness :
  claudeMd (snd (inject Scenario.now Scenario.demo Scenario.merging
                   (Documents.holding (lit " notes "))))
  = Some (File (trim (lit " notes ") ++ SEPARATOR
                ++ generateInstructions Scenario.now Scenario.demo)).
Proof.
  apply (inject_appends_to_unmarked_document Scenario.now Scenario.demo
           Scenario.merging (Documents.holding (lit " notes ")) _
           (mkInjectionResult claude instructionsPath
              [AgentFileP (lit "writer.md")] 1 false None)
           (lit " notes ")).
  - reflexivity.
  - vm_compute. reflexivity.
  - vm_compute. reflexivity.
  - left. reflexivity.
  - vm_compute. reflexivity.
Defined.

End InjectFrame.

(* ================================================================== *)
(** * The listing and the loop of the interactive mode *)
(* ================================================================== *)

Section InteractiveMore.

Import ClaudeStrategy.

Lemma listing_fold (now : jstring) (installed : list Manifest) (fs : FS)
    (status : InjectionStatus) :
  getStatus fs = (Ok status, fs) ->
  forall (manifests : list Manifest) (items : list ListItem),
    foldM (fun items manifest =>
             if negb (existsb (AITarget_eqb claude) (m_targets manifest))
             then ret items
             else tryCatch
                    (status <- engine_getStatus (fsCollaborators now installed)
                                 claude ;;
                     let isInjected :=
                       isInjected status &&
                       match status_workflowId status with
                       | Some id => JS.eqb id (m_id manifest)
                       | None => false
                       end in
                     ret (items ++ [mkListItem (m_id manifest) (m_name manifest)
                                      (m_description manifest) isInjected manifest]))
                    (fun _ => ret items))
          manifests items fs
    = (Ok (items
           ++ map (fun manifest =>
                     mkListItem (m_id manifest) (m_name manifest)
                       (m_description manifest)
                       (isInjected status &&
                        match status_workflowId status with
                        | Some id => JS.eqb id (m_id manifest)
                        | None => false
                        end) manifest)
                  (filter (supportsTarget claude) manifests)), fs).
Proof.
  intros Hst manifests. induction manifests as [|m manifests IH];
    intros items; simpl.
  - now rewrite app_nil_r.
  - unfold supportsTarget at 1.
    destruct (existsb (AITarget_eqb claude) (m_targets m)); simpl.
    + unfold bind at 1, tryCatch at 1. simpl.
      unfold InjectionEngine.getStatus. simpl.
      rewrite (bind_step _ _ _ _ _ Hst). simpl.
      rewrite IH, <- app_assoc. reflexivity.
    + unfold bind at 1. simpl. apply IH.
Qed.

(** X14. The list of the interactive mode, over the filesystem: building it
    changes nothing; it holds the installed manifests that declare the
    target, in their order, each under its own id; and it never shows two
    workflows of different ids as injected. *)
Theorem listing_shows_one_workflow_injected (now : jstring)
    (installed : list Manifest) (fs : FS) :
  exists items,
    getAllWorkflowsWithStatus (fsCollaborators now installed) claude fs
    = (Ok items, fs)
    /\ map meta items = filter (supportsTarget claude) installed
    /\ (forall i, In i items -> item_id i = m_id (meta i))
    /\ (forall i j, In i items -> In j items ->
          isActive i = true -> isActive j = true -> item_id i = item_id j).
Proof.
  eexists. split.
  - unfold getAllWorkflowsWithStatus. unfold bind at 1. simpl.
    apply (listing_fold now installed fs _ (getStatus_pure fs)).
  - cbn [app]. split; [|split].
    + rewrite map_map. simpl. apply map_id.
    + intros i Hi. apply in_map_iff in Hi as (m & <- & _). reflexivity.
    + intros i j Hi Hj.
      apply in_map_iff in Hi as (m & <- & _).
      apply in_map_iff in Hj as (m' & <- & _). simpl.
      destruct (isInjected (statusOf (agents fs))); [|discriminate]. simpl.
      destruct (status_workflowId (statusOf (agents fs))) as [id|];
        [|discriminate].
      intros H1 H2. apply eqb_eq in H1, H2. congruence.
Qed.

Lemma tryCatch_ignore_total {S A} (m : M S A) (a : A) (s : S) :
  exists r, tryCatch m (fun _ => ret a) s = (Ok r, snd (m s)).
Proof.
  unfold tryCatch. destruct (m s) as [[x|e] s']; eexists; reflexivity.
Qed.

Lemma items_fold_total {S} (env : Collaborators S) (target : AITarget) :
  forall (manifests : list Manifest) (items : list ListItem) (s : S),
  exists items' s',
    foldM (fun items manifest =>
             if negb (existsb (AITarget_eqb target) (m_targets manifest))
             then ret items
             else tryCatch
                    (status <- engine_getStatus env target ;;
                     let isInjected :=
                       isInjected status &&
                       match status_workflowId status with
                       | Some id => JS.eqb id (m_id manifest)
                       | None => false
                       end in
                     ret (items ++ [mkListItem (m_id manifest) (m_name manifest)
                                      (m_description manifest) isInjected manifest]))
                    (fun _ => ret items))
          manifests items s
    = (Ok items', s').
Proof.
  induction manifests as [|m manifests IH]; intros items s.
  - now exists items, s.
  - cbn [foldM].
    destruct (negb (existsb (AITarget_eqb target) (m_targets m))).
    + unfold bind at 1. simpl. apply IH.
    + match goal with
      | |- context [bind (tryCatch ?body ?h) _ s] =>
          destruct (tryCatch_ignore_total body items s) as (r & Hr)
      end.
      rewrite (bind_step _ _ _ _ _ Hr). apply IH.
Qed.

Lemma getItems_total {S} (env : Collaborators S) (target : AITarget) :
  (forall s, exists manifests s', installedManifests env s = (Ok manifests, s')) ->
  forall s, exists items s',
    getAllWorkflowsWithStatus env target s = (Ok items, s').
Proof.
  intros Henum s. unfold getAllWorkflowsWithStatus.
  destruct (Henum s) as (manifests & s1 & H1).
  rewrite (bind_step _ _ _ _ _ H1). apply items_fold_total.
Qed.

Lemma selectorLoop_total {S} (getItems : M S (list ListItem))
    (toggleItem : jstring -> bool -> M S unit) :
  (forall s, exists items s', getItems s = (Ok items, s')) ->
  forall (selections : list SelectionResult) (items : list ListItem) (s : S),
  exists s', selectorLoop getItems toggleItem selections items s = (Ok tt, s').
Proof.
  intros Hget. induction selections as [|result later IH]; intros items s.
  - now exists s.
  - cbn [selectorLoop].
    destruct (action result); [|now exists s].
    destruct (sel_id result) as [id|]; [|now exists s].
    assert (Hround : exists s1,
               match find (fun i => JS.eqb (item_id i) id) items with
               | Some item =>
                   tryCatch (toggleItem id (isActive item)) (fun _ => ret tt)
               | None => ret tt
               end s = (Ok tt, s1)).
    { destruct (find _ items) as [item|]; [|now exists s].
      destruct (tryCatch_ignore_total (toggleItem id (isActive item)) tt s)
        as ([] & Hr).
      eexists. exact Hr. }
    destruct Hround as (s1 & Hround).
    rewrite (bind_step _ _ _ _ _ Hround).
    destruct (Hget s1) as (items' & s2 & H2).
    rewrite (bind_step _ _ _ _ _ H2). apply IH.
Qed.

(** X15. The interactive mode never ends with an exception, whatever the
    engine and the workflow manager answer or throw, as long as the
    enumeration of the installed workflows answers: a toggle that fails is
    passed over and the loop goes on. *)
Theorem interactive_mode_never_throws {S} (env : Collaborators S)
    (options : InjectCommandOptions) (selections : list SelectionResult) (s : S) :
  (forall s, exists manifests s', installedManifests env s = (Ok manifests, s')) ->
  exists s', executeInteractive env options selections s = (Ok tt, s').
Proof.
  intros Henum. unfold executeInteractive, runInteractiveSelector.
  destruct (getItems_total env (cmd_target options) Henum s) as (items & s1 & H1).
  rewrite (bind_step _ _ _ _ _ H1).
  apply selectorLoop_total. apply getItems_total. exact Henum.
Qed.

Lemma interactive_mode_never_throws_witness :
  exists s',
    executeInteractive (fsCollaborators Scenario.now [Scenario.demo])
      Scenario.unforced [pick (lit "demo"); pick (lit "absent")]
      Scenario.oneUnreadable
    = (Ok tt, s').
Proof.
  apply (interactive_mode_never_throws
           (fsCollaborators Scenario.now [Scenario.demo])
           Scenario.unforced [pick (lit "demo"); pick (lit "absent")]
           Scenario.oneUnreadable).
  intros s. exists [Scenario.demo], s. reflexivity.
Defined.

End InteractiveMore.

Section RecordedRounds.

Variable injectAnswer : Result InjectionResult.
Variable ejectAnswer : Result unit.
Variable statusAnswer : InjectionStatus.
Variable lookupAnswer : jstring -> Result Manifest.
Variable installed : list Manifest.

Let env : Collaborators (list EngineCall) :=
  recordingCollaborators injectAnswer ejectAnswer statusAnswer lookupAnswer installed.

Lemma status_calls_no_mutation (calls : list EngineCall) :
  Forall isStatusCall calls -> filter isMutation calls = [].
Proof.
  induction 1 as [|call calls Hcall _ IH]; [reflexivity|].
  destruct call; try destruct Hcall. exact IH.
Qed.

Lemma onToggle_one_call (options : InjectCommandOptions) (workflowId : jstring)
    (currentlyActive : bool) (log : list EngineCall) :
  exists calls,
    snd (onToggle env options workflowId currentlyActive log) = log ++ calls
    /\ length calls <= 1.
Proof.
  destruct currentlyActive.
  - eexists. split; [apply onToggle_active_log|]. simpl. lia.
  - eexists. split; [apply onToggle_inactive_log|].
    destruct (found (lookupAnswer workflowId)); simpl; lia.
Qed.

Lemma filter_length_le {A} (f : A -> bool) (l : list A) :
  length (filter f l) <= length l.
Proof.
  induction l as [|x l IH]; simpl; [lia|]. destruct (f x); simpl; lia.
Qed.

Lemma selectorLoop_mutations (options : InjectCommandOptions) :
  forall (selections : list SelectionResult) (items : list ListItem)
         (log : list EngineCall),
  exists calls,
    snd (selectorLoop (getAllWorkflowsWithStatus env (cmd_target options))
           (onToggle env options) selections items log)
    = log ++ calls
    /\ length (filter isMutation calls) <= rounds selections.
Proof.
  induction selections as [|result later IH]; intros items log.
  - exists []. simpl. rewrite app_nil_r. split; [reflexivity | lia].
  - cbn [selectorLoop rounds]. unfold isToggle.
    destruct (action result);
      [|exists []; simpl; rewrite app_nil_r; split; [reflexivity | lia]].
    destruct (sel_id result) as [id|];
      [|exists []; simpl; rewrite app_nil_r; split; [reflexivity | lia]].
    assert (Hround : exists calls1 log1,
               match find (fun i => JS.eqb (item_id i) id) items with
               | Some item =>
                   tryCatch (onToggle env options id (isActive item))
                            (fun _ => ret tt)
               | None => ret tt
               end log = (Ok tt, log1)
               /\ log1 = log ++ calls1 /\ length calls1 <= 1).
    { destruct (find _ items) as [item|].
      - destruct (onToggle_one_call options id (isActive item) log)
          as (calls1 & E & Hlen).
        destruct (tryCatch_ignore_total (onToggle env options id (isActive item))
                    tt log) as ([] & Hr).
        exists calls1. eexists. split; [exact Hr|]. split; [exact E | exact Hlen].
      - exists [], log. rewrite app_nil_r. simpl. repeat split. lia. }
    destruct Hround as (calls1 & log1 & Hround & -> & Hlen).
    rewrite (bind_step _ _ _ _ _ Hround).
    destruct (getItems_log injectAnswer ejectAnswer statusAnswer lookupAnswer
                installed (cmd_target options) (log ++ calls1))
      as (items' & calls2 & H2 & Hstatus).
    fold env in H2. rewrite (bind_step _ _ _ _ _ H2).
    destruct (IH items' ((log ++ calls1) ++ calls2)) as (calls3 & E3 & Hlen3).
    exists (calls1 ++ calls2 ++ calls3). split.
    + rewrite E3. now rewrite <- !app_assoc.
    + rewrite !filter_app, !length_app.
      rewrite (status_calls_no_mutation calls2 Hstatus). simpl.
      pose proof (filter_length_le isMutation calls1). lia.
Qed.

(** X16. The interactive mode changes the project at most once per round: over
    a run of selections, the [inject] and [eject] calls it makes number at
    most the toggles before the first selection that ends the loop; all its
    other calls ask for the status. *)
Theorem interactive_mutations_bounded (options : InjectCommandOptions)
    (selections : list SelectionResult) (log : list EngineCall) :
  exists calls,
    snd (executeInteractive env options selections log) = log ++ calls
    /\ length (filter isMutation calls) <= rounds selections.
Proof.
  unfold executeInteractive, runInteractiveSelector.
  destruct (getItems_log injectAnswer ejectAnswer statusAnswer lookupAnswer
              installed (cmd_target options) log)
    as (items & calls0 & H0 & Hstatus).
  fold env in H0. rewrite (bind_step _ _ _ _ _ H0).
  destruct (selectorLoop_mutations options selections items (log ++ calls0))
    as (calls & E & Hlen).
  exists (calls0 ++ calls). split.
  - rewrite E. now rewrite <- app_assoc.
  - rewrite filter_app, length_app, (status_calls_no_mutation calls0 Hstatus).
    simpl. exact Hlen.
Qed.

End RecordedRounds.

(* ================================================================== *)
(** * The [inject] command without [--interactive] *)
(* ================================================================== *)

Section Command.

Import ClaudeStrategy.

(** X17. [executeInject] never ends with an exception, whatever its
    collaborators answer or throw. It leaves the exit code unset only when
    the workflow was found, its manifest declares the target, and the
    engine's [inject], called with the caller's own [backup], [force] and
    [merge], answered with success; in every other case it sets the exit
    code 1. *)
Theorem executeInject_reports_every_failure {S} (env : Collaborators S)
    (workflowId : jstring) (options : InjectCommandOptions) (s : S) :
  exists code s',
    executeInject env workflowId options s = (Ok code, s')
    /\ (code = None \/ code = Some 1)
    /\ (code = None ->
        exists workflowResult manifest s0 result,
          workflowManager_get env workflowId s = (Ok workflowResult, s0)
          /\ found workflowResult = Some manifest
          /\ validateManifestForTarget manifest (cmd_target options) = true
          /\ engine_inject env manifest (cmd_target options)
                (commandOptions options) s0 = (Ok result, s')
          /\ success result = true).
Proof.
  unfold executeInject. cbv zeta.
  destruct (negb (InjectionEngine.isTargetSupported (cmd_target options))).
  { exists (Some 1), s. split; [reflexivity|]. split; [now right | discriminate]. }
  unfold tryCatch, bind.
  destruct (workflowManager_get env workflowId s) as [[workflowResult|e] s0] eqn:Hget.
  2:{ exists (Some 1), s0. split; [reflexivity|]. split; [now right | discriminate]. }
  destruct (if success workflowResult then data workflowResult else None)
    as [manifest|] eqn:Hfound.
  2:{ exists (Some 1), s0. split; [reflexivity|]. split; [now right | discriminate]. }
  destruct (validateManifestForTarget manifest (cmd_target options)) eqn:Hval; simpl.
  2:{ exists (Some 1), s0. split; [reflexivity|]. split; [now right | discriminate]. }
  destruct (engine_inject env manifest (cmd_target options)
              (mkInjectOptions (cmd_backup options) (orFalse (cmd_force options))
                 (orFalse (cmd_merge options))) s0)
    as [[result|e] s1] eqn:Hinj.
  2:{ exists (Some 1), s1. split; [reflexivity|]. split; [now right | discriminate]. }
  destruct (success result && isSome (data result)) eqn:Hok.
  - exists None, s1. split; [reflexivity|]. split; [now left|]. intros _.
    exists workflowResult, manifest, s0, result.
    apply andb_true_iff in Hok as [Hok _].
    repeat split; assumption.
  - exists (Some 1), s1. split; [reflexivity|]. split; [now right | discriminate].
Qed.

(** [inject] turns down a duplicate and leaves the project as it was. *)
Lemma inject_duplicate_throws (now : jstring) (manifest : Manifest)
    (options : InjectOptions) (fs : FS) (n c : jstring) :
  force options = false ->
  skipped n = false ->
  agentFile fs n = Some (File c) ->
  ownerOf c = Some (m_id manifest) ->
  exists e, inject now manifest options fs = (Throw e, fs).
Proof.
  intros Hforce Hn Hc Ho. unfold agentFile in Hc.
  destruct (agents fs) as [d|] eqn:Hd; [|discriminate].
  destruct (mkdir_existing fs d Hd) as [Hm1 Hm2].
  assert (Hex : existsb (JS.eqb (m_id manifest))
                  (collectIds d (map fst d) []) = true).
  { apply existsb_exists. exists (m_id manifest). split; [|apply eqb_refl].
    apply (collectIds_complete d (map fst d) [] n c); try assumption.
    now apply (lookup_In n d (File c)). }
  eexists. unfold inject, claudeDir, agentsPath.
  eapply tryCatch_throw.
  { eapply bind_ok.
    { unfold createDirectories. eapply bind_ok; [exact Hm1 | exact Hm2]. }
    apply bind_throw. unfold checkNotInjected.
    rewrite Hforce. simpl negb. cbv iota.
    eapply bind_ok; [apply isWorkflowInjected_pure|].
    rewrite Hd, Hex. reflexivity. }
  reflexivity.
Qed.

(** X18. Over the filesystem, [executeInject] without [--force] on a workflow
    of which an artifact is already in the project sets the exit code 1
    and leaves the project as it was. *)
Theorem executeInject_duplicate_exits_1 (now : jstring)
    (installed : list Manifest) (options : InjectCommandOptions)
    (workflowId : jstring) (fs : FS) (n c : jstring) :
  orFalse (cmd_force options) = false ->
  skipped n = false ->
  agentFile fs n = Some (File c) ->
  ownerOf c = Some workflowId ->
  executeInject (fsCollaborators now installed) workflowId options fs
  = (Ok (Some 1), fs).
Proof.
  intros Hforce Hn Hc Ho. unfold executeInject. cbv zeta.
  destruct (InjectionEngine.isTargetSupported (cmd_target options)) eqn:Ht;
    [|reflexivity].
  simpl negb. cbv iota. unfold tryCatch, bind. simpl.
  destruct (find (fun m => JS.eqb (m_id m) workflowId) installed)
    as [manifest|] eqn:Hfind; [|reflexivity].
  simpl. apply find_some in Hfind as [_ Hid]. apply eqb_eq in Hid.
  destruct (validateManifestForTarget manifest (cmd_target options));
    [|reflexivity].
  simpl. unfold InjectionEngine.inject. rewrite Ht.
  unfold InjectionEngine.capture.
  destruct (inject_duplicate_throws now manifest
              (mkInjectOptions (cmd_backup options) (orFalse (cmd_force options))
                 (orFalse (cmd_merge options))) fs n c) as (e & He);
    try assumption; [congruence|].
  rewrite He. reflexivity.
Qed.

Lemma executeInject_duplicate_exits_1_witness :
  executeInject (fsCollaborators Scenario.now [Scenario.demo; Scenario.other])
    (lit "demo") Scenario.unforced Scenario.afterDemo
  = (Ok (Some 1), Scenario.afterDemo).
Proof.
  apply (executeInject_duplicate_exits_1 Scenario.now
           [Scenario.demo; Scenario.other] Scenario.unforced (lit "demo")
           Scenario.afterDemo (lit "writer.md") Scenario.writerFile).
  - reflexivity.
  - vm_compute. reflexivity.
  - vm_compute. reflexivity.
  - vm_compute. reflexivity.
Defined.

End Command.

(* ================================================================== *)
(** * The cursor of the interactive list *)
(* ================================================================== *)

Section ListCursor.

Import InteractiveList.

Lemma count_nonneg (st : state) : (0 <= count st)%Z.
Proof. unfold count. lia. Qed.

Lemma onItem_create (l : list ListItem) : onItem (create l).
Proof. unfold onItem, create, count. simpl. lia. Qed.

Lemma moveDown_index (st : state) :
  onItem st -> (count st <> 0)%Z ->
  moveDown st = mkState (items st) ((selectedIndex st + 1) mod count st).
Proof.
  intros [H0 H1] Hn. unfold moveDown.
  destruct (count st =? 0)%Z eqn:E; [apply Z.eqb_eq in E; contradiction|].
  pose proof (count_nonneg st). rewrite Z.rem_mod_nonneg by lia. reflexivity.
Qed.

Lemma moveUp_index (st : state) :
  onItem st -> (count st <> 0)%Z ->
  moveUp st = mkState (items st) ((selectedIndex st - 1 + count st) mod count st).
Proof.
  intros [H0 H1] Hn. unfold moveUp.
  destruct (count st =? 0)%Z eqn:E; [apply Z.eqb_eq in E; contradiction|].
  pose proof (count_nonneg st). rewrite Z.rem_mod_nonneg by lia. reflexivity.
Qed.

Lemma onItem_moveDown (st : state) : onItem st -> onItem (moveDown st).
Proof.
  intros H. destruct (Z.eq_dec (count st) 0) as [E | E].
  - unfold moveDown. apply Z.eqb_eq in E. now rewrite E.
  - rewrite (moveDown_index st H E). unfold onItem, count. simpl.
    pose proof (count_nonneg st). fold (count st).
    pose proof (Z.mod_pos_bound (selectedIndex st + 1) (count st)). lia.
Qed.

Lemma onItem_moveUp (st : state) : onItem st -> onItem (moveUp st).
Proof.
  intros H. destruct (Z.eq_dec (count st) 0) as [E | E].
  - unfold moveUp. apply Z.eqb_eq in E. now rewrite E.
  - rewrite (moveUp_index st H E). unfold onItem, count. simpl.
    pose proof (count_nonneg st). fold (count st).
    pose proof (Z.mod_pos_bound (selectedIndex st - 1 + count st) (count st)). lia.
Qed.

Lemma items_moveDown (st : state) : items (moveDown st) = items st.
Proof. unfold moveDown. now destruct (count st =? 0)%Z. Qed.

Lemma items_moveUp (st : state) : items (moveUp st) = items st.
Proof. unfold moveUp. now destruct (count st =? 0)%Z. Qed.

Lemma onItem_updateItems (l : list ListItem) (st : state) :
  onItem st -> onItem (updateItems l st).
Proof.
  intros [H0 H1]. unfold onItem, updateItems, count. simpl.
  destruct (Z.of_nat (length l) <=? selectedIndex st)%Z eqn:E.
  - lia.
  - apply Z.leb_gt in E. lia.
Qed.

Lemma itemAt_onItem (st : state) :
  onItem st -> (count st <> 0)%Z -> exists item, itemAt st = Some item.
Proof.
  intros [H0 H1] Hn. unfold itemAt.
  destruct (selectedIndex st <? 0)%Z eqn:E; [apply Z.ltb_lt in E; lia|].
  destruct (nth_error (items st) (Z.to_nat (selectedIndex st))) as [item|] eqn:Hnth.
  - now exists item.
  - apply nth_error_None in Hnth. unfold count in *. lia.
Qed.

Lemma select_onItem (st : state) :
  onItem st ->
  match select st with
  | Stay st' => onItem st' /\ items st' = items st
  | Resolve result =>
      result = cancelled
      \/ exists item, itemAt st = Some item
                      /\ result = mkSelection (Some (item_id item)) toggle
  | Crash => False
  end.
Proof.
  intros H. unfold select.
  destruct (count st =? 0)%Z eqn:E; [now left|].
  apply Z.eqb_neq in E.
  destruct (itemAt_onItem st H E) as (item & ->).
  right. now exists item.
Qed.

(** What a key press does to a list whose cursor is on an item. *)
Lemma onData_onItem (key : list N) (st : state) :
  onItem st ->
  match onData key st with
  | Stay st' => onItem st' /\ items st' = items st
  | Resolve result =>
      result = cancelled
      \/ exists item, itemAt st = Some item
                      /\ result = mkSelection (Some (item_id item)) toggle
  | Crash => False
  end.
Proof.
  intros H. unfold onData, handleKeypress.
  destruct (byteIs key 0 3); [now left|].
  destruct (byteIs key 0 27).
  - destruct (byteIs key 1 91); [|now left].
    destruct (byteIs key 2 65);
      [split; [now apply onItem_moveUp | apply items_moveUp]|].
    destruct (byteIs key 2 66);
      [split; [now apply onItem_moveDown | apply items_moveDown]|].
    now split.
  - destruct (keyStrIs key 13 || keyStrIs key 10); [now apply select_onItem|].
    destruct (keyStrIs key 113 || keyStrIs key 81); [now left|].
    destruct (keyStrIs key 106);
      [split; [now apply onItem_moveDown | apply items_moveDown]|].
    destruct (keyStrIs key 107);
      [split; [now apply onItem_moveUp | apply items_moveUp]|].
    now split.
Qed.

Lemma rem_down_up (c i : Z) :
  (0 <= i < c)%Z -> Z.rem (Z.rem (i + 1) c - 1 + c) c = i.
Proof.
  intros H. rewrite (Z.rem_mod_nonneg (i + 1) c) by lia.
  destruct (Z.eq_dec (i + 1) c) as [E | E].
  - rewrite E, Z_mod_same_full. rewrite Z.rem_mod_nonneg by lia.
    rewrite Z.mod_small by lia. lia.
  - rewrite (Z.mod_small (i + 1) c) by lia.
    rewrite Z.rem_mod_nonneg by lia.
    replace (i + 1 - 1 + c)%Z with (i + 1 * c)%Z by lia.
    rewrite Z_mod_plus_full. apply Z.mod_small. lia.
Qed.

Lemma rem_up_down (c i : Z) :
  (0 <= i < c)%Z -> Z.rem (Z.rem (i - 1 + c) c + 1) c = i.
Proof.
  intros H. rewrite (Z.rem_mod_nonneg (i - 1 + c) c) by lia.
  destruct (Z.eq_dec i 0) as [E | E].
  - subst i. rewrite (Z.mod_small (0 - 1 + c) c) by lia.
    rewrite Z.rem_mod_nonneg by lia.
    replace (0 - 1 + c + 1)%Z with c by lia. apply Z_mod_same_full.
  - replace (i - 1 + c)%Z with (i - 1 + 1 * c)%Z by lia.
    rewrite Z_mod_plus_full, (Z.mod_small (i - 1) c) by lia.
    rewrite Z.rem_mod_nonneg by lia.
    replace (i - 1 + 1)%Z with i by lia. apply Z.mod_small. lia.
Qed.

Lemma moveUp_moveDown (st : state) : onItem st -> moveUp (moveDown st) = st.
Proof.
  destruct st as [l i]. unfold onItem, moveUp, moveDown, count. simpl.
  intros H. destruct (Z.of_nat (length l) =? 0)%Z eqn:E; simpl; rewrite E.
  - reflexivity.
  - apply Z.eqb_neq in E. f_equal. apply rem_down_up. lia.
Qed.

Lemma moveDown_moveUp (st : state) : onItem st -> moveDown (moveUp st) = st.
Proof.
  destruct st as [l i]. unfold onItem, moveUp, moveDown, count. simpl.
  intros H. destruct (Z.of_nat (length l) =? 0)%Z eqn:E; simpl; rewrite E.
  - reflexivity.
  - apply Z.eqb_neq in E. f_equal. apply rem_up_down. lia.
Qed.

(** X19. On a list whose cursor is on an item, moving down and moving up undo
    each other, also across the ends of the list. *)
Theorem cursor_moves_undo_each_other (st : state) :
  onItem st ->
  moveUp (moveDown st) = st /\ moveDown (moveUp st) = st.
Proof.
  intros H. split; [now apply moveUp_moveDown | now apply moveDown_moveUp].
Qed.

Lemma cursor_moves_undo_each_other_witness :
  moveUp (moveDown Screens.onSecond) = Screens.onSecond
  /\ moveDown (moveUp Screens.onSecond) = Screens.onSecond.
Proof.
  apply (cursor_moves_undo_each_other Screens.onSecond).
  vm_compute. split; [discriminate | reflexivity].
Defined.

Lemma iter_moveDown (st : state) (k : nat) :
  onItem st -> (count st <> 0)%Z ->
  Nat.iter k moveDown st
  = mkState (items st) ((selectedIndex st + Z.of_nat k) mod count st).
Proof.
  intros H Hn. pose proof (count_nonneg st) as Hc.
  induction k as [|k IH].
  - simpl. destruct st as [l i]. unfold onItem, count in *. simpl in *.
    rewrite Z.add_0_r, Z.mod_small by lia. reflexivity.
  - simpl Nat.iter. rewrite IH.
    rewrite moveDown_index.
    + simpl. unfold count at 1 2. simpl. fold (count st).
      rewrite Zplus_mod_idemp_l. f_equal. f_equal. lia.
    + unfold onItem, count. simpl. fold (count st).
      pose proof (Z.mod_pos_bound (selectedIndex st + Z.of_nat k) (count st)).
      lia.
    + exact Hn.
Qed.

(** X20. Moving down as many times as the list has items brings the cursor
    back to where it was. *)
Theorem cursor_cycles (st : state) :
  onItem st -> Nat.iter (length (items st)) moveDown st = st.
Proof.
  intros H. destruct (Z.eq_dec (count st) 0) as [E | E].
  - unfold count in E. destruct (items st); [reflexivity | simpl in E; lia].
  - rewrite (iter_moveDown st _ H E). fold (count st).
    replace (selectedIndex st + count st)%Z
      with (selectedIndex st + 1 * count st)%Z by lia.
    rewrite Z_mod_plus_full.
    destruct st as [l i]. unfold onItem, count in *. simpl in *.
    rewrite Z.mod_small by lia. reflexivity.
Qed.

Lemma cursor_cycles_witness :
  Nat.iter 2 moveDown Screens.onSecond = Screens.onSecond.
Proof.
  apply (cursor_cycles Screens.onSecond).
  vm_compute. split; [discriminate | reflexivity].
Defined.

Lemma find_nth_NoDup (l : list ListItem) (n : nat) (item : ListItem) :
  NoDup (map item_id l) ->
  nth_error l n = Some item ->
  find (fun i => JS.eqb (item_id i) (item_id item)) l = Some item.
Proof.
  revert n. induction l as [|x l IH]; intros n Hnd Hn.
  - destruct n; discriminate.
  - simpl in Hnd. inversion Hnd as [|? ? Hx Hnd']; subst.
    destruct n as [|n]; simpl in *.
    + injection Hn as ->. now rewrite eqb_refl.
    + destruct (JS.eqb (item_id x) (item_id item)) eqn:E.
      * apply eqb_eq in E. exfalso. apply Hx. rewrite E.
        apply in_map. now apply (nth_error_In l n).
      * now apply (IH n).
Qed.

(** X21. When the ids of the items are distinct, a key press that resolves the
    list to a toggle names the item under the cursor, and the lookup of
    [runInteractiveSelector] by that id finds this very item. *)
Theorem toggle_names_item_under_cursor (key : list N) (st : state)
    (result : SelectionResult) :
  onItem st ->
  NoDup (map item_id (items st)) ->
  onData key st = Resolve result ->
  action result = toggle ->
  exists item,
    itemAt st = Some item
    /\ sel_id result = Some (item_id item)
    /\ find (fun i => JS.eqb (item_id i) (item_id item)) (items st) = Some item.
Proof.
  intros H Hnd Hkey Hact. pose proof (onData_onItem key st H) as Hd.
  rewrite Hkey in Hd. destruct Hd as [-> | (item & Hat & ->)]; [discriminate|].
  exists item. split; [exact Hat|]. split; [reflexivity|].
  unfold itemAt in Hat. destruct (selectedIndex st <? 0)%Z; [discriminate|].
  now apply (find_nth_NoDup _ _ _ Hnd Hat).
Qed.

Lemma toggle_names_item_under_cursor_witness :
  exists item,
    itemAt Screens.onSecond = Some item
    /\ sel_id (mkSelection (Some (lit "other")) toggle) = Some (item_id item)
    /\ find (fun i => JS.eqb (item_id i) (item_id item))
             (items Screens.onSecond)
       = Some item.
Proof.
  apply (toggle_names_item_under_cursor [13%N] Screens.onSecond
           (mkSelection (Some (lit "other")) toggle)).
  - vm_compute. split; [discriminate | reflexivity].
  - simpl. repeat constructor; simpl; intuition discriminate.
  - vm_compute. reflexivity.
  - reflexivity.
Defined.

Lemma keySession_refines {S} (getItems : M S (list ListItem))
    (toggleItem : jstring -> bool -> M S unit) :
  forall (keys : list (list N)) (st : state) (s : S),
    onItem st ->
    exists selections,
      keySession getItems toggleItem keys st s
      = selectorLoop getItems toggleItem selections (items st) s.
Proof.
  induction keys as [|key later IH]; intros st s H.
  - now exists [].
  - cbn [keySession]. pose proof (onData_onItem key st H) as Hd.
    destruct (onData key st) as [st' | result |].
    + destruct Hd as [H' Hitems].
      destruct (IH st' s H') as (selections & E).
      exists selections. now rewrite <- Hitems.
    + destruct Hd as [-> | (item & _ & ->)].
      * now exists [cancelled].
      * cbn [action sel_id].
        match goal with
        | |- context [bind ?round _ s] =>
            destruct (round s) as [[u|e] s1] eqn:Hround
        end.
        -- destruct (getItems s1) as [[items'|e] s2] eqn:Hget.
           ++ destruct (IH (updateItems items' st) s2
                          (onItem_updateItems items' st H)) as (selections & E).
              exists (mkSelection (Some (item_id item)) toggle :: selections).
              cbn [selectorLoop action sel_id].
              unfold bind at 1. rewrite Hround.
              unfold bind at 1. rewrite Hget.
              unfold bind at 1. rewrite Hround.
              unfold bind at 1. rewrite Hget. exact E.
           ++ exists [mkSelection (Some (item_id item)) toggle].
              cbn [selectorLoop action sel_id].
              unfold bind at 1. rewrite Hround.
              unfold bind at 1. rewrite Hget.
              unfold bind at 1. rewrite Hround.
              unfold bind at 1. rewrite Hget. reflexivity.
        -- exists [mkSelection (Some (item_id item)) toggle].
           cbn [selectorLoop action sel_id].
           unfold bind at 1. rewrite Hround.
           unfold bind at 1. rewrite Hround. reflexivity.
    + destruct Hd.
Qed.

(** X22. Every session of [runInteractiveSelector] over key presses is a run of
    the selector loop over some selections: the cursor never leaves the
    list, so no listener dies of a [TypeError], and each resolution is a
    cancellation or the toggle of a listed item. *)
Theorem key_session_is_selector_run {S} (isTTY : bool)
    (getItems : M S (list ListItem)) (toggleItem : jstring -> bool -> M S unit)
    (keys : list (list N)) (s : S) :
  exists selections,
    runFromKeys isTTY getItems toggleItem keys s
    = runInteractiveSelector getItems toggleItem selections s.
Proof.
  unfold runFromKeys, runInteractiveSelector.
  destruct (getItems s) as [[l|e] s1] eqn:Hget.
  - destruct isTTY.
    + destruct (keySession_refines getItems toggleItem keys (create l) s1
                  (onItem_create l)) as (selections & E).
      exists selections. unfold bind. rewrite Hget. exact E.
    + exists []. unfold bind. rewrite Hget. reflexivity.
  - exists []. unfold bind. rewrite Hget. reflexivity.
Qed.

End ListCursor.

(* ================================================================== *)
(** * The [update] command *)
(* ================================================================== *)

Section UpdateCommand.




Lemma updateLoop_failures (ids : list jstring)
    (answer : jstring -> Result WorkflowUpdate) :
  forall (workflows : list jstring) (counts : UpdateCounts),
  exists counts',
    foldM (updateOne (answering ids answer)) workflows counts tt
    = (Ok counts', tt)
    /\ failCount counts'
       = failCount counts
         + length (filter (fun id => isFailedUpdate (answer id)) workflows).
Proof.
  induction workflows as [|w workflows IH]; intros counts.
  - exists counts. split; [reflexivity|]. simpl. lia.
  - cbn [foldM filter]. unfold updateOne at 1, tryCatch, bind at 1 2. simpl.
    unfold isFailedUpdate at 1.
    destruct (success (answer w) && isSome (data (answer w))); simpl.
    + destruct (IH (mkCounts (successCount counts + 1) (failCount counts)
                      (skipCount counts))) as (c & H & E).
      exists c. split; [exact H | exact E].
    + destruct (isLocalWorkflow (answer w)); simpl.
      * destruct (IH (mkCounts (successCount counts) (failCount counts)
                        (skipCount counts + 1))) as (c & H & E).
        exists c. split; [exact H | exact E].
      * destruct (IH (mkCounts (successCount counts) (failCount counts + 1)
                        (skipCount counts))) as (c & H & E).
        exists c. split; [exact H|]. rewrite E. simpl. lia.
Qed.

Lemma filter_length_existsb {A} (f : A -> bool) (l : list A) :
  (0 <? length (filter f l)) = existsb f l.
Proof.
  induction l as [|x l IH]; [reflexivity|]. simpl.
  destruct (f x); [reflexivity | exact IH].
Qed.

(** X24. Updating all workflows, with [--all] or without a workflow id, sets
    the exit code 1 exactly when some update failed; an update that is
    refused for a local path is skipped and is no failure. *)
Theorem update_all_exit_code (ids : list jstring)
    (answer : jstring -> Result WorkflowUpdate)
    (workflowId : option jstring) (all : option bool) :
  orFalse all = true \/ truthyOpt workflowId = false ->
  executeUpdate (answering ids answer) workflowId all tt
  = (Ok (if existsb (fun id => isFailedUpdate (answer id)) ids
         then Some 1 else None), tt).
Proof.
  intros Hall.
  assert (Hrun : updateAllWorkflows (answering ids answer) tt
                 = (Ok (if existsb (fun id => isFailedUpdate (answer id)) ids
                        then Some 1 else None), tt)).
  { unfold updateAllWorkflows, bind at 1. simpl.
    destruct ids as [|w ids]; [reflexivity|].
    cbn [length Nat.eqb].
    destruct (updateLoop_failures (w :: ids) answer (w :: ids) (mkCounts 0 0 0))
      as (c & H & E).
    unfold updateLoop. rewrite (bind_step _ _ _ _ _ H). rewrite E.
    cbn [failCount Nat.add]. rewrite filter_length_existsb.
    now destruct (existsb _ (w :: ids)). }
  unfold executeUpdate, tryCatch.
  destruct workflowId as [id|]; [|now rewrite Hrun].
  simpl in Hall.
  assert (Hc : orFalse all || negb (truthy id) = true).
  { destruct Hall as [-> | ->]; [reflexivity | apply orb_true_r]. }
  now rewrite Hc, Hrun.
Qed.

Lemma update_all_exit_code_witness :
  executeUpdate
    (answering [lit "demo"; lit "other"]
       (fun id => if JS.eqb id (lit "demo")
                  then failed (lit "Cannot update: local path")
                  else succeeded (mkWorkflowUpdate (lit "1.0") None)))
    (Some (lit "demo")) (Some true) tt
  = (Ok (if existsb
              (fun id => isFailedUpdate
                           (if JS.eqb id (lit "demo")
                            then failed (lit "Cannot update: local path")
                            else succeeded (mkWorkflowUpdate (lit "1.0") None)))
              [lit "demo"; lit "other"]
         then Some 1 else None), tt).
Proof.
  apply (update_all_exit_code [lit "demo"; lit "other"]
           (fun id => if JS.eqb id (lit "demo")
                      then failed (lit "Cannot update: local path")
                      else succeeded (mkWorkflowUpdate (lit "1.0") None))
           (Some (lit "demo")) (Some true)).
  left. reflexivity.
Defined.

(** X25. Updating a single workflow sets the exit code 1 whenever the update
    does not succeed, also when it is refused for a local path, which the
    update of all workflows passes over. *)
Theorem update_single_exit_code (ids : list jstring)
    (answer : jstring -> Result WorkflowUpdate)
    (id : jstring) (all : option bool) :
  orFalse all = false ->
  truthy id = true ->
  executeUpdate (answering ids answer) (Some id) all tt
  = (Ok (if success (answer id) && isSome (data (answer id))
         then None else Some 1), tt).
Proof.
  intros Hall Hid. unfold executeUpdate. rewrite Hall, Hid. simpl.
  unfold updateSingleWorkflow, tryCatch, bind. simpl.
  now destruct (success (answer id) && isSome (data (answer id))).
Qed.

Lemma update_single_exit_code_witness :
  executeUpdate
    (answering [lit "demo"] (fun _ => failed (lit "Cannot update: local path")))
    (Some (lit "demo")) None tt
  = (Ok (if success (failed (A:=WorkflowUpdate) (lit "Cannot update: local path"))
            && isSome (data (failed (A:=WorkflowUpdate)
                               (lit "Cannot update: local path")))
         then None else Some 1), tt).
Proof.
  apply (update_single_exit_code [lit "demo"]
           (fun _ => failed (lit "Cannot update: local path"))
           (lit "demo") None).
  - reflexivity.
  - vm_compute. reflexivity.
Defined.

Lemma recorded_updates (ids : list jstring)
    (answer : jstring -> Result WorkflowUpdate) :
  forall (workflows : list jstring) (counts : UpdateCounts) (log : list jstring),
  exists counts',
    foldM (updateOne (recordingUpdates ids answer)) workflows counts log
    = (Ok counts', log ++ workflows).
Proof.
  induction workflows as [|w workflows IH]; intros counts log.
  - exists counts. simpl. now rewrite app_nil_r.
  - cbn [foldM]. unfold updateOne at 1, tryCatch, bind at 1 2. simpl.
    replace (log ++ w :: workflows) with ((log ++ [w]) ++ workflows)
      by now rewrite <- app_assoc.
    destruct (success (answer w) && isSome (data (answer w)));
      [|destruct (isLocalWorkflow (answer w))]; apply IH.
Qed.

(** X26. Updating all workflows asks for the update of every listed workflow
    once, in the order of the list; a failure does not end the loop. *)
Theorem update_all_visits_every_workflow (ids : list jstring)
    (answer : jstring -> Result WorkflowUpdate) (all : option bool)
    (log : list jstring) :
  snd (executeUpdate (recordingUpdates ids answer) None all log) = log ++ ids.
Proof.
  unfold executeUpdate, tryCatch, updateAllWorkflows, bind at 1. simpl.
  destruct ids as [|w ids]; [simpl; now rewrite app_nil_r|].
  cbn [length Nat.eqb]. unfold updateLoop.
  destruct (recorded_updates (w :: ids) answer (w :: ids) (mkCounts 0 0 0) log)
    as (c & H).
  rewrite (bind_step _ _ _ _ _ H).
  now destruct (0 <? failCount c).
Qed.

End UpdateCommand.

(* ================================================================== *)
(** * The marker of a generated agent file is read back *)
(* ================================================================== *)

Section MarkerRoundTrip.

Import ClaudeStrategy.

Lemma hashFree_In (s : jstring) : hashFree s = true <-> ~ In 35%N s.
Proof.
  unfold hashFree. rewrite negb_true_iff. split.
  - intros H Hin. assert (E : existsb (N.eqb 35) s = true).
    { apply existsb_exists. exists 35%N. split; [exact Hin | reflexivity]. }
    congruence.
  - intros H. destruct (existsb (N.eqb 35) s) eqn:E; [|reflexivity].
    apply existsb_exists in E as (c & Hc & Ec). apply N.eqb_eq in Ec.
    subst c. contradiction.
Qed.

Lemma matchWorkflow_miss (c : char) (s : jstring) :
  startsWith (lit "# workflow: ") (c :: s) = false ->
  matchWorkflow (c :: s) = matchWorkflow s.
Proof. intros H. cbn [matchWorkflow]. now rewrite H. Qed.

Lemma matchWorkflow_skip (p rest : jstring) :
  ~ In 35%N p -> matchWorkflow (p ++ rest) = matchWorkflow rest.
Proof.
  induction p as [|c p IH]; intros H; [reflexivity|].
  simpl app. rewrite matchWorkflow_miss.
  - apply IH. intros Hin. apply H. now right.
  - change (lit "# workflow: ") with (35%N :: lit " workflow: ").
    cbn [startsWith]. destruct (N.eqb 35 c) eqn:E; [|reflexivity].
    apply N.eqb_eq in E. exfalso. apply H. now left.
Qed.

Lemma matchWorkflow_hit (content capture : jstring) :
  startsWith (lit "# workflow: ") content = true ->
  takeWhile (fun c => negb (isLineTerminator c)) (skipn 12 content) = capture ->
  capture <> [] ->
  matchWorkflow content = Some capture.
Proof.
  intros Hs Ht Hne. destruct content as [|c content]; [discriminate|].
  cbn [matchWorkflow]. rewrite Hs, Ht.
  destruct capture; [contradiction | reflexivity].
Qed.

Lemma takeWhile_line (id rest : jstring) :
  existsb isLineTerminator id = false ->
  takeWhile (fun c => negb (isLineTerminator c)) (id ++ LF :: rest) = id.
Proof.
  induction id as [|c id IH]; intros H.
  - reflexivity.
  - simpl in H. apply orb_false_iff in H as [Hc Hid].
    simpl. rewrite Hc. simpl. now rewrite IH.
Qed.

Lemma join_prefix (sep : jstring) (xs : list jstring) (y : jstring)
    (ys : list jstring) :
  join sep (xs ++ y :: ys)
  = concat (map (fun x => x ++ sep) xs) ++ join sep (y :: ys).
Proof.
  induction xs as [|x xs IH]; [reflexivity|].
  replace (join sep ((x :: xs) ++ y :: ys))
    with (x ++ sep ++ join sep (xs ++ y :: ys)).
  - rewrite IH. simpl. now rewrite <- !app_assoc.
  - simpl. destruct (xs ++ y :: ys) eqn:E; [|reflexivity].
    now destruct xs.
Qed.

Lemma notIn_lines (xs : list jstring) :
  Forall (fun x => ~ In 35%N x) xs ->
  ~ In 35%N (concat (map (fun x => x ++ [LF]) xs)).
Proof.
  induction 1 as [|x xs Hx _ IH]; simpl; [tauto|].
  intros Hin. apply in_app_or in Hin as [Hin | Hin]; [|contradiction].
  apply in_app_or in Hin as [Hin | [Hin | []]]; [contradiction | discriminate].
Qed.

Lemma notIn_escapeYamlString (s : jstring) :
  ~ In 35%N s -> ~ In 35%N (escapeYamlString s).
Proof.
  intros H. unfold escapeYamlString.
  destruct (includes (lit ":") s || includes (lit "#") s || includes [LF] s
            || startsWith (lit " ") s || endsWith (lit " ") s); [|exact H].
  intros Hin. apply in_app_or in Hin as [[Hin | []] | Hin]; [discriminate|].
  apply in_app_or in Hin as [Hin | [Hin | []]]; [|discriminate].
  unfold escapeQuotes in Hin. apply in_flat_map in Hin as (c & Hc & Hin).
  destruct (N.eqb c DQUOTE).
  - destruct Hin as [Hin | [Hin | []]]; discriminate.
  - destruct Hin as [Hin | []]. subst c. contradiction.
Qed.

Lemma notIn_mapModel (m : jstring) : ~ In 35%N m -> ~ In 35%N (mapModel m).
Proof.
  intros H. unfold mapModel, modelMap. cbn [assoc].
  repeat match goal with
         | |- context [if JS.eqb ?a m then _ else _] =>
             destruct (JS.eqb a m);
             [apply hashFree_In; reflexivity|]
         end.
  exact H.
Qed.

Lemma notIn_label (label s : String.string) (x : jstring) :
  hashFree (lit label) = true -> ~ In 35%N x -> ~ In 35%N (lit label ++ x).
Proof.
  intros Hl Hx Hin. apply in_app_or in Hin as [Hin | Hin]; [|contradiction].
  now apply hashFree_In in Hl.
Qed.

(** The owner that the scans read off a generated agent file. *)
Lemma generateAgentFile_owner (now id : jstring) (a : AgentDefinition) :
  plainHeader a = true ->
  truthy id = true ->
  existsb isLineTerminator id = false ->
  ownerOf (generateAgentFile now a id) = Some (trim id).
Proof.
  intros Hplain Hid Hline.
  apply andb_true_iff in Hplain as [Hplain Hmodel].
  apply andb_true_iff in Hplain as [Hname Hdesc].
  apply hashFree_In in Hname, Hdesc.
  unfold ownerOf, generateAgentFile.
  match goal with
  | |- option_map _ (matchWorkflow (join _ (?l1 ++ ?l2 ++ ?m :: ?r))) = _ =>
      replace (l1 ++ l2 ++ m :: r) with ((l1 ++ l2) ++ m :: r)
        by (now rewrite <- app_assoc);
      rewrite (join_prefix [LF] (l1 ++ l2) m r)
  end.
  rewrite matchWorkflow_skip.
  2:{ apply notIn_lines. apply Forall_app. split.
      - repeat constructor.
        + apply hashFree_In. reflexivity.
        + apply (notIn_label "name: " "" _ eq_refl Hname).
        + apply (notIn_label "description: " "" _ eq_refl).
          now apply notIn_escapeYamlString.
      - destruct (agent_model a) as [m|]; simpl; [|constructor].
        destruct (truthy m); constructor; [|constructor].
        apply (notIn_label "model: " "" _ eq_refl).
        apply notIn_mapModel. now apply hashFree_In. }
  do 2 rewrite join_cons.
  set (R := join [LF] [lit "# injected: " ++ now; lit "---"; []; systemPrompt a]).
  change (option_map trim
            (matchWorkflow
               (35%N :: (lit " BTW metadata" ++ [LF])
                        ++ (lit "# workflow: " ++ id) ++ [LF] ++ R))
          = Some (trim id)).
  rewrite matchWorkflow_miss by reflexivity.
  rewrite matchWorkflow_skip by (apply hashFree_In; reflexivity).
  rewrite (matchWorkflow_hit _ id); [reflexivity | | |].
  - rewrite <- app_assoc. apply startsWith_app.
  - rewrite <- app_assoc.
    change (skipn 12 (lit "# workflow: " ++ id ++ [LF] ++ R))
      with (id ++ LF :: R).
    now apply takeWhile_line.
  - now destruct id.
Qed.

(** X27. The marker that [generateAgentFile] writes is the one the scans read:
    for an agent whose id, description and model hold no [#], and a
    workflow id that is not empty, stands on one line and has no blank at
    either end, the generated file names that workflow as its owner. *)
Theorem generated_file_names_its_workflow (now id : jstring)
    (a : AgentDefinition) :
  plainHeader a = true ->
  plainId id = true ->
  ownerOf (generateAgentFile now a id) = Some id
  /\ belongsTo id (generateAgentFile now a id) = true.
Proof.
  intros Hplain Hid. unfold plainId in Hid.
  apply andb_true_iff in Hid as [Hid Htrim].
  apply andb_true_iff in Hid as [Hid Hline].
  apply negb_true_iff in Hline. apply eqb_eq in Htrim.
  assert (Ho : ownerOf (generateAgentFile now a id) = Some id).
  { rewrite (generateAgentFile_owner now id a Hplain Hid Hline). now rewrite Htrim. }
  split; [exact Ho | now apply belongsTo_owner].
Qed.

Lemma generated_file_names_its_workflow_witness :
  ownerOf (generateAgentFile Scenario.now
             (mkAgent (lit "writer") (lit "Writer") (lit "d") (lit "p") None)
             (lit "demo"))
  = Some (lit "demo")
  /\ belongsTo (lit "demo")
       (generateAgentFile Scenario.now
          (mkAgent (lit "writer") (lit "Writer") (lit "d") (lit "p") None)
          (lit "demo"))
     = true.
Proof.
  apply (generated_file_names_its_workflow Scenario.now (lit "demo")
           (mkAgent (lit "writer") (lit "Writer") (lit "d") (lit "p") None)).
  - reflexivity.
  - vm_compute. reflexivity.
Defined.



End MarkerRoundTrip.

(* ================================================================== *)
(** * Appending the region and cutting it out again *)
(* ================================================================== *)

Section AppendAndCut.

Import ClaudeStrategy.

Lemma start_sentinel_one_line : ~ In LF BTW_START_MARKER.
Proof. intros H. vm_compute in H. intuition discriminate. Qed.

Lemma end_sentinel_one_line : ~ In LF BTW_END_MARKER.
Proof. intros H. vm_compute in H. intuition discriminate. Qed.

(** An occurrence of a pattern without line feeds in a text with a line
    feed lies before the line feed or after it. *)
Lemma startsWith_before_LF (p a b : jstring) :
  ~ In LF p ->
  startsWith p (a ++ LF :: b) = true ->
  length p <= length a /\ startsWith p a = true.
Proof.
  revert a. induction p as [|x p IH]; intros a Hp H.
  - split; [simpl; lia | reflexivity].
  - destruct a as [|c a]; simpl in H.
    + apply andb_true_iff in H as [H _]. apply N.eqb_eq in H.
      exfalso. apply Hp. now left.
    + apply andb_true_iff in H as [Hc H].
      destruct (IH a) as [Hlen Hs]; [intros Hin; apply Hp; now right | exact H|].
      split; [simpl; lia|]. simpl. now rewrite Hc, Hs.
Qed.

Lemma occurs_across_LF (p a b : jstring) (j : nat) :
  ~ In LF p ->
  startsWith p (skipn j (a ++ LF :: b)) = true ->
  (j + length p <= length a /\ startsWith p (skipn j a) = true)
  \/ (length a < j /\ startsWith p (skipn (j - length a - 1) b) = true).
Proof.
  intros Hp. revert j. induction a as [|c a IH]; intros j H.
  - destruct j as [|j].
    + left. simpl in H.
      destruct (startsWith_before_LF p [] b Hp H) as [Hlen Hs].
      split; [simpl in *; lia | exact Hs].
    + right. simpl in *. split; [lia|]. now rewrite Nat.sub_0_r.
  - destruct j as [|j].
    + left. simpl skipn in *.
      destruct (startsWith_before_LF p (c :: a) b Hp H) as [Hlen Hs].
      split; [simpl in *; lia | exact Hs].
    + simpl skipn in H. destruct (IH j H) as [[Hlen Hs] | [Hlen Hs]].
      * left. split; [simpl; lia | exact Hs].
      * right. split; [simpl; lia | exact Hs].
Qed.

(** An occurrence of a sentinel in a text, the separator and a region lies
    in the text or in the region. *)
Lemma occurs_around_separator (p text region : jstring) (j : nat) :
  ~ In LF p -> 3 < length p ->
  startsWith p (skipn j (text ++ SEPARATOR ++ region)) = true ->
  (j + length p <= length text /\ startsWith p (skipn j text) = true)
  \/ (length text + 7 <= j
      /\ startsWith p (skipn (j - (length text + 7)) region) = true).
Proof.
  intros Hp Hlen H.
  change (text ++ SEPARATOR ++ region)
    with (text ++ LF :: ([] ++ LF :: (lit "---" ++ LF :: ([] ++ LF :: region))))
    in H.
  apply (occurs_across_LF p text _ j Hp) in H as [H | [H1 H]]; [now left|].
  apply (occurs_across_LF p [] _ _ Hp) in H as [[H _] | [H2 H]];
    [simpl in H; lia|].
  apply (occurs_across_LF p (lit "---") _ _ Hp) in H as [[H _] | [H3 H]];
    [simpl in H; lia|].
  apply (occurs_across_LF p [] _ _ Hp) in H as [[H _] | [H4 H]];
    [simpl in H; lia|].
  simpl length in *. right. split; [lia|].
  replace (j - (length text + 7))
    with (j - length text - 1 - 0 - 1 - 3 - 1 - 0 - 1) by lia.
  exact H.
Qed.

Lemma skipn_past_separator (text region : jstring) (k : nat) :
  skipn (length text + 7 + k) (text ++ SEPARATOR ++ region) = skipn k region.
Proof.
  rewrite <- Nat.add_assoc, skipn_app.
  rewrite skipn_all2 by lia.
  replace (length text + (7 + k) - length text) with (7 + k) by lia.
  reflexivity.
Qed.

Lemma indexOf_after_separator (p text region : jstring) (k : nat) :
  ~ In LF p -> 3 < length p ->
  includes p text = false ->
  indexOf p region = Some k ->
  indexOf p (text ++ SEPARATOR ++ region) = Some (length text + 7 + k).
Proof.
  intros Hp Hlen Hno Hk.
  apply indexOf_Some in Hk as [[Hs Hbound] Hmin].
  assert (Hnone : forall j, startsWith p (skipn j text) = false).
  { apply indexOf_None. unfold includes in Hno.
    now destruct (indexOf p text). }
  apply indexOf_least. split.
  - split.
    + now rewrite skipn_past_separator.
    + rewrite !length_app. simpl. lia.
  - intros j Hj [Hocc _].
    apply (occurs_around_separator p text region j Hp Hlen) in Hocc
      as [[_ Hocc] | [Hge Hocc]].
    + now rewrite Hnone in Hocc.
    + rewrite Hmin in Hocc by lia. discriminate.
Qed.

Lemma trim_head (s : jstring) (c : char) (r : jstring) :
  trim s = c :: r -> isWhiteSpace c = false.
Proof.
  intros H.
  assert (E : trimStart (trim s) = trim s).
  { unfold trim. apply trimStart_trimEnd_fixed. apply dropWhile_idem. }
  rewrite H in E. unfold trimStart in E. now apply dropWhile_head in E.
Qed.

(** What [trim] leaves of a trimmed text followed by the separator: the
    text and the rule, without the line feeds after it. *)
Lemma trim_with_separator (s : jstring) :
  truthy (trim s) = true ->
  trim (trim s ++ SEPARATOR) = trim s ++ [LF; LF] ++ lit "---".
Proof.
  intros Ht. destruct (trim s) as [|c r] eqn:E; [discriminate|].
  pose proof (trim_head s c r E) as Hc.
  unfold trim at 1, trimStart. simpl app.
  rewrite dropWhile_fixed by exact Hc.
  unfold trimEnd.
  change (c :: r ++ SEPARATOR) with ((c :: r) ++ SEPARATOR).
  rewrite rev_app_distr.
  change (rev SEPARATOR) with ([LF; LF] ++ lit "---" ++ [LF; LF]).
  change (dropWhile isWhiteSpace
            (([LF; LF] ++ lit "---" ++ [LF; LF]) ++ rev (c :: r)))
    with (rev ([LF; LF] ++ lit "---") ++ rev (c :: r)).
  rewrite <- rev_app_distr, rev_involutive. reflexivity.
Qed.

Lemma includes_trim (p s : jstring) :
  includes p s = false -> includes p (trim s) = false.
Proof.
  intros H. destruct (includes p (trim s)) eqn:E; [|reflexivity].
  apply includes_occurs in E as (a & b & E).
  destruct (trim_split s) as (l & r & Hs & _).
  assert (Hin : includes p s = true).
  { apply includes_occurs. exists (l ++ a), (b ++ r).
    rewrite Hs, E. now rewrite <- !app_assoc. }
  congruence.
Qed.

(** Cutting the region out of a document that was made by appending it to
    a text without sentinels gives the text and the rule of the
    separator. *)
Lemma removeBtwContent_appended (now : jstring) (manifest : Manifest)
    (content : jstring) :
  includes BTW_START_MARKER content = false ->
  includes BTW_END_MARKER content = false ->
  truthy (trim content) = true ->
  closedOnlyAtEnd (generateInstructions now manifest) ->
  removeBtwContent (trim content ++ SEPARATOR ++ generateInstructions now manifest)
  = trim content ++ [LF; LF] ++ lit "---".
Proof.
  intros Hs He Ht Hend.
  destruct (generateInstructions_opening now manifest) as [rest Hr].
  set (region := generateInstructions now manifest) in *.
  set (text := trim content) in *.
  assert (Hlen : 18 < length region).
  { rewrite Hr, !length_app. simpl. lia. }
  assert (Hstart : indexOf BTW_START_MARKER (text ++ SEPARATOR ++ region)
                   = Some (length text + 7 + 0)).
  { apply indexOf_after_separator.
    - apply start_sentinel_one_line.
    - simpl. lia.
    - now apply includes_trim.
    - apply indexOf_startsWith. rewrite Hr. apply startsWith_app. }
  assert (Hstop : indexOf BTW_END_MARKER (text ++ SEPARATOR ++ region)
                  = Some (length text + 7
                          + (length region - length BTW_END_MARKER))).
  { apply indexOf_after_separator.
    - apply end_sentinel_one_line.
    - simpl. lia.
    - now apply includes_trim.
    - exact Hend. }
  assert (Hloc : locate (text ++ SEPARATOR ++ region)
                 = Some (length text + 7 + 0,
                         length text + 7
                         + (length region - length BTW_END_MARKER))).
  { apply locate_iff. split; [exact Hstart|]. split; [exact Hstop|].
    simpl length. lia. }
  rewrite removeBtwContent_locate, Hloc. unfold aroundRegion.
  replace (length text + 7 + (length region - length BTW_END_MARKER)
           + length BTW_END_MARKER)
    with (length text + 7 + length region) by (simpl length; lia).
  rewrite skipn_past_separator, skipn_all, app_nil_r.
  rewrite Nat.add_0_r.
  replace (firstn (length text + 7) (text ++ SEPARATOR ++ region))
    with (text ++ SEPARATOR).
  - now apply trim_with_separator.
  - rewrite app_assoc. rewrite firstn_app.
    replace (length text + 7 - length (text ++ SEPARATOR)) with 0
      by (rewrite length_app; simpl; lia).
    rewrite firstn_all2 by (rewrite length_app; simpl; lia).
    simpl. now rewrite app_nil_r.
Qed.

(** X29. Injecting next to the user's text and ejecting again does not give the
    document back. When [inject] answers, with [merge] or without [force],
    on a [CLAUDE.md] that holds text and neither sentinel, and the region
    is closed only at its end, then an ejection of all workflows, or of
    the injected one, leaves the trimmed text followed by the rule of the
    separator and a line feed. *)
Theorem append_then_eject_leaves_separator (now : jstring) (manifest : Manifest)
    (options : InjectOptions) (ejectOptions : EjectOptions) (fs fs1 : FS)
    (result : InjectionResult) (content : jstring) :
  claudeMd fs = Some (File content) ->
  includes BTW_START_MARKER content = false ->
  includes BTW_END_MARKER content = false ->
  truthy (trim content) = true ->
  (merge options = true \/ force options = false) ->
  inject now manifest options fs = (Ok result, fs1) ->
  (workflowId ejectOptions = None
   \/ workflowId ejectOptions = Some (m_id manifest)) ->
  closedOnlyAtEnd (generateInstructions now manifest) ->
  exists fs2,
    eject ejectOptions fs1 = (Ok tt, fs2)
    /\ claudeMd fs2
       = Some (File (trim content ++ [LF; LF] ++ lit "---" ++ [LF])).
Proof.
  intros Hc Hs He Ht Hmode Hrun Hid Hend.
  apply inject_inv_document in Hrun as (fs5 & E & H6).
  rewrite Hc in E.
  rewrite (updateClaudeMd_existing now manifest options fs5 content E) in H6.
  apply (f_equal snd) in H6. cbn [snd] in H6. cbv zeta in H6. subst fs1.
  set (region := generateInstructions now manifest) in *.
  assert (Hdoc : (if merge options || negb (force options)
                  then if merge options || includes BTW_START_MARKER content
                       then stripAndAppend content region
                       else trim content ++ SEPARATOR ++ region
                  else region)
                 = trim content ++ SEPARATOR ++ region).
  { unfold stripAndAppend.
    rewrite (removeBtwContent_unmarked content Hs), Ht, Hs, orb_false_r.
    destruct Hmode as [-> | ->]; [reflexivity|].
    rewrite orb_true_r. now destruct (merge options). }
  rewrite Hdoc.
  destruct (eject_document ejectOptions
              (mkFS (dotClaude fs5)
                    (Some (File (trim content ++ SEPARATOR ++ region))))
              (trim content ++ SEPARATOR ++ region) eq_refl)
    as (fs2 & Hej & Hres).
  { unfold shouldCleanClaudeMd. destruct Hid as [-> | ->]; [reflexivity|].
    apply orb_true_iff. right.
    pose proof (generateInstructions_marker now manifest) as Hm.
    apply includes_occurs in Hm as (a & b & Hm). fold region in Hm.
    apply includes_occurs. exists (trim content ++ SEPARATOR ++ a), b.
    rewrite Hm. now rewrite <- !app_assoc. }
  exists fs2. split; [exact Hej|]. rewrite Hres.
  unfold region.
  rewrite (removeBtwContent_appended now manifest content Hs He Ht Hend).
  assert (Hrule : trim (trim content ++ [LF; LF] ++ lit "---")
                  = trim content ++ [LF; LF] ++ lit "---").
  { rewrite <- (trim_with_separator content Ht). apply trim_idem. }
  rewrite Hrule.
  assert (Htext : truthy (trim content ++ [LF; LF] ++ lit "---") = true)
    by (destruct (trim content); [discriminate | reflexivity]).
  rewrite Htext. now rewrite <- !app_assoc.
Qed.

Lemma append_then_eject_leaves_separator_witness :
  exists fs2,
    eject (mkEjectOptions None false)
      (snd (inject Scenario.now Scenario.demo Scenario.merging
              (Documents.holding (lit "notes"))))
    = (Ok tt, fs2)
    /\ claudeMd fs2
       = Some (File (trim (lit "notes") ++ [LF; LF] ++ lit "---" ++ [LF])).
Proof.
  apply (append_then_eject_leaves_separator Scenario.now Scenario.demo
           Scenario.merging (mkEjectOptions None false)
           (Documents.holding (lit "notes")) _
           (mkInjectionResult claude instructionsPath
              [AgentFileP (lit "writer.md")] 1 false None)
           (lit "notes")).
  - reflexivity.
  - vm_compute. reflexivity.
  - vm_compute. reflexivity.
  - vm_compute. reflexivity.
  - left. reflexivity.
  - vm_compute. reflexivity.
  - left. reflexivity.
  - vm_compute. reflexivity.
Defined.

(** X30. Injecting again with [merge] piles up the rules of the separator. On
    a [CLAUDE.md] that was made by appending a region to a text without
    sentinels, a run of [inject] with [merge] that answers keeps the text
    and the old rule, and appends a new separator and the new region. *)
Theorem remerge_piles_up_separators (now now' : jstring)
    (manifest manifest' : Manifest) (options : InjectOptions) (fs fs' : FS)
    (result : InjectionResult) (content : jstring) :
  claudeMd fs
  = Some (File (trim content ++ SEPARATOR ++ generateInstructions now manifest)) ->
  includes BTW_START_MARKER content = false ->
  includes BTW_END_MARKER content = false ->
  truthy (trim content) = true ->
  closedOnlyAtEnd (generateInstructions now manifest) ->
  merge options = true ->
  inject now' manifest' options fs = (Ok result, fs') ->
  claudeMd fs'
  = Some (File (trim content ++ [LF; LF] ++ lit "---" ++ SEPARATOR
                ++ generateInstructions now' manifest')).
Proof.
  intros Hc Hs He Ht Hend Hmerge Hrun.
  apply inject_inv_document in Hrun as (fs5 & E & H6).
  rewrite Hc in E.
  rewrite (updateClaudeMd_existing now' manifest' options fs5 _ E) in H6.
  apply (f_equal snd) in H6. cbn [snd] in H6. cbv zeta in H6. subst fs'.
  cbn [claudeMd]. rewrite Hmerge. cbn [orb]. unfold stripAndAppend.
  rewrite (removeBtwContent_appended now manifest content Hs He Ht Hend).
  assert (Hrule : trim (trim content ++ [LF; LF] ++ lit "---")
                  = trim content ++ [LF; LF] ++ lit "---").
  { rewrite <- (trim_with_separator content Ht). apply trim_idem. }
  rewrite Hrule.
  assert (Htext : truthy (trim content ++ [LF; LF] ++ lit "---") = true)
    by (destruct (trim content); [discriminate | reflexivity]).
  rewrite Htext. now rewrite <- !app_assoc.
Qed.

Lemma remerge_piles_up_separators_witness :
  claudeMd (snd (inject Scenario.now Scenario.other
                   (mkInjectOptions false true true)
                   (Documents.holding
                      (trim (lit "notes") ++ SEPARATOR
                       ++ generateInstructions Scenario.now Scenario.demo))))
  = Some (File (trim (lit "notes") ++ [LF; LF] ++ lit "---" ++ SEPARATOR
                ++ generateInstructions Scenario.now Scenario.other)).
Proof.
  apply (remerge_piles_up_separators Scenario.now Scenario.now Scenario.demo
           Scenario.other (mkInjectOptions false true true)
           (Documents.holding
              (trim (lit "notes") ++ SEPARATOR
               ++ generateInstructions Scenario.now Scenario.demo)) _
           (mkInjectionResult claude instructionsPath
              [AgentFileP (lit "reader.md")] 1 false None)
           (lit "notes")).
  - reflexivity.
  - vm_compute. reflexivity.
  - vm_compute. reflexivity.
  - vm_compute. reflexivity.
  - vm_compute. reflexivity.
  - reflexivity.
  - vm_compute. reflexivity.
Defined.

End AppendAndCut.
